(** * Receipt filing app: text interpreter and category classifier

    A shallow embedding of [services/ocr_service.py] (the private extraction
    methods of [OCRService]) and of [config/categories.py] ([CategoryConfig]),
    together with the parts of the Python runtime they rest on: [str]
    methods, the backtracking [re] engine restricted to the constructs the
    program's patterns use, [datetime.strptime] for the six formats of the
    program and the [Decimal] constructor.

    Python strings are lists of code points.  Everything the interpreter
    does on ASCII code points is written out; what Python's Unicode
    database says about the other code points (which are decimal digits,
    white space or alphanumeric, how they lower-case, how they compare when
    case is ignored) is a parameter, [unicode_db], of every definition and
    theorem. *)

From Stdlib Require Import List NArith ZArith Bool Lia String Ascii.
From Stdlib Require SpecFloat.
Import ListNotations.

Local Open Scope N_scope.

(** ** Code points and Python [str] *)

Definition codepoint := N.
Definition str := list codepoint.

(** The Unicode database for code points from 128 up.  [u_lower] is given
    the text before and after the character, because [str.lower] is
    context-sensitive there (final sigma). *)
Record unicode_db := {
  u_isdecimal : codepoint -> bool;
  u_decimal_value : codepoint -> N;
  u_isspace : codepoint -> bool;
  u_isalnum : codepoint -> bool;
  u_lower : str -> codepoint -> str -> str;
  u_caseeq : codepoint -> codepoint -> bool
}.

(** A database in which no code point from 128 up is a digit, a space or
    alphanumeric, and none has a case variant. *)
Definition ascii_db : unicode_db := {|
  u_isdecimal := fun _ => false;
  u_decimal_value := fun _ => 0;
  u_isspace := fun _ => false;
  u_isalnum := fun _ => false;
  u_lower := fun _ c _ => [c];
  u_caseeq := fun _ _ => false
|}.

Definition is_ascii (c : codepoint) : bool := c <? 128.

Definition in_range (lo hi c : codepoint) : bool := (lo <=? c) && (c <=? hi).

Definition ascii_lower (c : codepoint) : codepoint :=
  if in_range 65 90 c then c + 32 else c.

Definition ascii_letter (c : codepoint) : bool :=
  in_range 65 90 c || in_range 97 122 c.

(** *** String literals

    [py] reads a literal of this file the way Python reads a source
    literal: the UTF-8 bytes are decoded to code points and the escape
    [\n] stands for a line feed. *)

Fixpoint utf8_decode (bs : list N) : str :=
  match bs with
  | [] => []
  | b0 :: t0 =>
    if b0 <? 128 then b0 :: utf8_decode t0
    else
      match t0 with
      | [] => [b0]
      | b1 :: t1 =>
        if b0 <? 224 then ((b0 mod 32) * 64 + b1 mod 64) :: utf8_decode t1
        else
          match t1 with
          | [] => [b0; b1]
          | b2 :: t2 =>
            if b0 <? 240
            then ((b0 mod 16) * 4096 + (b1 mod 64) * 64 + b2 mod 64)
                   :: utf8_decode t2
            else
              match t2 with
              | [] => [b0; b1; b2]
              | b3 :: t3 =>
                ((b0 mod 8) * 262144 + (b1 mod 64) * 4096
                 + (b2 mod 64) * 64 + b3 mod 64) :: utf8_decode t3
              end
          end
      end
  end.

Fixpoint unescape (s : str) : str :=
  match s with
  | 92 :: 110 :: s' => 10 :: unescape s'
  | c :: s' => c :: unescape s'
  | [] => []
  end.

Definition py (s : string) : str :=
  unescape (utf8_decode (map N_of_ascii (list_ascii_of_string s))).

(** *** [str] methods *)

Definition str_eqb (a b : str) : bool :=
  if list_eq_dec N.eq_dec a b then true else false.

(** [len(s)] *)
Definition len (s : str) : N := N.of_nat (List.length s).

(** [s.startswith(p)] *)
Fixpoint startswith (p s : str) : bool :=
  match p, s with
  | [], _ => true
  | _ :: _, [] => false
  | a :: p', b :: s' => (a =? b) && startswith p' s'
  end.

(** [p in s] *)
Fixpoint contains (p s : str) : bool :=
  startswith p s ||
  match s with
  | [] => false
  | _ :: s' => contains p s'
  end.

(** [s.split('\n')]: always at least one piece. *)
Fixpoint split_lines (s : str) : list str :=
  match s with
  | [] => [[]]
  | c :: s' =>
    if c =? 10 then [] :: split_lines s'
    else
      match split_lines s' with
      | l :: ls => (c :: l) :: ls
      | [] => [[c]]
      end
  end.

(** [s.replace(',', '')] *)
Definition remove_commas (s : str) : str :=
  filter (fun c => negb (c =? 44)) s.

Fixpoint dropwhile (p : codepoint -> bool) (s : str) : str :=
  match s with
  | c :: s' => if p c then dropwhile p s' else s
  | [] => []
  end.

Section StrMethods.
Context (U : unicode_db).

(** [c.isspace()] *)
Definition isspace (c : codepoint) : bool :=
  if is_ascii c
  then in_range 9 13 c || in_range 28 32 c
  else u_isspace U c.

(** [c.isdecimal()], the class [\d] of [re] *)
Definition isdecimal (c : codepoint) : bool :=
  if is_ascii c then in_range 48 57 c else u_isdecimal U c.

Definition decimal_value (c : codepoint) : N :=
  if is_ascii c then c - 48 else u_decimal_value U c.

(** The class [\w] of [re]: alphanumeric or underscore. *)
Definition isword (c : codepoint) : bool :=
  if is_ascii c
  then in_range 48 57 c || in_range 65 90 c || in_range 97 122 c || (c =? 95)
  else u_isalnum U c.

(** [s.strip()] *)
Definition strip (s : str) : str :=
  rev (dropwhile isspace (rev (dropwhile isspace s))).

Fixpoint lower_from (before : str) (s : str) : str :=
  match s with
  | [] => []
  | c :: s' =>
    (if is_ascii c then [ascii_lower c] else u_lower U (rev before) c s')
      ++ lower_from (c :: before) s'
  end.

(** [s.lower()] *)
Definition lower (s : str) : str := lower_from [] s.

Definition int_of_digits (s : str) : N :=
  fold_left (fun acc c => 10 * acc + decimal_value c) s 0.

(** [int(s)] on decimal digits, white space around them ignored. *)
Definition py_int (s : str) : N := int_of_digits (strip s).

End StrMethods.

(** ** The [re] engine

    Python's [re] is a backtracking matcher: alternatives are tried left to
    right, a greedy repetition takes as many characters as it can and gives
    them back one at a time, and the first way through the whole pattern
    wins.  The syntax below covers what the patterns of the program (and
    those [strptime] builds for its six formats) are made of; every
    repetition in them is over a single character. *)

Inductive charset :=
| CsDigit                                        (* \d *)
| CsSpace                                        (* \s *)
| CsRanges (rs : list (codepoint * codepoint)).  (* [a-bc-d...] *)

Inductive atom :=
| Chr (c : codepoint)       (* a literal character *)
| Cls (cs : charset).

Inductive regex :=
| Eps
| One (a : atom)
| Rep (a : atom) (lo : nat) (hi : option nat)   (* greedy a{lo,hi} *)
| Cat (r1 r2 : regex)
| Alt (r1 r2 : regex)
| Group (name : string) (r : regex)             (* (...) and (?P<name>...) *)
| Bol                                           (* ^ without MULTILINE *)
| WordB.                                        (* \b *)

Definition seq (rs : list regex) : regex := fold_right Cat Eps rs.

Fixpoint alt (rs : list regex) : regex :=
  match rs with
  | [] => Eps
  | [r] => r
  | r :: rs' => Alt r (alt rs')
  end.

(** [re.escape(s)] compiled: the characters of [s], literally. *)
Definition literal (s : str) : regex := seq (map (fun c => One (Chr c)) s).

Definition a_digit : atom := Cls CsDigit.
Definition a_space : atom := Cls CsSpace.
Definition a_range (lo hi : string) : atom :=
  Cls (CsRanges [(hd 0 (py lo), hd 0 (py hi))]).
Definition a_oneof (cs : string) : atom :=
  Cls (CsRanges (map (fun c => (c, c)) (py cs))).
Definition a_chr (c : string) : atom := Chr (hd 0 (py c)).

Definition star (a : atom) : regex := Rep a 0 None.
Definition plus (a : atom) : regex := Rep a 1 None.
Definition opt (a : atom) : regex := Rep a 0 (Some 1%nat).
Definition times (a : atom) (lo hi : nat) : regex := Rep a lo (Some hi).

(** The state of a match attempt: the text already passed (last character
    first), the text still ahead, and the groups closed so far. *)
Record mstate := {
  ms_before : str;
  ms_rest : str;
  ms_groups : list (string * str)
}.

Record match_obj := {
  m_start : nat;
  m_end : nat;
  m_group0 : str;
  m_groups : list (string * str)
}.

Fixpoint assoc {A} (k : string) (l : list (string * A)) : option A :=
  match l with
  | [] => None
  | (k', v) :: l' => if String.eqb k' k then Some v else assoc k l'
  end.

(** [m.group(name)] *)
Definition group (name : string) (m : match_obj) : option str :=
  assoc name (m_groups m).

(** The truth value of what [re.match] and [re.search] return. *)
Definition matched (m : option match_obj) : bool :=
  match m with
  | Some _ => true
  | None => false
  end.

Definition below (n : nat) (hi : option nat) : bool :=
  match hi with
  | None => true
  | Some h => Nat.ltb n h
  end.

Fixpoint rep_greedy {R} (ok : codepoint -> bool) (lo : nat) (hi : option nat)
    (n : nat) (before rest : str) (k : str -> str -> option R) : option R :=
  let stop := if Nat.leb lo n then k before rest else None in
  match rest with
  | [] => stop
  | c :: rest' =>
    if ok c && below n hi then
      match rep_greedy ok lo hi (S n) (c :: before) rest' k with
      | Some r => Some r
      | None => stop
      end
    else stop
  end.

Section Re.
Context (U : unicode_db).

(** Equality of a pattern character [c] and a text character [x] under
    [re.IGNORECASE].  The compiler of [re] keeps a pattern character that
    has no case as an exact literal: among the ASCII characters only the
    letters are compared case-insensitively.  An ASCII text character is
    compared through ASCII lower-casing; for the others the database
    decides (for instance U+212A KELVIN SIGN matches [K] and U+017F matches
    [S]). *)
Definition ci_eq (c x : codepoint) : bool :=
  (x =? c) ||
  (if is_ascii x
   then is_ascii c && (ascii_lower x =? ascii_lower c)
   else (negb (is_ascii c) || ascii_letter c) && u_caseeq U c x).

Definition charset_has (cs : charset) (x : codepoint) : bool :=
  match cs with
  | CsDigit => isdecimal U x
  | CsSpace => isspace U x
  | CsRanges rs => existsb (fun r => in_range (fst r) (snd r) x) rs
  end.

Definition atom_ok (ignorecase : bool) (a : atom) (x : codepoint) : bool :=
  match a with
  | Chr c => if ignorecase then ci_eq c x else x =? c
  | Cls cs => charset_has cs x
  end.

Definition word_at (s : str) : bool :=
  match s with
  | c :: _ => isword U c
  | [] => false
  end.

(** The text passed between two states of one attempt. *)
Definition consumed (st st' : mstate) : str :=
  rev (firstn (List.length (ms_before st') - List.length (ms_before st))
              (ms_before st')).

Fixpoint rmatch (ignorecase : bool) (r : regex) (st : mstate)
    (k : mstate -> option mstate) : option mstate :=
  match r with
  | Eps => k st
  | One a =>
    match ms_rest st with
    | c :: rest =>
      if atom_ok ignorecase a c
      then k {| ms_before := c :: ms_before st; ms_rest := rest;
                ms_groups := ms_groups st |}
      else None
    | [] => None
    end
  | Rep a lo hi =>
    rep_greedy (atom_ok ignorecase a) lo hi 0 (ms_before st) (ms_rest st)
      (fun b rest => k {| ms_before := b; ms_rest := rest;
                          ms_groups := ms_groups st |})
  | Cat r1 r2 =>
    rmatch ignorecase r1 st (fun st1 => rmatch ignorecase r2 st1 k)
  | Alt r1 r2 =>
    match rmatch ignorecase r1 st k with
    | Some st' => Some st'
    | None => rmatch ignorecase r2 st k
    end
  | Group name r1 =>
    rmatch ignorecase r1 st
      (fun st1 => k {| ms_before := ms_before st1; ms_rest := ms_rest st1;
                       ms_groups := (name, consumed st st1) :: ms_groups st1 |})
  | Bol =>
    match ms_before st with
    | [] => k st
    | _ :: _ => None
    end
  | WordB =>
    if xorb (word_at (ms_before st)) (word_at (ms_rest st))
    then k st else None
  end.

(** One attempt, starting where [before] ends. *)
Definition match_at (ignorecase : bool) (r : regex) (before rest : str)
    : option match_obj :=
  let st := {| ms_before := before; ms_rest := rest; ms_groups := [] |} in
  match rmatch ignorecase r st Some with
  | Some st' =>
    Some {| m_start := List.length before;
            m_end := List.length (ms_before st');
            m_group0 := consumed st st';
            m_groups := ms_groups st' |}
  | None => None
  end.

(** [re.match(r, s)] *)
Definition re_match (ignorecase : bool) (r : regex) (s : str)
    : option match_obj :=
  match_at ignorecase r [] s.

Fixpoint search_from (ignorecase : bool) (r : regex) (before rest : str)
    : option match_obj :=
  match match_at ignorecase r before rest with
  | Some m => Some m
  | None =>
    match rest with
    | [] => None
    | c :: rest' => search_from ignorecase r (c :: before) rest'
    end
  end.

(** [re.search(r, s)]: the leftmost start position with a match. *)
Definition re_search (ignorecase : bool) (r : regex) (s : str)
    : option match_obj :=
  search_from ignorecase r [] s.

End Re.

(** ** Exceptions

    A computation either returns or raises.  The program raises nothing
    itself; these are the exceptions of the library calls it makes. *)

Inductive exn := ValueError | InvalidOperation | AttributeError.

Inductive outcome (A : Type) :=
| Return (a : A)
| Raise (e : exn).
Arguments Return {A} a.
Arguments Raise {A} e.

Definition bind {A B} (c : outcome A) (f : A -> outcome B) : outcome B :=
  match c with
  | Return a => f a
  | Raise e => Raise e
  end.

Notation "x <- c ;; k" := (bind c (fun x => k))
  (at level 61, c at next level, right associativity).

(** ** [decimal.Decimal]

    A finite decimal is a sign, a coefficient and an exponent; the
    constructor keeps the digits as written, so ["5.00"] is 500e-2 and
    ["5."] is 5e0. *)
Record Decimal := {
  d_negative : bool;
  d_coefficient : N;
  d_exponent : Z
}.

Fixpoint span_digits (isd : codepoint -> bool) (s : str) : str * str :=
  match s with
  | c :: s' =>
    if isd c then let (ds, r) := span_digits isd s' in (c :: ds, r)
    else ([], s)
  | [] => ([], [])
  end.

Definition nonempty (s : str) : bool :=
  match s with
  | [] => false
  | _ :: _ => true
  end.

Section DecimalCtor.
Context (U : unicode_db).

(** [Decimal(s)] for the strings the program passes: digits with at most one
    point (what is left of the group of a currency pattern once the commas
    are gone).  At least one digit is required.  Signs, exponents,
    underscores and the special values of the full syntax cannot occur in
    such a string and are not modelled: any other character is rejected
    here.  That no other string reaches the constructor, and that such a
    string is refused only for want of a digit, is proved below
    ([currency_group_is_number_text], [Decimal_of_number_text]). *)
Definition Decimal_of_str (s : str) : outcome Decimal :=
  let (ip, rest) := span_digits (isdecimal U) s in
  match rest with
  | [] =>
    if nonempty ip
    then Return {| d_negative := false;
                   d_coefficient := int_of_digits U ip;
                   d_exponent := 0 |}
    else Raise InvalidOperation
  | c :: fp =>
    if (c =? 46) && forallb (isdecimal U) fp && (nonempty ip || nonempty fp)
    then Return {| d_negative := false;
                   d_coefficient := int_of_digits U (ip ++ fp);
                   d_exponent := - Z.of_nat (List.length fp) |}
    else Raise InvalidOperation
  end.

End DecimalCtor.

(** ** [datetime] and [datetime.strptime] *)

Record datetime := {
  dt_year : N;
  dt_month : N;
  dt_day : N;
  dt_hour : N;
  dt_minute : N;
  dt_second : N
}.

Definition is_leap (y : N) : bool :=
  (y mod 4 =? 0) && (negb (y mod 100 =? 0) || (y mod 400 =? 0)).

Definition days_in_month (y m : N) : N :=
  match m with
  | 1 | 3 | 5 | 7 | 8 | 10 | 12 => 31
  | 4 | 6 | 9 | 11 => 30
  | 2 => if is_leap y then 29 else 28
  | _ => 0
  end.

(** [datetime(y, m, d)]: the constructor checks the calendar. *)
Definition make_datetime (y m d : N) : outcome datetime :=
  if in_range 1 9999 y && in_range 1 12 m && in_range 1 (days_in_month y m) d
  then Return {| dt_year := y; dt_month := m; dt_day := d;
                 dt_hour := 0; dt_minute := 0; dt_second := 0 |}
  else Raise ValueError.

(** The regular expression [_strptime] keeps for each directive. *)
Definition directive_regex (d : codepoint) : option regex :=
  if d =? 89 then                                       (* %Y *)
    Some (Group "Y" (times a_digit 4 4))
  else if d =? 109 then                                 (* %m *)
    Some (Group "m" (alt [seq [One (a_chr "1"); One (a_range "0" "2")];
                          seq [One (a_chr "0"); One (a_range "1" "9")];
                          One (a_range "1" "9")]))
  else if d =? 100 then                                 (* %d *)
    Some (Group "d" (alt [seq [One (a_chr "3"); One (a_range "0" "1")];
                          seq [One (a_range "1" "2"); One a_digit];
                          seq [One (a_chr "0"); One (a_range "1" "9")];
                          One (a_range "1" "9");
                          seq [One (a_chr " "); One (a_range "1" "9")]]))
  else if d =? 121 then                                 (* %y *)
    Some (Group "y" (times a_digit 2 2))
  else None.

(** A format string turned into the pieces of its regular expression; [None]
    for a directive other than the four above. *)
Fixpoint format_regex (f : str) : option (list regex) :=
  match f with
  | 37 :: d :: f' =>
    match directive_regex d, format_regex f' with
    | Some r, Some rs => Some (r :: rs)
    | _, _ => None
    end
  | c :: f' =>
    match format_regex f' with
    | Some rs => Some (One (Chr c) :: rs)
    | None => None
    end
  | [] => Some []
  end.

Section Strptime.
Context (U : unicode_db).

Definition group_int (name : string) (m : match_obj) : option N :=
  option_map (py_int U) (group name m).

(** [datetime.strptime(data, fmt)]: the format's expression must match at
    the start of [data] (case ignored) and leave nothing over; a two-digit
    year up to 68 is in the 2000s, the others in the 1900s; fields the
    format lacks default to 1900, 1 and 1. *)
Definition strptime (data fmt : str) : outcome datetime :=
  match format_regex fmt with
  | None => Raise ValueError
  | Some rs =>
    match re_match U true (seq rs) data with
    | None => Raise ValueError
    | Some m =>
      if negb (Nat.eqb (List.length data) (m_end m)) then Raise ValueError
      else
        let year :=
          match group_int "Y" m, group_int "y" m with
          | Some y, _ => y
          | None, Some y => if y <=? 68 then y + 2000 else y + 1900
          | None, None => 1900
          end in
        let month := match group_int "m" m with Some x => x | None => 1 end in
        let day := match group_int "d" m with Some x => x | None => 1 end in
        make_datetime year month day
    end
  end.

End Strptime.

(** ** [models/receipt.py] *)

(** The values the dictionary of [_extract_amount_and_currency] holds. *)
Inductive pyval :=
| PyDecimal (d : Decimal)
| PyStr (s : str).

(** A [dict] with string keys, in insertion order. *)
Definition pydict := list (string * pyval).

(** [d.get(key)] *)
Definition dict_get (key : string) (d : pydict) : option pyval := assoc key d.

(** [ReceiptData].  Assignment to a field is not validated, so [amount] and
    [currency] hold whatever the dictionary gave.  [confidence] is a float
    that the code below never writes. *)
Record ReceiptData := {
  date : option datetime;
  merchant : option str;
  category : option str;
  amount : option pyval;
  currency : option pyval;
  items : list str;
  raw_text : option str;
  confidence : option SpecFloat.spec_float
}.

(** [ProcessingResult]: [filename] and [status] are required strings. *)
Record ProcessingResult := {
  filename : str;
  status : str;
  data : option ReceiptData;
  error : option str
}.

(** [receipt_data.raw_text = t] and [receipt_data.category = c] *)
Definition set_raw_text (r : ReceiptData) (t : str) : ReceiptData :=
  {| date := date r; merchant := merchant r; category := category r;
     amount := amount r; currency := currency r; items := items r;
     raw_text := Some t; confidence := confidence r |}.

Definition set_category (r : ReceiptData) (c : str) : ReceiptData :=
  {| date := date r; merchant := merchant r; category := Some c;
     amount := amount r; currency := currency r; items := items r;
     raw_text := raw_text r; confidence := confidence r |}.

(** ** Exceptions of the service layer

    What the service layer raises and catches: an exception of any class
    with the text [str] gives for it, FastAPI's [HTTPException], and the
    error pydantic raises when a model cannot be built. *)
Inductive raised :=
| Exception_ (message : str)
| HTTPException (status_code : N) (detail : str)
| ValidationError.

Inductive fallible (A : Type) :=
| Done (a : A)
| Failed (e : raised).
Arguments Done {A} a.
Arguments Failed {A} e.

(** How the runtime prints the exceptions whose text the program does not
    fix itself: the library exceptions of the extractors, [HTTPException]
    (its [str] differs between versions of the framework) and the
    validation error. *)
Record rendering := {
  str_of_exn : exn -> str;
  str_of_http : N -> str -> str;
  str_of_validation_error : str
}.

(** [str(e)] *)
Definition str_of_raised (R : rendering) (e : raised) : str :=
  match e with
  | Exception_ message => message
  | HTTPException code detail => str_of_http R code detail
  | ValidationError => str_of_validation_error R
  end.

Definition bytes := list Byte.byte.

(** [ProcessingResult(filename=f, status=s, data=d, error=e)]: a missing
    file name is refused. *)
Definition ProcessingResult_new (f : option str) (s : str)
    (d : option ReceiptData) (e : option str) : fallible ProcessingResult :=
  match f with
  | Some name => Done {| filename := name; status := s; data := d; error := e |}
  | None => Failed ValidationError
  end.

(** ** [services/ocr_service.py] *)

Module OCRService.

Definition sep : atom := a_oneof "-/".

Definition date_patterns : list regex :=
  [ seq [times a_digit 4 4; One sep; times a_digit 1 2; One sep;
         times a_digit 1 2];
    seq [times a_digit 1 2; One sep; times a_digit 1 2; One sep;
         times a_digit 4 4];
    seq [times a_digit 1 2; One sep; times a_digit 1 2; One sep;
         times a_digit 2 2] ].

Definition date_formats : list str :=
  map py ["%Y-%m-%d"; "%Y/%m/%d"; "%d-%m-%Y"; "%m/%d/%Y"; "%d-%m-%y";
          "%m/%d/%y"]%string.

(** [^\d+[-/]\d+[-/]\d+] *)
Definition leading_date : regex :=
  seq [Bol; plus a_digit; One sep; plus a_digit; One sep; plus a_digit].

(** [\$\d+] *)
Definition dollar_amount : regex := seq [One (a_chr "$"); plus a_digit].

(** [\d+\.\d+] *)
Definition decimal_number : regex :=
  seq [plus a_digit; One (a_chr "."); plus a_digit].

Definition skip_words : list str :=
  map py ["receipt"; "invoice"; "date"; "time"; "total"; "amount"; "tax";
          "subtotal"; "sum"]%string.

(** The capturing group of every currency pattern: one or more of
    [[0-9,]], an optional point, any number of [\d]. *)
Definition number_group : regex :=
  Group "1" (seq [plus (Cls (CsRanges [(48, 57); (44, 44)]));
                  opt (a_chr "."); star a_digit]).

Definition currency_patterns : list (regex * str) :=
  [ (seq [One (a_chr "N"); One (a_chr "T"); opt (a_chr "$"); star a_space;
          number_group], py "NTD");
    (seq [One (a_chr "H"); One (a_chr "K"); opt (a_chr "$"); star a_space;
          number_group], py "HKD");
    (seq [One (a_chr "U"); One (a_chr "S"); opt (a_chr "$"); star a_space;
          number_group], py "USD");
    (seq [One (a_chr "$"); star a_space; number_group], py "USD");
    (seq [number_group; star a_space; One (a_chr "元")], py "NTD") ].

Definition total_keywords : list str :=
  map py ["total"; "amount"; "sum"; "合計"; "總計"; "小計"]%string.

(** [total|amount|合計|總計] *)
Definition totals_regex : regex :=
  alt (map (fun w => literal (py w)) ["total"; "amount"; "合計"; "總計"]%string).

Section Extractors.
Context (U : unicode_db).

(** The loop over the six formats: the first that parses is returned; a
    [ValueError] moves on to the next format, anything else leaves the
    loop as an exception. *)
Fixpoint try_formats (date_str : str) (fmts : list str)
    : outcome (option datetime) :=
  match fmts with
  | [] => Return None
  | fmt :: fmts' =>
    match strptime U date_str fmt with
    | Return d => Return (Some d)
    | Raise ValueError => try_formats date_str fmts'
    | Raise e => Raise e
    end
  end.

(** The loop over the date patterns.  When the formats are exhausted, or
    the [try] body raised, the loop goes on with the next pattern. *)
Fixpoint date_loop (patterns : list regex) (text : str)
    : outcome (option datetime) :=
  match patterns with
  | [] => Return None
  | pattern :: patterns' =>
    match re_search U false pattern text with
    | Some m =>
      match try_formats (m_group0 m) date_formats with
      | Return (Some d) => Return (Some d)
      | Return None => date_loop patterns' text
      | Raise _ => date_loop patterns' text
      end
    | None => date_loop patterns' text
    end
  end.

Definition _extract_date (text : str) : outcome (option datetime) :=
  date_loop date_patterns text.

Fixpoint merchant_loop (lines : list str) : option str :=
  match lines with
  | [] => None
  | line0 :: lines' =>
    let line := strip U line0 in
    if (2 <? len line) && negb (matched (re_match U false leading_date line))
    then
      if negb (existsb (fun word => contains word (lower U line)) skip_words)
      then
        if negb (matched (re_search U false dollar_amount line))
           && negb (matched (re_search U false decimal_number line))
        then Some line
        else merchant_loop lines'
      else merchant_loop lines'
    else merchant_loop lines'
  end.

Definition _extract_merchant (text : str) : option str :=
  merchant_loop (firstn 5 (split_lines text)).

(** The loop over the currency patterns on one piece of text.  [group(1)]
    and [replace] stand before the [try]: were the group unset, the
    [AttributeError] would leave the function.  Whatever [Decimal] raises
    is swallowed and the next pattern is tried. *)
Fixpoint pattern_loop (patterns : list (regex * str)) (s : str)
    : outcome (option pydict) :=
  match patterns with
  | [] => Return None
  | (pattern, currency) :: patterns' =>
    match re_search U true pattern s with
    | Some m =>
      match group "1" m with
      | None => Raise AttributeError
      | Some g =>
        let amount_str := remove_commas g in
        match Decimal_of_str U amount_str with
        | Return amount =>
          Return (Some [("amount"%string, PyDecimal amount);
                        ("currency"%string, PyStr currency)])
        | Raise _ => pattern_loop patterns' s
        end
      end
    | None => pattern_loop patterns' s
    end
  end.

(** A pass over the lines: on each line whose lower-cased form satisfies
    [cond], the currency patterns are tried. *)
Fixpoint line_loop (cond : str -> bool) (lines : list str)
    : outcome (option pydict) :=
  match lines with
  | [] => Return None
  | line :: lines' =>
    let line_lower := lower U line in
    if cond line_lower then
      r <- pattern_loop currency_patterns line ;;
      match r with
      | Some d => Return (Some d)
      | None => line_loop cond lines'
      end
    else line_loop cond lines'
  end.

(** ['total' in line_lower and 'subtotal' not in line_lower] *)
Definition first_pass_cond (line_lower : str) : bool :=
  contains (py "total") line_lower && negb (contains (py "subtotal") line_lower).

(** [any(keyword in line_lower for keyword in total_keywords)] *)
Definition second_pass_cond (line_lower : str) : bool :=
  existsb (fun keyword => contains keyword line_lower) total_keywords.

Definition _extract_amount_and_currency (text : str) : outcome pydict :=
  let lines := split_lines text in
  r1 <- line_loop first_pass_cond lines ;;
  match r1 with
  | Some d => Return d
  | None =>
    r2 <- line_loop second_pass_cond lines ;;
    match r2 with
    | Some d => Return d
    | None =>
      r3 <- pattern_loop currency_patterns text ;;
      match r3 with
      | Some d => Return d
      | None => Return []
      end
    end
  end.

Fixpoint items_loop (lines : list str) (items : list str) : list str :=
  match lines with
  | [] => items
  | line0 :: lines' =>
    let line := strip U line0 in
    if (2 <? len line)
       && negb (matched (re_match U false leading_date line))
       && negb (matched (re_search U false totals_regex (lower U line)))
    then items_loop lines' (items ++ [line])
    else items_loop lines' items
  end.

Definition _extract_items (text : str) : list str :=
  firstn 10 (items_loop (split_lines text) []).

Definition _parse_receipt_text (text : str) : outcome ReceiptData :=
  d <- _extract_date text ;;
  let m := _extract_merchant text in
  amount_info <- _extract_amount_and_currency text ;;
  let its := _extract_items text in
  Return {| date := d;
            merchant := m;
            category := None;
            amount := dict_get "amount" amount_info;
            currency := dict_get "currency" amount_info;
            items := its;
            raw_text := None;
            confidence := None |}.

End Extractors.

(** What the Vision client answers for an image: [response.error.message]
    and the [description] of each entry of [response.text_annotations]. *)
Record vision_response := {
  error_message : str;
  text_annotations : list str
}.

Section Service.
Context (U : unicode_db) (R : rendering).

(** [self.client.text_detection]: the answer of the Vision service for an
    image, or the exception the call raised. *)
Context (text_detection : bytes -> fallible vision_response).

Definition _extract_text (image_content : bytes) : fallible str :=
  match text_detection image_content with
  | Failed e => Failed e
  | Done response =>
    if nonempty (error_message response)
    then Failed (Exception_ (py "Vision API error: " ++ error_message response))
    else
      match text_annotations response with
      | description :: _ => Done description
      | [] => Done []
      end
  end.

Definition extract_receipt_data (image_content : bytes)
    : fallible ReceiptData :=
  match _extract_text image_content with
  | Done raw_text =>
    match _parse_receipt_text U raw_text with
    | Return parsed_data => Done (set_raw_text parsed_data raw_text)
    | Raise e =>
      Failed (Exception_ (py "OCR processing failed: " ++ str_of_exn R e))
    end
  | Failed e =>
    Failed (Exception_ (py "OCR processing failed: " ++ str_of_raised R e))
  end.

End Service.

End OCRService.

(** ** [config/categories.py] *)

Module CategoryConfig.

(** The value kept for a category: [{'keywords': [...], 'merchants': [...]}]. *)
Record rule := {
  keywords : list str;
  merchants : list str
}.

(** A [dict] from category name to rule.  Python dictionaries iterate in
    insertion order, and [categorize_receipt] returns on the first hit, so
    the order is part of the model. *)
Definition table := list (str * rule).

(** [t.get(name)] *)
Fixpoint table_get (name : str) (t : table) : option rule :=
  match t with
  | [] => None
  | (k, v) :: t' => if str_eqb k name then Some v else table_get name t'
  end.

(** [name in t] *)
Definition table_mem (name : str) (t : table) : bool :=
  match table_get name t with
  | Some _ => true
  | None => false
  end.

(** [t[name] = v]: a key already there keeps its place and takes the new
    value; a new key goes to the end. *)
Fixpoint table_set (name : str) (v : rule) (t : table) : table :=
  match t with
  | [] => [(name, v)]
  | (k, v') :: t' =>
    if str_eqb k name then (k, v) :: t' else (k, v') :: table_set name v t'
  end.

(** [{**a, **b}]: a copy of [a] into which the entries of [b] are stored one
    after the other. *)
Definition table_merge (a b : table) : table :=
  fold_left (fun acc kv => table_set (fst kv) (snd kv) acc) b a.

Definition table_keys (t : table) : list str := map fst t.

(** The state of a [CategoryConfig] object. *)
Record t := {
  default_categories : table;
  custom_categories : table
}.

Definition mk_rule (kws ms : list string) : rule :=
  {| keywords := map py kws; merchants := map py ms |}.

Local Open Scope string_scope.

(** [CategoryConfig()] *)
Definition init : t := {|
  default_categories :=
    [ (py "Food & Dining",
       mk_rule ["restaurant"; "餐廳"; "cafe"; "咖啡"; "food"; "食物"; "dining";
                "meal"; "飯店"; "bar"; "酒吧"]
               ["mcdonalds"; "starbucks"; "subway"; "麥當勞"; "星巴克"]);
      (py "Transportation",
       mk_rule ["uber"; "taxi"; "計程車"; "mrt"; "捷運"; "bus"; "公車"; "train";
                "火車"; "parking"; "停車"]
               ["uber"; "grab"; "taxi"; "mrt"]);
      (py "Shopping",
       mk_rule ["mart"; "超市"; "store"; "商店"; "shop"; "購物"; "market"; "市場";
                "mall"; "商場"]
               ["7-eleven"; "familymart"; "walmart"; "target"; "全家"; "7-11"]);
      (py "Utilities",
       mk_rule ["electric"; "電力"; "water"; "水費"; "gas"; "瓦斯"; "internet";
                "網路"; "phone"; "電話"]
               ["台電"; "自來水"; "中華電信"]);
      (py "Healthcare",
       mk_rule ["hospital"; "醫院"; "clinic"; "診所"; "pharmacy"; "藥局"; "doctor";
                "醫生"; "medical"; "醫療"]
               ["hospital"; "clinic"]);
      (py "Entertainment",
       mk_rule ["movie"; "電影"; "cinema"; "戲院"; "game"; "遊戲"; "book"; "書";
                "music"; "音樂"]
               ["netflix"; "spotify"; "cinema"]);
      (py "Office Supplies",
       mk_rule ["stationery"; "文具"; "office"; "辦公"; "paper"; "紙張"; "pen";
                "筆"; "computer"; "電腦"]
               ["office depot"; "staples"]);
      (py "Other", mk_rule [] []) ];
  custom_categories := []
|}.

Local Close Scope string_scope.

(** The truth value of an optional string: [None] and [''] are false. *)
Definition truthy (s : option str) : bool :=
  match s with
  | Some (_ :: _) => true
  | _ => false
  end.

(** [s or ''] *)
Definition or_empty (s : option str) : str :=
  match s with
  | Some (c :: s') => c :: s'
  | _ => []
  end.

(** The table [categorize_receipt] iterates: [{**custom, **default}]. *)
Definition all_categories (self : t) : table :=
  table_merge (custom_categories self) (default_categories self).

Definition get_all_categories (self : t) : table :=
  table_merge (default_categories self) (custom_categories self).

Definition add_custom_category (self : t) (name : str)
    (kws ms : list str) : t :=
  {| default_categories := default_categories self;
     custom_categories :=
       table_set name {| keywords := kws; merchants := ms |}
                 (custom_categories self) |}.

Section Classifier.
Context (U : unicode_db).

(** [\b] + [re.escape(keyword_lower)] + [\b] *)
Definition keyword_pattern (keyword : str) : regex :=
  seq [WordB; literal (lower U keyword); WordB].

(** The inner loop over [config['merchants']]. *)
Definition merchant_hit (config : rule) (merchant : str) : bool :=
  existsb (fun merchant_pattern => contains (lower U merchant_pattern) merchant)
          (merchants config).

(** The inner loop over [config['keywords']]. *)
Definition keyword_hit (config : rule) (text merchant : str) : bool :=
  existsb (fun keyword =>
             let pattern := keyword_pattern keyword in
             matched (re_search U false pattern text)
             || matched (re_search U false pattern merchant))
          (keywords config).

(** The loop over [all_categories.items()]. *)
Fixpoint rule_loop (rules : table) (merchant text : str) : option str :=
  match rules with
  | [] => None
  | (cat, config) :: rules' =>
    if merchant_hit config merchant then Some cat
    else if keyword_hit config text merchant then Some cat
    else rule_loop rules' merchant text
  end.

Definition categorize_receipt (self : t) (receipt_data : ReceiptData) : str :=
  if negb (truthy (merchant receipt_data))
     && negb (truthy (raw_text receipt_data))
  then py "Other"
  else
    let merchant := lower U (or_empty (merchant receipt_data)) in
    let text := lower U (or_empty (raw_text receipt_data)) in
    match rule_loop (all_categories self) merchant text with
    | Some cat => cat
    | None => py "Other"
    end.

End Classifier.

End CategoryConfig.

(** ** Keyword and merchant lists as objects

    [add_keyword_to_category] appends to a list in place, and
    [add_custom_category] stores the two lists it is given, not copies of
    them: two rules made from one list, the two fields of one rule made
    from one list, and the caller, share one object.  The store below
    keeps every list by address, so that an append is seen through every
    field that refers to the list.  [CategoryConfig.t] above is what the
    store looks like when every address is replaced by the list that stands
    there; the two are related below. *)

Module CategoryStore.

(** The address of a list object. *)
Definition ref := nat.

(** The value kept for a category: [{'keywords': ..., 'merchants': ...}],
    each list held by reference. *)
Record rule := {
  keywords : ref;
  merchants : ref
}.

Definition table := list (str * rule).

Fixpoint table_get (name : str) (t : table) : option rule :=
  match t with
  | [] => None
  | (k, v) :: t' => if str_eqb k name then Some v else table_get name t'
  end.

Fixpoint table_set (name : str) (v : rule) (t : table) : table :=
  match t with
  | [] => [(name, v)]
  | (k, v') :: t' =>
    if str_eqb k name then (k, v) :: t' else (k, v') :: table_set name v t'
  end.

Definition table_merge (a b : table) : table :=
  fold_left (fun acc kv => table_set (fst kv) (snd kv) acc) b a.

Definition table_keys (t : table) : list str := map fst t.

(** The state of a [CategoryConfig] object together with the lists its
    rules refer to. *)
Record t := {
  lists : list (list str);
  default_categories : table;
  custom_categories : table
}.

(** The list at an address. *)
Definition deref (self : t) (a : ref) : list str := nth a (lists self) [].

(** A list the caller builds: a new object. *)
Definition new_list (self : t) (l : list str) : t * ref :=
  ({| lists := lists self ++ [l];
      default_categories := default_categories self;
      custom_categories := custom_categories self |},
   List.length (lists self)).

(** The rules of a literal dictionary: every list of the literal is an
    object of its own, the keywords of the first rule at address [a], its
    merchants at the next address, and so on. *)
Fixpoint number_from (a : ref) (t : CategoryConfig.table) : table :=
  match t with
  | [] => []
  | (k, _) :: t' =>
    (k, {| keywords := a; merchants := S a |}) :: number_from (S (S a)) t'
  end.

(** [CategoryConfig()] *)
Definition init : t :=
  let defaults := CategoryConfig.default_categories CategoryConfig.init in
  {| lists :=
       flat_map (fun kv => [CategoryConfig.keywords (snd kv);
                            CategoryConfig.merchants (snd kv)]) defaults;
     default_categories := number_from 0%nat defaults;
     custom_categories := [] |}.

Definition all_categories (self : t) : table :=
  table_merge (custom_categories self) (default_categories self).

Definition get_all_categories (self : t) : table :=
  table_merge (default_categories self) (custom_categories self).

(** The new dictionary holds the two lists it is given, not copies. *)
Definition add_custom_category (self : t) (name : str)
    (kws ms : ref) : t :=
  {| lists := lists self;
     default_categories := default_categories self;
     custom_categories :=
       table_set name {| keywords := kws; merchants := ms |}
                 (custom_categories self) |}.

(** [l.append(x)] on the list at address [a]. *)
Fixpoint append_at (a : ref) (x : str) (ls : list (list str))
    : list (list str) :=
  match ls, a with
  | [], _ => []
  | l :: ls', O => (l ++ [x]) :: ls'
  | l :: ls', S a' => l :: append_at a' x ls'
  end.

Definition add_keyword_to_category (self : t) (cat keyword : str) : t :=
  match table_get cat (default_categories self) with
  | Some r =>
    {| lists := append_at (keywords r) keyword (lists self);
       default_categories := default_categories self;
       custom_categories := custom_categories self |}
  | None =>
    match table_get cat (custom_categories self) with
    | Some r =>
      {| lists := append_at (keywords r) keyword (lists self);
         default_categories := default_categories self;
         custom_categories := custom_categories self |}
    | None => self
    end
  end.

Section Classifier.
Context (U : unicode_db).

Definition merchant_hit (self : t) (config : rule) (merchant : str) : bool :=
  existsb (fun merchant_pattern => contains (lower U merchant_pattern) merchant)
          (deref self (merchants config)).

Definition keyword_hit (self : t) (config : rule) (text merchant : str)
    : bool :=
  existsb (fun keyword =>
             let pattern := CategoryConfig.keyword_pattern U keyword in
             matched (re_search U false pattern text)
             || matched (re_search U false pattern merchant))
          (deref self (keywords config)).

Fixpoint rule_loop (self : t) (rules : table) (merchant text : str)
    : option str :=
  match rules with
  | [] => None
  | (cat, config) :: rules' =>
    if merchant_hit self config merchant then Some cat
    else if keyword_hit self config text merchant then Some cat
    else rule_loop self rules' merchant text
  end.

Definition categorize_receipt (self : t) (receipt_data : ReceiptData) : str :=
  if negb (CategoryConfig.truthy (merchant receipt_data))
     && negb (CategoryConfig.truthy (raw_text receipt_data))
  then py "Other"
  else
    let merchant :=
      lower U (CategoryConfig.or_empty (merchant receipt_data)) in
    let text := lower U (CategoryConfig.or_empty (raw_text receipt_data)) in
    match rule_loop self (all_categories self) merchant text with
    | Some cat => cat
    | None => py "Other"
    end.

End Classifier.

End CategoryStore.

(** ** [utils/file_handler.py] *)

Module FileHandler.

Definition SUPPORTED_EXTENSIONS : list str :=
  map py [".jpg"; ".jpeg"; ".png"; ".webp"; ".heic"; ".heif"]%string.

(** [s.rfind(c)] for a one-character [c]: the last index of [c], or -1. *)
Fixpoint rfind_from (c : codepoint) (s : str) (i : Z) : Z :=
  match s with
  | [] => (-1)%Z
  | x :: s' =>
    let r := rfind_from c s' (i + 1)%Z in
    if (0 <=? r)%Z then r else if x =? c then i else (-1)%Z
  end.

Definition rfind (c : codepoint) (s : str) : Z := rfind_from c s 0%Z.

(** [p[i:i+1]] for an index that is not negative. *)
Definition slice1 (p : str) (i : Z) : str := firstn 1 (skipn (Z.to_nat i) p).

(** The loop of [genericpath._splitext] over the leading dots of the last
    component: whether a character other than a dot stands between
    [filenameIndex] and [dotIndex]. *)
Fixpoint past_leading_dots (p : str) (filenameIndex dotIndex : Z)
    (fuel : nat) : bool :=
  match fuel with
  | O => false
  | S fuel' =>
    if (filenameIndex <? dotIndex)%Z then
      if negb (str_eqb (slice1 p filenameIndex) [46]) then true
      else past_leading_dots p (filenameIndex + 1)%Z dotIndex fuel'
    else false
  end.

(** [os.path.splitext(p)] of [posixpath]: the extension starts at the last
    dot, if that dot comes after the last slash and after a character of
    the last component that is not a dot. *)
Definition splitext (p : str) : str * str :=
  let sepIndex := rfind 47 p in
  let dotIndex := rfind 46 p in
  if (sepIndex <? dotIndex)%Z
     && past_leading_dots p (sepIndex + 1)%Z dotIndex
                          (Z.to_nat (dotIndex - (sepIndex + 1)))
  then (firstn (Z.to_nat dotIndex) p, skipn (Z.to_nat dotIndex) p)
  else (p, []).

(** [ext in self.SUPPORTED_EXTENSIONS] *)
Definition supported (ext : str) : bool :=
  existsb (fun e => str_eqb e ext) SUPPORTED_EXTENSIONS.

Definition is_valid_image (U : unicode_db) (filename : option str) : bool :=
  match filename with
  | Some (c :: name) => supported (snd (splitext (lower U (c :: name))))
  | _ => false
  end.

Definition get_file_size (file_content : bytes) : Z :=
  Z.of_nat (List.length file_content).

Definition is_file_size_valid (file_content : bytes) (max_size_mb : Z) : bool :=
  let max_size_bytes := (max_size_mb * 1024 * 1024)%Z in
  (get_file_size file_content <=? max_size_bytes)%Z.

End FileHandler.

(** ** [main.py] *)

Module Main.

(** An uploaded file: its name, if it has one, and what reading it gives. *)
Record UploadFile := {
  uf_filename : option str;
  uf_read : fallible bytes
}.

(** [f"{file.filename}"] *)
Definition format_filename (f : option str) : str :=
  match f with
  | Some name => name
  | None => py "None"
  end.

Section Upload.
Context (U : unicode_db) (R : rendering).
Context (text_detection : bytes -> fallible OCRService.vision_response).

(** The module-level [category_config]. *)
Context (category_config : CategoryConfig.t).

(** The body of the [try] for one file, up to the categorized receipt. *)
Definition process (file : UploadFile) : fallible ReceiptData :=
  if negb (FileHandler.is_valid_image U (uf_filename file))
  then Failed (HTTPException 400 (py "Invalid file type: "
                                  ++ format_filename (uf_filename file)))
  else
    match uf_read file with
    | Failed e => Failed e
    | Done file_content =>
      match OCRService.extract_receipt_data U R text_detection file_content with
      | Failed e => Failed e
      | Done extracted_data =>
        let category :=
          CategoryConfig.categorize_receipt U category_config extracted_data in
        Done (set_category extracted_data category)
      end
    end.

(** What the loop appends for one file.  An exception raised while the
    success record is built is caught like any other; one raised while the
    error record is built leaves the function. *)
Definition result_for (file : UploadFile) : fallible ProcessingResult :=
  let on_error (e : raised) :=
    ProcessingResult_new (uf_filename file) (py "error") None
                         (Some (str_of_raised R e)) in
  match process file with
  | Done extracted_data =>
    match ProcessingResult_new (uf_filename file) (py "success")
                               (Some extracted_data) None with
    | Done r => Done r
    | Failed e => on_error e
    end
  | Failed e => on_error e
  end.

Fixpoint upload_loop (files : list UploadFile) (results : list ProcessingResult)
    : fallible (list ProcessingResult) :=
  match files with
  | [] => Done results
  | file :: files' =>
    match result_for file with
    | Done r => upload_loop files' (results ++ [r])
    | Failed e => Failed e
    end
  end.

Definition upload_receipts (files : list UploadFile)
    : fallible (list ProcessingResult) :=
  upload_loop files [].

(** [GET /categories] *)
Definition get_categories : CategoryConfig.table :=
  CategoryConfig.get_all_categories category_config.

End Upload.

End Main.

(** ** Notions used by the statements *)

Import OCRService.

(** [ReceiptData(merchant=m, raw_text=t)] *)
Definition receipt_of (m t : option str) : ReceiptData :=
  {| date := None; merchant := m; category := None; amount := None;
     currency := None; items := []; raw_text := t; confidence := None |}.

(** The dictionary [{'amount': d, 'currency': c}]. *)
Definition amount_dict (d : Decimal) (c : str) : pydict :=
  [("amount"%string, PyDecimal d); ("currency"%string, PyStr c)].

(** The non-negative decimal [coefficient * 10^exponent]. *)
Definition dec (coefficient : N) (exponent : Z) : Decimal :=
  {| d_negative := false; d_coefficient := coefficient; d_exponent := exponent |}.

(** [ymd y m d] is [datetime(y, m, d)]. *)
Definition ymd (y m d : N) : datetime :=
  {| dt_year := y; dt_month := m; dt_day := d;
     dt_hour := 0; dt_minute := 0; dt_second := 0 |}.

(** A group name is set in a list of closed groups. *)
Definition has_group (name : string) (gs : list (string * str)) : Prop :=
  assoc name gs <> None.

(** [binds name r]: every way through [r] closes a group called [name]. *)
Fixpoint binds (name : string) (r : regex) : bool :=
  match r with
  | Group n r1 => String.eqb n name || binds name r1
  | Cat r1 r2 => binds name r1 || binds name r2
  | Alt r1 r2 => binds name r1 && binds name r2
  | _ => false
  end.

(** The result of the loop over the currency patterns: nothing, or a
    dictionary with both keys, whose currency is the tag of one of the
    patterns. *)
Definition pair_or_nothing (pats : list (regex * str)) (r : option pydict)
    : Prop :=
  match r with
  | None => True
  | Some d => exists a c, d = amount_dict a c /\ In c (map snd pats)
  end.

(** A string fails to parse under all six formats. *)
Definition all_formats_fail (U : unicode_db) (s : str) : Prop :=
  forall fmt, In fmt date_formats -> exists e, strptime U s fmt = Raise e.

(** The skip filters of merchant extraction as the specification lists
    them, on a trimmed line: the line survives when it is longer than 2
    characters, does not start like a date, holds no stop word, no dollar
    amount and no decimal number.  [merchant_loop_find] relates the nested
    tests of the code to it. *)
Definition merchant_survives (U : unicode_db) (line : str) : bool :=
  (2 <? len line)
  && negb (matched (re_match U false leading_date line))
  && negb (existsb (fun word => contains word (lower U line)) skip_words)
  && negb (matched (re_search U false dollar_amount line))
  && negb (matched (re_search U false decimal_number line)).

(** Merchant extraction in the words of the specification, not of the code:
    a window over the non-empty trimmed lines, giving the first survivor
    among the first 5 trimmed lines that are not empty.  It is compared
    with [_extract_merchant] below. *)
Definition merchant_as_specified (U : unicode_db) (text : str) : option str :=
  find (merchant_survives U)
       (firstn 5 (filter nonempty (map (strip U) (split_lines text)))).

(** A line on which the first pass of amount extraction stops: it contains
    "total" and not "subtotal", and one of the currency patterns yields a
    decimal on it. *)
Definition first_pass_hit (U : unicode_db) (line : str) : bool :=
  first_pass_cond (lower U line) &&
  match pattern_loop U currency_patterns line with
  | Return (Some _) => true
  | _ => false
  end.

Import CategoryConfig.

(** A table is a dictionary: no key occurs twice. *)
Definition table_wf (t : table) : Prop := NoDup (table_keys t).

Definition config_wf (self : CategoryConfig.t) : Prop :=
  table_wf (default_categories self) /\ table_wf (custom_categories self).

(** Lower-casing leaves every keyword and merchant of a table as written. *)
Definition rule_lowered (U : unicode_db) (r : rule) : Prop :=
  Forall (fun s => lower U s = s) (keywords r) /\
  Forall (fun s => lower U s = s) (merchants r).

Definition table_lowered (U : unicode_db) (t : table) : Prop :=
  Forall (fun kv => rule_lowered U (snd kv)) t.

(** The loop of [categorize_receipt] over a table whose strings are used as
    written. *)
Fixpoint rule_loop_as_written (U : unicode_db) (rules : table)
    (merchant text : str) : option str :=
  match rules with
  | [] => None
  | (cat, config) :: rules' =>
    if existsb (fun mp => contains mp merchant) (merchants config) then Some cat
    else if existsb (fun kw =>
                       let pattern := seq [WordB; literal kw; WordB] in
                       matched (re_search U false pattern text)
                       || matched (re_search U false pattern merchant))
                    (keywords config)
    then Some cat
    else rule_loop_as_written U rules' merchant text
  end.

(** A word boundary between the text passed (last character first) and the
    text ahead: exactly one of the two adjacent characters is a word
    character, the ends of the text counting as none. *)
Definition boundary (U : unicode_db) (before rest : str) : Prop :=
  xorb (word_at U before) (word_at U rest) = true.

(** [kw] stands in [text] as a whole token: somewhere it occurs with a word
    boundary before it and a word boundary after it. *)
Definition occurs_as_token (U : unicode_db) (kw text : str) : Prop :=
  exists pre post,
    text = pre ++ kw ++ post
    /\ boundary U (rev pre) (kw ++ post)
    /\ boundary U (rev kw ++ rev pre) post.

(** No group inside a pattern. *)
Fixpoint group_free (r : regex) : bool :=
  match r with
  | Group _ _ => false
  | Cat r1 r2 | Alt r1 r2 => group_free r1 && group_free r2
  | _ => true
  end.

(** What the capturing group of a currency pattern can hold: digits and
    commas, at least one; then at most one point; then decimal digits. *)
Definition number_text (U : unicode_db) (g : str) : Prop :=
  exists a b c,
    g = a ++ b ++ c
    /\ a <> []
    /\ forallb (fun x => in_range 48 57 x || (x =? 44)) a = true
    /\ (b = [] \/ b = [46])
    /\ forallb (isdecimal U) c = true.

(** [g] occurs in [s] as a contiguous piece. *)
Definition piece_of (g s : str) : Prop := exists pre post, s = pre ++ g ++ post.

(** The text a match attempt runs over, recovered from a state. *)
Definition whole (st : mstate) : str := rev (ms_before st) ++ ms_rest st.

(** A calendar date at midnight: what the [datetime] constructor accepts. *)
Definition valid_date (d : datetime) : Prop :=
  (1 <= dt_year d <= 9999)
  /\ (1 <= dt_month d <= 12)
  /\ (1 <= dt_day d <= days_in_month (dt_year d) (dt_month d))
  /\ dt_hour d = 0 /\ dt_minute d = 0 /\ dt_second d = 0.

(** The words that keep a line out of the items. *)
Definition item_stop_words : list str :=
  map py ["total"; "amount"; "合計"; "總計"]%string.

(** The test of the item loop on a trimmed line, with the regular
    expression of the code read as four substring tests. *)
Definition item_kept (U : unicode_db) (line : str) : bool :=
  (2 <? len line)
  && negb (matched (re_match U false leading_date line))
  && negb (existsb (fun w => contains w (lower U line)) item_stop_words).

(** A line on which a pass of amount extraction with line test [cond]
    stops. *)
Definition pass_hit (U : unicode_db) (cond : str -> bool) (line : str) : bool :=
  cond (lower U line) &&
  match pattern_loop U currency_patterns line with
  | Return (Some _) => true
  | _ => false
  end.

(** A rule fires on a lower-cased merchant and text: one of its merchant
    strings is in the merchant, or one of its keywords stands as a token in
    the text or in the merchant. *)
Definition rule_hits (U : unicode_db) (r : rule) (merchant text : str) : bool :=
  merchant_hit U r merchant || keyword_hit U r text merchant.

(** The lower-cased merchant and text [categorize_receipt] works on. *)
Definition merchant_of (U : unicode_db) (r : ReceiptData) : str :=
  lower U (or_empty (merchant r)).

Definition text_of (U : unicode_db) (r : ReceiptData) : str :=
  lower U (or_empty (raw_text r)).

(** A receipt with a merchant or a text, the others being classified
    "Other" without a look at the tables. *)
Definition classifiable (r : ReceiptData) : bool :=
  truthy (merchant r) || truthy (raw_text r).

(** A file name the upload accepts, lower-cased: its last path component
    ([base], after the last slash if there is one) holds a character other
    than a dot and is followed by one of the supported extensions. *)
Definition image_name (p : str) : Prop :=
  exists dir base ext,
    p = dir ++ base ++ ext
    /\ (dir = [] \/ exists d, dir = d ++ [47])
    /\ ~ In 47 base
    /\ (exists c, In c base /\ c <> 46)
    /\ In ext FileHandler.SUPPORTED_EXTENSIONS.

(** ASCII white space, line feed included. *)
Definition ascii_space (c : codepoint) : bool :=
  is_ascii c && (in_range 9 13 c || in_range 28 32 c).

(** [ReceiptData()], every field at its default. *)
Definition empty_receipt : ReceiptData :=
  {| date := None; merchant := None; category := None; amount := None;
     currency := None; items := []; raw_text := None; confidence := None |}.

(** The text [_extract_text] takes from an answer without error. *)
Definition first_text (response : vision_response) : str :=
  match text_annotations response with
  | description :: _ => description
  | [] => []
  end.

(** A label of the configuration: "Other" or the name of a category. *)
Definition known_label (self : CategoryConfig.t) (c : str) : Prop :=
  c = py "Other"
  \/ In c (table_keys (custom_categories self)
           ++ table_keys (default_categories self)).

(** The two shapes of a record of the upload: a success carries a receipt
    with its text and a label and no error; an error carries a message and
    no receipt. *)
Definition well_formed_result (self : CategoryConfig.t) (r : ProcessingResult)
    : Prop :=
  (status r = py "success" /\ error r = None
   /\ exists d c t, data r = Some d /\ category d = Some c
                   /\ known_label self c /\ raw_text d = Some t
                   /\ (List.length (items d) <= 10)%nat)
  \/ (status r = py "error" /\ data r = None /\ exists msg, error r = Some msg).

(** Instances for the examples: a runtime that prints an [HTTPException]
    as its detail, and a Vision service that finds the same text in every
    image. *)
Definition plain_rendering : rendering :=
  {| str_of_exn := fun _ => [];
     str_of_http := fun _ detail => detail;
     str_of_validation_error := [] |}.

Definition detect_always (description : str) (_ : bytes)
    : fallible vision_response :=
  Done {| error_message := []; text_annotations := [description] |}.

(** Two uploaded files, an image and a text file. *)
Definition sample_upload : list Main.UploadFile :=
  [ {| Main.uf_filename := Some (py "receipt.jpg"); Main.uf_read := Done [] |};
    {| Main.uf_filename := Some (py "notes.txt"); Main.uf_read := Done [] |} ].

Definition sample_text : str := py "STARBUCKS COFFEE\n2024-01-15\nTotal: $9.18".

(** The decimal digit of the units of [n], and numbers written with two and
    with four digits, zeros in front. *)
Definition digit (n : N) : codepoint := 48 + n mod 10.

Definition two_digits (n : N) : str := [digit (n / 10); digit n].

Definition four_digits (n : N) : str :=
  [digit (n / 1000); digit (n / 100); digit (n / 10); digit n].

(** A date written year first, as [2024-01-15] or [2024/01/15], and year
    last, as [15-01-2024] or [01/15/2024]; [s] is the separator. *)
Definition iso_text (s : codepoint) (y m d : N) : str :=
  four_digits y ++ s :: two_digits m ++ s :: two_digits d.

Definition dmy_text (s : codepoint) (a b y : N) : str :=
  two_digits a ++ s :: two_digits b ++ s :: four_digits y.

(** The first date pattern, the one with the year first, matches nowhere in
    the text. *)
Definition no_year_first_date (U : unicode_db) (text : str) : Prop :=
  re_search U false (nth 0 date_patterns Eps) text = None.

(** A run ends at [rest]: the text ends there, or goes on with a character
    outside the class. *)
Definition stops (ok : codepoint -> bool) (rest : str) : bool :=
  match rest with
  | [] => true
  | c :: _ => negb (ok c)
  end.

(** None of the three patterns with a currency code (NT, HK, US) matches in
    the line. *)
Definition no_currency_code (U : unicode_db) (line : str) : Prop :=
  Forall (fun pc => re_search U true (fst pc) line = None)
         (firstn 3 currency_patterns).

(** ASCII digits and commas, with at least one digit. *)
Definition amount_digits (U : unicode_db) (ds : str) : Prop :=
  forallb (fun c => in_range 48 57 c || (c =? 44)) ds = true
  /\ existsb (isdecimal U) ds = true.

(** What follows the digits of an amount: nothing, and then the text goes
    on with no digit, comma or point; or a point and digits, and then the
    text goes on with no digit. *)
Definition fraction (U : unicode_db) (frac post : str) : Prop :=
  (frac = []
   /\ stops (fun c => isdecimal U c || (c =? 44) || (c =? 46)) post = true)
  \/ (exists fs, frac = 46 :: fs /\ forallb (isdecimal U) fs = true
                 /\ stops (isdecimal U) post = true).

(** A receipt with a subtotal and a total in dollars. *)
Definition sample_totals : str := py "Subtotal: $8.50\nTotal: $1,234.50".

(** What it is for a rule to fire, said without the loops and the regular
    expression: one of its merchant strings, lower-cased, stands somewhere
    in the merchant, or one of its keywords, lower-cased, stands as a whole
    token in the text or in the merchant. *)
Definition fires (U : unicode_db) (config : rule) (merchant text : str) : Prop :=
  (exists mp, In mp (merchants config) /\ contains (lower U mp) merchant = true)
  \/ (exists kw, In kw (keywords config)
                 /\ (occurs_as_token U (lower U kw) text
                     \/ occurs_as_token U (lower U kw) merchant)).

(** The keywords of all the rules of a table. *)
Definition table_keywords (t : table) : list str :=
  flat_map (fun kv => keywords (snd kv)) t.

(** An ASCII letter, digit or underscore. *)
Definition ascii_word (c : codepoint) : bool :=
  in_range 48 57 c || in_range 65 90 c || in_range 97 122 c || (c =? 95).

(** Two custom categories, the first under the name of a default one. *)
Definition sample_customs : CategoryConfig.t :=
  add_custom_category
    (add_custom_category init (py "Food & Dining") [py "vet"] [])
    (py "Gym") [py "yoga"] [].

(** What a rule, a table and the two dictionaries hold when every address
    is replaced by the list that stands there. *)
Definition read_rule (self : CategoryStore.t) (r : CategoryStore.rule) : rule :=
  {| keywords := CategoryStore.deref self (CategoryStore.keywords r);
     merchants := CategoryStore.deref self (CategoryStore.merchants r) |}.

Definition read_table (self : CategoryStore.t) (tb : CategoryStore.table)
    : table :=
  map (fun kv => (fst kv, read_rule self (snd kv))) tb.

Definition view (self : CategoryStore.t) : CategoryConfig.t :=
  {| default_categories :=
       read_table self (CategoryStore.default_categories self);
     custom_categories :=
       read_table self (CategoryStore.custom_categories self) |}.

(** The entries of the two dictionaries. *)
Definition entries (self : CategoryStore.t) : CategoryStore.table :=
  CategoryStore.default_categories self ++ CategoryStore.custom_categories self.

(** A dictionary holds a name once, and every rule refers to lists that
    exist. *)
Definition store_wf (self : CategoryStore.t) : Prop :=
  NoDup (CategoryStore.table_keys (CategoryStore.default_categories self))
  /\ NoDup (CategoryStore.table_keys (CategoryStore.custom_categories self))
  /\ Forall (fun kv =>
               (CategoryStore.keywords (snd kv)
                < List.length (CategoryStore.lists self))%nat
               /\ (CategoryStore.merchants (snd kv)
                   < List.length (CategoryStore.lists self))%nat)
            (entries self).

(** The address of the list [add_keyword_to_category] appends to. *)
Definition keyword_list_of (self : CategoryStore.t) (cat : str)
    : option CategoryStore.ref :=
  match CategoryStore.table_get cat (CategoryStore.default_categories self) with
  | Some r => Some (CategoryStore.keywords r)
  | None =>
    option_map CategoryStore.keywords
      (CategoryStore.table_get cat (CategoryStore.custom_categories self))
  end.

(** A rule is reached by the keyword that went to the list at [a]: the list
    is its keyword list, or the list is its merchant list and the
    lower-cased keyword stands somewhere in the merchant. *)
Definition reached (U : unicode_db) (a : CategoryStore.ref)
    (keyword merchant : str) (r : CategoryStore.rule) : bool :=
  (Nat.eqb (CategoryStore.merchants r) a && contains (lower U keyword) merchant)
  || Nat.eqb (CategoryStore.keywords r) a.

(** The first name of a table whose rule is reached. *)
Fixpoint first_reached (U : unicode_db) (a : CategoryStore.ref)
    (keyword merchant : str) (tb : CategoryStore.table) : option str :=
  match tb with
  | [] => None
  | (k, r) :: tb' =>
    if reached U a keyword merchant r then Some k
    else first_reached U a keyword merchant tb'
  end.

(** The number of fields, over the rules of a table, that refer to the
    list at [a]. *)
Definition references_of (a : CategoryStore.ref) (r : CategoryStore.rule)
    : nat :=
  ((if Nat.eqb (CategoryStore.keywords r) a then 1 else 0)
   + (if Nat.eqb (CategoryStore.merchants r) a then 1 else 0))%nat.

Definition references (a : CategoryStore.ref) (tb : CategoryStore.table)
    : nat :=
  fold_right (fun kv n => (references_of a (snd kv) + n)%nat) 0%nat tb.

(** The rule with one more keyword, and the dictionaries in which the rule
    of a name (the default rule if the name is a default name, else the
    custom rule) is replaced by the rule with one more keyword. *)
Definition append_keyword (keyword : str) (r : rule) : rule :=
  {| keywords := keywords r ++ [keyword]; merchants := merchants r |}.

Definition with_keyword (self : CategoryConfig.t) (cat keyword : str)
    : CategoryConfig.t :=
  match table_get cat (default_categories self) with
  | Some r =>
    {| default_categories :=
         table_set cat (append_keyword keyword r) (default_categories self);
       custom_categories := custom_categories self |}
  | None =>
    match table_get cat (custom_categories self) with
    | Some r =>
      {| default_categories := default_categories self;
         custom_categories :=
           table_set cat (append_keyword keyword r) (custom_categories self) |}
    | None => self
    end
  end.

(** One list of the caller given twice: as the merchants of "Studio" and
    as the keywords of "Fitness"; and one given as both lists of
    "Sports". *)
Definition sample_shared : CategoryStore.t :=
  let (s1, l) := CategoryStore.new_list CategoryStore.init [] in
  let (s2, k) := CategoryStore.new_list s1 [py "rental"] in
  let (s3, m) := CategoryStore.new_list s2 [] in
  CategoryStore.add_custom_category
    (CategoryStore.add_custom_category s3 (py "Studio") k l)
    (py "Fitness") l m.

Definition sample_same_list : CategoryStore.t :=
  let (s, l) := CategoryStore.new_list CategoryStore.init [py "gym"] in
  CategoryStore.add_custom_category s (py "Sports") l l.

(** * Properties *)

(** ** The matcher closes the groups of the pattern *)

Lemma rep_greedy_continues {R} ok lo hi n before rest
    (k : str -> str -> option R) res :
  rep_greedy ok lo hi n before rest k = Some res ->
  exists b r, k b r = Some res.
Proof.
  revert n before. induction rest as [|c rest IH]; intros n before; simpl.
  - destruct (Nat.leb lo n); [eauto | discriminate].
  - destruct (ok c && below n hi).
    + destruct (rep_greedy ok lo hi (S n) (c :: before) rest k) eqn:E.
      * intros H; inversion H; subst. eapply IH; eauto.
      * destruct (Nat.leb lo n); [eauto | discriminate].
    + destruct (Nat.leb lo n); [eauto | discriminate].
Qed.

Lemma has_group_cons name n v gs :
  has_group name gs -> has_group name ((n, v) :: gs).
Proof.
  unfold has_group; simpl. destruct (String.eqb n name); [discriminate | auto].
Qed.

Lemma has_group_here name v gs : has_group name ((name, v) :: gs).
Proof.
  unfold has_group; simpl. rewrite String.eqb_refl. discriminate.
Qed.

Section MatcherGroups.
Context (U : unicode_db) (name : string).

Lemma rmatch_groups ic r : forall st k res,
  rmatch U ic r st k = Some res ->
  exists st1, k st1 = Some res
    /\ (has_group name (ms_groups st) -> has_group name (ms_groups st1))
    /\ (binds name r = true -> has_group name (ms_groups st1)).
Proof.
  induction r as [ | a | a lo hi | r1 IH1 r2 IH2 | r1 IH1 r2 IH2
                 | n r1 IH1 | | ]; intros st k res H; simpl in *.
  - exists st; repeat split; auto; discriminate.
  - destruct (ms_rest st) as [|c rest]; [discriminate|].
    destruct (atom_ok U ic a c); [|discriminate].
    eexists; split; [exact H|]; simpl; split; auto; discriminate.
  - apply rep_greedy_continues in H. destruct H as (b & rest & H).
    eexists; split; [exact H|]; simpl; split; auto; discriminate.
  - apply IH1 in H. destruct H as (st1 & H & K1 & B1).
    apply IH2 in H. destruct H as (st2 & H & K2 & B2).
    exists st2; split; [exact H|]; split; [auto|].
    intros B. apply orb_true_iff in B. destruct B; auto.
  - destruct (rmatch U ic r1 st k) eqn:E.
    + inversion H; subst. apply IH1 in E. destruct E as (st1 & E & K1 & B1).
      exists st1; split; [exact E|]; split; [auto|].
      intros B. apply andb_true_iff in B. tauto.
    + apply IH2 in H. destruct H as (st2 & H & K2 & B2).
      exists st2; split; [exact H|]; split; [auto|].
      intros B. apply andb_true_iff in B. tauto.
  - apply IH1 in H. destruct H as (st1 & H & K1 & B1).
    eexists; split; [exact H|]; simpl; split.
    + intros G. apply has_group_cons; auto.
    + intros B. apply orb_true_iff in B. destruct B as [B|B].
      * apply String.eqb_eq in B; subst. apply has_group_here.
      * apply has_group_cons; auto.
  - destruct (ms_before st); [|discriminate].
    exists st; repeat split; auto; discriminate.
  - destruct (xorb _ _); [|discriminate].
    exists st; repeat split; auto; discriminate.
Qed.

Lemma match_at_group ic r before rest m :
  binds name r = true ->
  match_at U ic r before rest = Some m ->
  group name m <> None.
Proof.
  unfold match_at. intros B H.
  destruct (rmatch U ic r _ Some) as [st'|] eqn:E; [|discriminate].
  inversion H; subst; clear H. unfold group; simpl.
  apply rmatch_groups in E. destruct E as (st1 & E & _ & G).
  inversion E; subst. apply G, B.
Qed.

Lemma re_search_group ic r s m :
  binds name r = true ->
  re_search U ic r s = Some m ->
  group name m <> None.
Proof.
  unfold re_search. intros B. generalize (@nil codepoint) as before.
  induction s as [|c s IH]; intros before; simpl.
  - destruct (match_at U ic r before []) eqn:E; [|discriminate].
    intros H; inversion H; subst. eapply match_at_group; eauto.
  - destruct (match_at U ic r before (c :: s)) eqn:E.
    + intros H; inversion H; subst. eapply match_at_group; eauto.
    + apply IH.
Qed.

End MatcherGroups.

(** ** What reaches [Decimal]

    The model of the [Decimal] constructor covers digits with at most one
    point.  The lemmas below show that nothing else reaches it: the group
    of a currency pattern holds a [number_text], and on a [number_text]
    without its commas the constructor fails only for want of a digit. *)

Lemma rep_greedy_taken {R} ok lo hi n before rest
    (k : str -> str -> option R) res :
  rep_greedy ok lo hi n before rest k = Some res ->
  exists taken rest',
    rest = taken ++ rest'
    /\ forallb ok taken = true
    /\ (lo <= n + List.length taken)%nat
    /\ (match hi with
        | Some h => List.length taken <= h - n
        | None => True
        end)%nat
    /\ k (rev taken ++ before) rest' = Some res.
Proof.
  revert n before. induction rest as [|c rest IH]; intros n before; simpl.
  - destruct (Nat.leb_spec lo n) as [Hle|Hgt]; [|discriminate]. intros H.
    exists [], []. simpl. repeat split; auto; [lia | destruct hi; lia].
  - assert (Stop : (if Nat.leb lo n then k before (c :: rest) else None)
                   = Some res ->
                   exists taken rest',
                     c :: rest = taken ++ rest'
                     /\ forallb ok taken = true
                     /\ (lo <= n + List.length taken)%nat
                     /\ (match hi with
                         | Some h => List.length taken <= h - n
                         | None => True
                         end)%nat
                     /\ k (rev taken ++ before) rest' = Some res).
    { destruct (Nat.leb_spec lo n) as [Hle|Hgt]; [|discriminate]. intros H.
      exists [], (c :: rest). simpl. repeat split; auto; [lia | destruct hi; lia]. }
    destruct (ok c) eqn:Ok; cbn [andb]; [|exact Stop].
    destruct (below n hi) eqn:Bl; [|exact Stop].
    destruct (rep_greedy ok lo hi (S n) (c :: before) rest k) eqn:E;
      [|exact Stop].
    intros H; inversion H; subst; clear H.
    apply IH in E. destruct E as (taken & rest' & -> & F & L & Hh & K).
    exists (c :: taken), rest'. simpl. rewrite Ok, F, <- app_assoc.
    repeat split; auto; [lia|].
    destruct hi as [h|]; [|exact I]. simpl in Bl.
    apply PeanoNat.Nat.ltb_lt in Bl. lia.
Qed.

Lemma rev_firstn_consumed (taken before : str) :
  rev (firstn (List.length (rev taken ++ before) - List.length before)
              (rev taken ++ before)) = taken.
Proof.
  rewrite length_app, PeanoNat.Nat.add_sub.
  rewrite firstn_app, PeanoNat.Nat.sub_diag, firstn_all. simpl.
  rewrite app_nil_r. apply rev_involutive.
Qed.

Section CurrencyGroup.
Context (U : unicode_db).

Lemma point_only ic x : atom_ok U ic (a_chr ".") x = true -> x = 46.
Proof.
  change (a_chr ".") with (Chr 46). cbn [atom_ok].
  destruct ic; [|apply N.eqb_eq].
  unfold ci_eq. intros H. apply orb_true_iff in H. destruct H as [H|H];
    [apply N.eqb_eq; exact H|].
  destruct (is_ascii x) eqn:A.
  - cbn [andb is_ascii] in H. change (46 <? 128) with true in H. cbn [andb] in H.
    apply N.eqb_eq in H. change (ascii_lower 46) with 46 in H.
    unfold ascii_lower, in_range in H.
    destruct ((65 <=? x) && (x <=? 90)) eqn:R; [|exact H].
    apply andb_true_iff in R. destruct R as [R1 R2].
    apply N.leb_le in R1. lia.
  - discriminate.
Qed.

Lemma rmatch_number_group ic st k res :
  rmatch U ic number_group st k = Some res ->
  exists g st1,
    k st1 = Some res
    /\ ms_groups st1 = ("1"%string, g) :: ms_groups st
    /\ number_text U g.
Proof.
  unfold number_group, seq, plus, opt, star.
  cbn [fold_right rmatch ms_before ms_rest ms_groups]. intros H.
  apply rep_greedy_taken in H.
  destruct H as (a & r1 & E1 & Fa & La & _ & H).
  apply rep_greedy_taken in H.
  destruct H as (b & r2 & E2 & Fb & _ & Lb & H).
  apply rep_greedy_taken in H.
  destruct H as (c & r3 & E3 & Fc & _ & _ & H).
  eexists _, _. split; [exact H|]. cbn [ms_groups]. split; [reflexivity|].
  unfold consumed. cbn [ms_before].
  replace (rev c ++ rev b ++ rev a ++ ms_before st)
    with (rev (a ++ b ++ c) ++ ms_before st)
    by (rewrite !rev_app_distr, <- !app_assoc; reflexivity).
  rewrite rev_firstn_consumed.
  exists a, b, c. split; [reflexivity|]. split.
  { destruct a; [simpl in La; lia | discriminate]. }
  split.
  { apply forallb_forall. intros x Hx.
    rewrite forallb_forall in Fa. specialize (Fa x Hx).
    cbn [atom_ok charset_has existsb fst snd] in Fa.
    destruct (in_range 48 57 x); [reflexivity|]. cbn [orb] in *.
    rewrite orb_false_r in Fa. unfold in_range in Fa.
    apply andb_true_iff in Fa. destruct Fa as [F1 F2].
    apply N.leb_le in F1, F2. apply N.eqb_eq. lia. }
  split; [|exact Fc].
  destruct b as [|x [|y b]]; [left; reflexivity | right | simpl in Lb; lia].
  cbn [forallb] in Fb. apply andb_true_iff in Fb. destruct Fb as [Fx _].
  apply point_only in Fx. subst x. reflexivity.
Qed.

Lemma rmatch_group_free ic r : forall st k res,
  group_free r = true ->
  rmatch U ic r st k = Some res ->
  exists st1, k st1 = Some res /\ ms_groups st1 = ms_groups st.
Proof.
  induction r as [ | a | a lo hi | r1 IH1 r2 IH2 | r1 IH1 r2 IH2
                 | n r1 IH1 | | ]; intros st k res F H; simpl in *.
  - eauto.
  - destruct (ms_rest st) as [|c rest]; [discriminate|].
    destruct (atom_ok U ic a c); [|discriminate]. eauto.
  - apply rep_greedy_continues in H. destruct H as (b & rest & H). eauto.
  - apply andb_true_iff in F. destruct F as [F1 F2].
    apply IH1 in H; [|exact F1]. destruct H as (st1 & H & G1).
    apply IH2 in H; [|exact F2]. destruct H as (st2 & H & G2).
    exists st2. split; [exact H | congruence].
  - apply andb_true_iff in F. destruct F as [F1 F2].
    destruct (rmatch U ic r1 st k) eqn:E.
    + inversion H; subst. eapply IH1; eauto.
    + eapply IH2; eauto.
  - discriminate.
  - destruct (ms_before st); [eauto|discriminate].
  - destruct (xorb _ _); [eauto|discriminate].
Qed.

(** A pattern made of group-free pieces around the number group. *)
Lemma rmatch_around_number_group ic pre suf : forall st res,
  forallb group_free pre = true ->
  forallb group_free suf = true ->
  rmatch U ic (seq (pre ++ number_group :: suf)) st Some = Some res ->
  exists g, ms_groups res = ("1"%string, g) :: ms_groups st /\ number_text U g.
Proof.
  intros st res Fp Fs.
  assert (Suf : forall st1 res1,
             rmatch U ic (seq suf) st1 Some = Some res1 ->
             ms_groups res1 = ms_groups st1).
  { clear Fp. induction suf as [|r suf IHs]; intros st1 res1 H.
    - simpl in H. inversion H; reflexivity.
    - cbn [forallb] in Fs. apply andb_true_iff in Fs. destruct Fs as [Fr Fs].
      change (seq (r :: suf)) with (Cat r (seq suf)) in H. cbn [rmatch] in H.
      apply rmatch_group_free in H; [|exact Fr].
      destruct H as (st2 & H & G). rewrite <- G. apply IHs; assumption. }
  revert st. induction pre as [|r pre IHp]; intros st H.
  - change (seq ([] ++ number_group :: suf))
      with (Cat number_group (seq suf)) in H. cbn [rmatch] in H.
    apply rmatch_number_group in H. destruct H as (g & st1 & H & G & T).
    exists g. split; [|exact T]. rewrite <- G. apply Suf; exact H.
  - cbn [forallb] in Fp. apply andb_true_iff in Fp. destruct Fp as [Fr Fp].
    change (seq ((r :: pre) ++ number_group :: suf))
      with (Cat r (seq (pre ++ number_group :: suf))) in H. cbn [rmatch] in H.
    apply rmatch_group_free in H; [|exact Fr].
    destruct H as (st1 & H & G). rewrite <- G. apply IHp; assumption.
Qed.

Lemma search_from_inv ic r : forall rest before m,
  search_from U ic r before rest = Some m ->
  exists b' r', match_at U ic r b' r' = Some m /\ (r' = [] \/ List.length r' <= List.length rest)%nat.
Proof.
  induction rest as [|c rest IH]; intros before m; cbn [search_from].
  - destruct (match_at U ic r before _) eqn:E; [|discriminate].
    intros H; inversion H; subst. eauto.
  - destruct (match_at U ic r before _) eqn:E.
    + intros H; inversion H; subst. eexists _, _. split; [exact E|].
      right. lia.
    + intros H. apply IH in H. destruct H as (b' & r' & H & L).
      eexists _, _. split; [exact H|]. simpl. destruct L; [auto|right; lia].
Qed.

(** The group of every currency pattern holds a number text. *)
Lemma currency_group_is_number_text p c s m :
  In (p, c) currency_patterns ->
  re_search U true p s = Some m ->
  exists g, group "1" m = Some g /\ number_text U g.
Proof.
  intros Hin H. unfold re_search in H. apply search_from_inv in H.
  destruct H as (b' & r' & H & _). unfold match_at in H.
  destruct (rmatch U true p _ Some) as [res|] eqn:E; [|discriminate].
  inversion H; subst m; clear H. unfold group. cbn [m_groups].
  assert (G : exists g, ms_groups res = [("1"%string, g)] /\ number_text U g).
  { unfold currency_patterns in Hin. cbn [In] in Hin.
    destruct Hin as [Hin|[Hin|[Hin|[Hin|[Hin|[]]]]]];
      inversion Hin; subst p c; clear Hin.
    - apply (rmatch_around_number_group true
               [One (a_chr "N"); One (a_chr "T"); opt (a_chr "$"); star a_space]
               []) in E; auto.
    - apply (rmatch_around_number_group true
               [One (a_chr "H"); One (a_chr "K"); opt (a_chr "$"); star a_space]
               []) in E; auto.
    - apply (rmatch_around_number_group true
               [One (a_chr "U"); One (a_chr "S"); opt (a_chr "$"); star a_space]
               []) in E; auto.
    - apply (rmatch_around_number_group true
               [One (a_chr "$"); star a_space] []) in E; auto.
    - apply (rmatch_around_number_group true []
               [star a_space; One (a_chr "元")]) in E; auto. }
  destruct G as (g & -> & T). exists g. split; [reflexivity | exact T].
Qed.

Lemma span_digits_all isd l rest :
  forallb isd l = true ->
  match rest with [] => True | x :: _ => isd x = false end ->
  span_digits isd (l ++ rest) = (l, rest).
Proof.
  intros F R. induction l as [|x l IH]; simpl.
  - destruct rest as [|y rest]; [reflexivity|]. simpl. rewrite R. reflexivity.
  - cbn [forallb] in F. apply andb_true_iff in F. destruct F as [Fx F].
    rewrite Fx, (IH F). reflexivity.
Qed.

Lemma decimal_is_no_comma x : isdecimal U x = true -> negb (x =? 44) = true.
Proof.
  intros H. destruct (x =? 44) eqn:E; [|reflexivity].
  apply N.eqb_eq in E; subst x. discriminate H.
Qed.

Lemma remove_commas_app (x y : str) :
  remove_commas (x ++ y) = remove_commas x ++ remove_commas y.
Proof. apply filter_app. Qed.

Lemma remove_commas_digits c :
  forallb (isdecimal U) c = true -> remove_commas c = c.
Proof.
  unfold remove_commas. induction c as [|x c IH]; simpl; [reflexivity|].
  intros F. apply andb_true_iff in F. destruct F as [Fx F].
  rewrite (decimal_is_no_comma x Fx), (IH F). reflexivity.
Qed.

Lemma remove_commas_number_part a :
  forallb (fun x => in_range 48 57 x || (x =? 44)) a = true ->
  forallb (isdecimal U) (remove_commas a) = true
  /\ existsb (isdecimal U) a = nonempty (remove_commas a).
Proof.
  unfold remove_commas. induction a as [|x a IH]; simpl; [auto|].
  intros F. apply andb_true_iff in F. destruct F as [Fx F].
  destruct (IH F) as [IH1 IH2]. destruct (x =? 44) eqn:E; cbn [negb].
  - apply N.eqb_eq in E; subst x. split; [exact IH1|]. rewrite <- IH2. reflexivity.
  - rewrite orb_false_r in Fx. cbn [forallb nonempty].
    assert (D : isdecimal U x = true).
    { unfold isdecimal, is_ascii. unfold in_range in Fx.
      apply andb_true_iff in Fx. destruct Fx as [F1 F2].
      apply N.leb_le in F2.
      assert (A : (x <? 128) = true) by (apply N.ltb_lt; lia). rewrite A.
      unfold in_range. rewrite F1. apply N.leb_le in F2. rewrite F2. reflexivity. }
    rewrite D, IH1. auto.
Qed.

Lemma existsb_all_digits c :
  forallb (isdecimal U) c = true -> existsb (isdecimal U) c = nonempty c.
Proof.
  destruct c as [|x c]; [reflexivity|]. simpl. intros F.
  apply andb_true_iff in F. destruct F as [-> _]. reflexivity.
Qed.

(** On a number text the constructor returns a decimal exactly when the
    text holds a digit: it is never refused for its syntax. *)
Lemma Decimal_of_number_text g :
  number_text U g ->
  (exists d, Decimal_of_str U (remove_commas g) = Return d)
  <-> existsb (isdecimal U) g = true.
Proof.
  intros (a & b & c & -> & _ & Fa & Hb & Fc).
  destruct (remove_commas_number_part a Fa) as [Fa' Ea].
  assert (Rm : remove_commas (a ++ b ++ c) = remove_commas a ++ b ++ c).
  { rewrite !remove_commas_app, (remove_commas_digits c Fc).
    destruct Hb as [->| ->]; reflexivity. }
  assert (Ex : existsb (isdecimal U) (a ++ b ++ c)
               = nonempty (remove_commas a) || nonempty c).
  { rewrite !existsb_app, Ea, (existsb_all_digits c Fc).
    destruct Hb as [->| ->]; reflexivity. }
  rewrite Rm, Ex. unfold Decimal_of_str.
  destruct Hb as [->| ->].
  - cbn [app]. rewrite <- (app_nil_r (remove_commas a ++ c)).
    rewrite span_digits_all; [| rewrite forallb_app, Fa', Fc; reflexivity | exact I].
    replace (nonempty (remove_commas a ++ c))
      with (nonempty (remove_commas a) || nonempty c)
      by (destruct (remove_commas a); reflexivity).
    destruct (nonempty (remove_commas a) || nonempty c).
    + split; eauto.
    + split; [intros (d & H); discriminate | discriminate].
  - cbn [app]. rewrite span_digits_all; [| exact Fa' | reflexivity].
    rewrite N.eqb_refl, Fc. cbn [andb].
    destruct (nonempty (remove_commas a) || nonempty c).
    + split; eauto.
    + split; [intros (d & H); discriminate | discriminate].
Qed.

End CurrencyGroup.

(** ** No extractor raises *)

Section Totality.
Context (U : unicode_db).

Lemma date_loop_returns ps text :
  exists r, date_loop U ps text = Return r.
Proof.
  induction ps as [|p ps IH]; cbn [date_loop]; [eauto|].
  destruct (re_search U false p text); [|exact IH].
  destruct (try_formats U (m_group0 m) date_formats) as [[d|]|e]; eauto.
Qed.

Lemma currency_patterns_bind :
  Forall (fun pc => binds "1" (fst pc) = true) currency_patterns.
Proof. repeat constructor. Qed.

Lemma pattern_loop_returns pats s :
  Forall (fun pc => binds "1" (fst pc) = true) pats ->
  exists r, pattern_loop U pats s = Return r /\ pair_or_nothing pats r.
Proof.
  induction 1 as [|[p c] pats B _ IH]; cbn [pattern_loop].
  - exists None; split; [reflexivity | exact I].
  - cbn [fst] in B.
    assert (Next : exists r, pattern_loop U pats s = Return r
                             /\ pair_or_nothing ((p, c) :: pats) r).
    { destruct IH as (r & E & P). exists r; split; [exact E|].
      destruct r as [d|]; [|exact I].
      destruct P as (a & c' & -> & Hin). exists a, c'; simpl; auto. }
    destruct (re_search U true p s) as [m|] eqn:E; [|exact Next].
    destruct (group "1" m) as [g|] eqn:G.
    + destruct (Decimal_of_str U (remove_commas g)) as [a|e]; [|exact Next].
      eexists; split; [reflexivity|]. exists a, c; simpl; auto.
    + exfalso. eapply (re_search_group U "1"); eauto.
Qed.

Lemma line_loop_returns cond lines :
  exists r, line_loop U cond lines = Return r
            /\ pair_or_nothing currency_patterns r.
Proof.
  induction lines as [|line lines IH]; cbn [line_loop].
  - exists None; split; [reflexivity | exact I].
  - destruct (cond (lower U line)); [|exact IH].
    destruct (pattern_loop_returns currency_patterns line
                currency_patterns_bind) as (r & -> & P); cbn [bind].
    destruct r as [d|]; [|exact IH].
    exists (Some d); split; [reflexivity | exact P].
Qed.

Lemma extract_amount_returns text :
  exists d, _extract_amount_and_currency U text = Return d
            /\ pair_or_nothing currency_patterns
                 (match d with [] => None | _ :: _ => Some d end).
Proof.
  unfold _extract_amount_and_currency.
  destruct (line_loop_returns first_pass_cond (split_lines text))
    as (r1 & -> & P1); cbn [bind].
  destruct r1 as [d|].
  { exists d; split; [reflexivity|].
    destruct P1 as (a & c & -> & Hin); exists a, c; auto. }
  destruct (line_loop_returns second_pass_cond (split_lines text))
    as (r2 & -> & P2); cbn [bind].
  destruct r2 as [d|].
  { exists d; split; [reflexivity|].
    destruct P2 as (a & c & -> & Hin); exists a, c; auto. }
  destruct (pattern_loop_returns currency_patterns text
              currency_patterns_bind) as (r3 & -> & P3); cbn [bind].
  destruct r3 as [d|].
  { exists d; split; [reflexivity|].
    destruct P3 as (a & c & -> & Hin); exists a, c; auto. }
  exists []; split; [reflexivity | exact I].
Qed.

Lemma parse_receipt_text_returns text :
  exists d info,
    _extract_date U text = Return d
    /\ _extract_amount_and_currency U text = Return info
    /\ _parse_receipt_text U text =
       Return {| date := d;
                 merchant := _extract_merchant U text;
                 category := None;
                 amount := dict_get "amount" info;
                 currency := dict_get "currency" info;
                 items := _extract_items U text;
                 raw_text := None;
                 confidence := None |}.
Proof.
  destruct (date_loop_returns date_patterns text) as (d & Ed).
  destruct (extract_amount_returns text) as (info & Ei & _).
  exists d, info. unfold _parse_receipt_text, _extract_date.
  rewrite Ed; cbn [bind]. rewrite Ei; cbn [bind]. auto.
Qed.

(** C4: for every input text, interpretation returns a receipt (no
    exception leaves [_parse_receipt_text]; as a function of the text it
    is total), and the receipt has at most 10 items. *)
Theorem interpret_returns_at_most_10_items text :
  exists r, _parse_receipt_text U text = Return r
            /\ (List.length (items r) <= 10)%nat.
Proof.
  destruct (parse_receipt_text_returns text) as (d & info & _ & _ & E).
  eexists; split; [exact E|]; simpl.
  unfold _extract_items. apply firstn_le_length.
Qed.

(** C5: for every input text, the receipt interpretation returns has
    [amount] and [currency] both absent, or both present: then the amount
    is a decimal and the currency one of NTD, HKD and USD. *)
Theorem amount_and_currency_paired text :
  exists r, _parse_receipt_text U text = Return r
    /\ ((amount r = None /\ currency r = None)
        \/ exists a c, amount r = Some (PyDecimal a)
                       /\ currency r = Some (PyStr c)
                       /\ In c [py "NTD"; py "HKD"; py "USD"]).
Proof.
  destruct (parse_receipt_text_returns text) as (d & info & _ & Ei & E).
  eexists; split; [exact E|]; simpl.
  destruct (extract_amount_returns text) as (info' & Ei' & P).
  rewrite Ei in Ei'; inversion Ei'; subst info'; clear Ei'.
  destruct info as [|kv info]; [left; split; reflexivity|].
  destruct P as (a & c & -> & Hin). right. exists a, c.
  repeat split; try reflexivity.
  simpl in Hin. simpl. intuition.
Qed.

End Totality.

(** ** Date extraction goes through every pattern class *)

Section DateExtraction.
Context (U : unicode_db).

Lemma strptime_raises_ValueError s fmt e :
  strptime U s fmt = Raise e -> e = ValueError.
Proof.
  unfold strptime, make_datetime.
  destruct (format_regex fmt); [|congruence].
  destruct (re_match U true _ s); [|congruence].
  destruct (negb _); [congruence|].
  match goal with |- context [if ?c then _ else _] => destruct c end;
    congruence.
Qed.

Lemma try_formats_exhausted s fmts :
  (forall fmt, In fmt fmts -> exists e, strptime U s fmt = Raise e) ->
  try_formats U s fmts = Return None.
Proof.
  induction fmts as [|fmt fmts IH]; intros H; cbn [try_formats]; [reflexivity|].
  destruct (H fmt (or_introl eq_refl)) as (e & E). rewrite E.
  apply strptime_raises_ValueError in E; subst e.
  apply IH. intros f Hf. apply H. right; exact Hf.
Qed.

Lemma try_formats_None s fmts :
  try_formats U s fmts = Return None ->
  forall fmt, In fmt fmts -> exists e, strptime U s fmt = Raise e.
Proof.
  induction fmts as [|fmt fmts IH]; cbn [try_formats]; intros H f Hf;
    [destruct Hf|].
  destruct (strptime U s fmt) as [d|e] eqn:E; [discriminate|].
  destruct Hf as [<-|Hf]; [eauto|].
  destruct e; try discriminate. apply IH; assumption.
Qed.

Lemma try_formats_no_raise s fmts e : try_formats U s fmts <> Raise e.
Proof.
  induction fmts as [|fmt fmts IH]; cbn [try_formats]; [discriminate|].
  destruct (strptime U s fmt) as [d|e'] eqn:E; [discriminate|].
  apply strptime_raises_ValueError in E; subst e'. exact IH.
Qed.

(** The loop over patterns returns absent exactly when every pattern
    either finds nothing or finds a string that fails all six formats. *)
Lemma date_loop_None ps text :
  date_loop U ps text = Return None <->
  (forall p m, In p ps -> re_search U false p text = Some m ->
               all_formats_fail U (m_group0 m)).
Proof.
  induction ps as [|p ps IH]; cbn [date_loop].
  - split; [intros _ p m []|reflexivity].
  - destruct (re_search U false p text) as [m|] eqn:E.
    + destruct (try_formats U (m_group0 m) date_formats) as [[d|]|e] eqn:T.
      * split; [discriminate|]. intros H.
        pose proof (try_formats_exhausted _ _ (H p m (or_introl eq_refl) E)).
        congruence.
      * rewrite IH. split.
        -- intros H q mq [<-|Hq] Eq.
           ++ rewrite E in Eq; inversion Eq; subst mq.
              exact (try_formats_None _ _ T).
           ++ eapply H; eauto.
        -- intros H q mq Hq. apply H. right; exact Hq.
      * exfalso. exact (try_formats_no_raise _ _ _ T).
    + rewrite IH. split.
      * intros H q mq [<-|Hq] Eq; [congruence | eapply H; eauto].
      * intros H q mq Hq. apply H. right; exact Hq.
Qed.

(** C1, as amended: when the first pattern class matches in the text but
    the matched string fails all six formats, date extraction goes on
    with the two later pattern classes and returns what they give; the
    result is then absent exactly when each later class finds nothing or
    finds a string that fails all six formats. *)
Theorem extract_date_falls_back text m :
  re_search U false (nth 0 date_patterns Eps) text = Some m ->
  all_formats_fail U (m_group0 m) ->
  _extract_date U text = date_loop U (tl date_patterns) text
  /\ (_extract_date U text = Return None <->
      forall p m', In p (tl date_patterns) ->
                   re_search U false p text = Some m' ->
                   all_formats_fail U (m_group0 m')).
Proof.
  intros E F.
  assert (Eq : _extract_date U text = date_loop U (tl date_patterns) text).
  { unfold _extract_date, date_patterns. cbn [date_loop tl].
    cbn [nth date_patterns] in E. rewrite E.
    rewrite (try_formats_exhausted _ _ F). reflexivity. }
  split; [exact Eq|]. rewrite Eq. apply date_loop_None.
Qed.

End DateExtraction.

(** ** Merchant extraction looks at the first five lines *)

Lemma find_first {A} (f : A -> bool) (l : list A) :
  match find f l with
  | Some x =>
    exists i, nth_error l i = Some x /\ f x = true
              /\ forall j y, (j < i)%nat -> nth_error l j = Some y -> f y = false
  | None => forall i y, nth_error l i = Some y -> f y = false
  end.
Proof.
  induction l as [|a l IH]; simpl.
  - intros [|i] y; discriminate.
  - destruct (f a) eqn:Fa.
    + exists 0%nat; repeat split; auto. intros j y Hj; inversion Hj.
    + destruct (find f l) as [x|].
      * destruct IH as (i & Hi & Fx & Hlt). exists (S i); repeat split; auto.
        intros [|j] y Hj Hy; simpl in Hy.
        -- inversion Hy; subst; exact Fa.
        -- apply (Hlt j); [apply PeanoNat.Nat.succ_lt_mono|]; assumption.
      * intros [|i] y Hy; simpl in Hy.
        -- inversion Hy; subst; exact Fa.
        -- eapply IH; eauto.
Qed.

Section MerchantExtraction.
Context (U : unicode_db).

Lemma merchant_loop_find lines :
  merchant_loop U lines = find (merchant_survives U) (map (strip U) lines).
Proof.
  induction lines as [|line lines IH]; cbn [merchant_loop map find];
    [reflexivity|].
  unfold merchant_survives at 1. rewrite IH.
  destruct (2 <? len (strip U line)); cbn [andb]; [|reflexivity].
  destruct (matched (re_match U false leading_date (strip U line)));
    cbn [andb negb]; [reflexivity|].
  destruct (existsb _ skip_words); cbn [andb negb]; [reflexivity|].
  destruct (matched (re_search U false dollar_amount (strip U line)));
    cbn [andb negb]; [reflexivity|].
  destruct (matched (re_search U false decimal_number (strip U line)));
    reflexivity.
Qed.

Lemma nth_error_window (lines : list str) i x :
  nth_error (map (strip U) (firstn 5 lines)) i = Some x <->
  (i < 5)%nat /\ exists raw, nth_error lines i = Some raw /\ x = strip U raw.
Proof.
  rewrite nth_error_map, nth_error_firstn.
  destruct (PeanoNat.Nat.ltb_spec i 5) as [Hlt|Hge].
  - destruct (nth_error lines i) as [raw|]; simpl; split.
    + intros H; inversion H; eauto.
    + intros (_ & raw' & H & ->). inversion H; reflexivity.
    + discriminate.
    + intros (_ & raw' & H & _); discriminate.
  - simpl; split; [discriminate|]. intros (Hlt & _). lia.
Qed.

(** C3, as amended: merchant extraction inspects the first 5 lines of the
    text, blank ones included, each trimmed, in order.  It returns the
    first of them that survives all skip filters, as trimmed, and absent
    if none of the five survives. *)
Theorem merchant_is_first_survivor_of_first_5_lines text :
  match _extract_merchant U text with
  | Some m =>
    exists i raw,
      (i < 5)%nat /\ nth_error (split_lines text) i = Some raw
      /\ m = strip U raw /\ merchant_survives U m = true
      /\ forall j raw', (j < i)%nat ->
           nth_error (split_lines text) j = Some raw' ->
           merchant_survives U (strip U raw') = false
  | None =>
    forall i raw, (i < 5)%nat ->
      nth_error (split_lines text) i = Some raw ->
      merchant_survives U (strip U raw) = false
  end.
Proof.
  unfold _extract_merchant. rewrite merchant_loop_find.
  pose proof (find_first (merchant_survives U)
                (map (strip U) (firstn 5 (split_lines text)))) as H.
  destruct (find _ _) as [m|].
  - destruct H as (i & Hi & Sm & Hlt).
    apply nth_error_window in Hi. destruct Hi as (Hi & raw & Hraw & ->).
    exists i, raw; repeat split; auto.
    intros j raw' Hj Hraw'. apply (Hlt j); [exact Hj|].
    apply nth_error_window. split; [lia|eauto].
  - intros i raw Hi Hraw. apply (H i). apply nth_error_window. eauto.
Qed.

End MerchantExtraction.

(** ** Amount extraction: passes and pattern priority *)

Section AmountExtraction.
Context (U : unicode_db).

(** A pass goes over the lines on which it does not stop. *)
Lemma line_loop_skip cond pre rest :
  Forall (fun l => cond (lower U l) = false
                   \/ pattern_loop U currency_patterns l = Return None) pre ->
  line_loop U cond (pre ++ rest) = line_loop U cond rest.
Proof.
  induction 1 as [|l pre Hl _ IH]; [reflexivity|].
  cbn [app line_loop].
  destruct (cond (lower U l)); [|exact IH].
  destruct Hl as [Hl|Hl]; [discriminate|]. rewrite Hl. exact IH.
Qed.

Lemma first_pass_hit_false l :
  first_pass_hit U l = false ->
  first_pass_cond (lower U l) = false
  \/ pattern_loop U currency_patterns l = Return None.
Proof.
  unfold first_pass_hit. intros H.
  destruct (first_pass_cond (lower U l)); [right|left; reflexivity].
  destruct (pattern_loop_returns U currency_patterns l
              currency_patterns_bind) as (r & E & _).
  rewrite E in *. destruct r; [discriminate|reflexivity].
Qed.

Lemma total_line_hit :
  first_pass_cond (lower U (py "Total: $9.18")) = true
  /\ pattern_loop U currency_patterns (py "Total: $9.18")
     = Return (Some (amount_dict (dec 918 (-2)) (py "USD"))).
Proof. split; vm_compute; reflexivity. Qed.

(** C6: in a text with a line "Subtotal: $8.50" and a line
    "Total: $9.18", where the first pass stops on no line before the
    latter, amount extraction returns 9.18 and USD.  The subtotal line
    itself is never a line the first pass stops on, wherever it stands. *)
Theorem total_line_wins_over_subtotal text pre post :
  split_lines text = pre ++ py "Total: $9.18" :: post ->
  In (py "Subtotal: $8.50") (split_lines text) ->
  Forall (fun l => first_pass_hit U l = false) pre ->
  _extract_amount_and_currency U text
    = Return (amount_dict (dec 918 (-2)) (py "USD"))
  /\ first_pass_hit U (py "Subtotal: $8.50") = false.
Proof.
  intros Hsplit _ Hpre. split; [|vm_compute; reflexivity].
  unfold _extract_amount_and_currency. rewrite Hsplit.
  rewrite line_loop_skip.
  - cbn [line_loop]. destruct total_line_hit as (-> & ->). reflexivity.
  - eapply Forall_impl; [|exact Hpre]. apply first_pass_hit_false.
Qed.

(** C7: on "Amount: NT$100" amount extraction returns 100 and NTD.  The
    bare-dollar pattern matches that text too and alone would give 100
    and USD; the NT pattern stands before it in the list. *)
Theorem nt_dollar_before_bare_dollar :
  _extract_amount_and_currency U (py "Amount: NT$100")
    = Return (amount_dict (dec 100 0) (py "NTD"))
  /\ pattern_loop U (skipn 3 currency_patterns) (py "Amount: NT$100")
     = Return (Some (amount_dict (dec 100 0) (py "USD")))
  /\ map snd currency_patterns
     = [py "NTD"; py "HKD"; py "USD"; py "USD"; py "NTD"].
Proof. repeat split; vm_compute; reflexivity. Qed.


End AmountExtraction.

(** ** The rule tables *)

Lemma str_eqb_eq a b : str_eqb a b = true <-> a = b.
Proof.
  unfold str_eqb. destruct (list_eq_dec N.eq_dec a b); split; congruence.
Qed.

Lemma str_eqb_neq a b : str_eqb a b = false <-> a <> b.
Proof.
  unfold str_eqb. destruct (list_eq_dec N.eq_dec a b); split; congruence.
Qed.

Lemma table_get_set_same name v t : table_get name (table_set name v t) = Some v.
Proof.
  induction t as [|[k v'] t IH]; simpl.
  - assert (E : str_eqb name name = true) by (apply str_eqb_eq; reflexivity).
    rewrite E; reflexivity.
  - destruct (str_eqb k name) eqn:E; simpl; rewrite E; auto.
Qed.

Lemma table_get_set_other name k v t :
  k <> name -> table_get name (table_set k v t) = table_get name t.
Proof.
  intros Hne. induction t as [|[k' v'] t IH]; simpl.
  - apply str_eqb_neq in Hne. rewrite Hne; reflexivity.
  - destruct (str_eqb k' k) eqn:E; simpl.
    + apply str_eqb_eq in E; subst k'.
      apply str_eqb_neq in Hne. rewrite Hne; reflexivity.
    + rewrite IH; reflexivity.
Qed.

Lemma table_get_None name t : ~ In name (table_keys t) -> table_get name t = None.
Proof.
  induction t as [|[k v] t IH]; simpl; intros H; [reflexivity|].
  destruct (str_eqb k name) eqn:E.
  - apply str_eqb_eq in E. tauto.
  - apply IH. tauto.
Qed.

Lemma table_keys_set name v t :
  table_keys (table_set name v t)
  = if table_mem name t then table_keys t else table_keys t ++ [name].
Proof.
  unfold table_mem. induction t as [|[k v'] t IH]; simpl; [reflexivity|].
  destruct (str_eqb k name) eqn:E; simpl; [reflexivity|].
  rewrite IH. destruct (table_get name t); reflexivity.
Qed.

Lemma table_mem_keys name t : In name (table_keys t) -> table_mem name t = true.
Proof.
  unfold table_mem. induction t as [|[k v] t IH]; simpl; [contradiction|].
  intros [->|H].
  - assert (E : str_eqb name name = true) by (apply str_eqb_eq; reflexivity).
    rewrite E; reflexivity.
  - destruct (str_eqb k name); [reflexivity | auto].
Qed.

Lemma table_set_wf name v t : table_wf t -> table_wf (table_set name v t).
Proof.
  unfold table_wf. intros H. rewrite table_keys_set.
  destruct (table_mem name t) eqn:M; [exact H|].
  apply NoDup_app; [exact H | repeat constructor; simpl; tauto |].
  intros k Hk [E|[]]. subst k.
  apply table_mem_keys in Hk. congruence.
Qed.

(** In [{**a, **b}] a name bound in [b] has the value [b] gives it, and any
    other name the value [a] gives it. *)
Lemma table_get_merge name a b :
  table_wf b ->
  table_get name (table_merge a b)
  = match table_get name b with
    | Some v => Some v
    | None => table_get name a
    end.
Proof.
  unfold table_merge, table_wf. revert a.
  induction b as [|[k v] b IH]; intros a Hwf; simpl; [reflexivity|].
  inversion Hwf as [|? ? Hnotin Hwf']; subst.
  rewrite IH by exact Hwf'. cbn [fst snd].
  destruct (str_eqb k name) eqn:E.
  - apply str_eqb_eq in E; subst k.
    rewrite (table_get_None name b Hnotin). apply table_get_set_same.
  - apply str_eqb_neq in E.
    rewrite (table_get_set_other name k v a E). reflexivity.
Qed.

(** C10: after [add_custom_category] with the name of a default category,
    [get_all_categories] maps the name to the custom keywords and
    merchants, while the table [categorize_receipt] iterates maps it to the
    default rule: the two merges go in opposite directions. *)
Theorem listing_and_classifier_merge_differ self name kws ms :
  config_wf self ->
  table_mem name (default_categories self) = true ->
  table_get name (get_all_categories (add_custom_category self name kws ms))
    = Some {| keywords := kws; merchants := ms |}
  /\ table_get name (all_categories (add_custom_category self name kws ms))
     = table_get name (default_categories self).
Proof.
  intros [Hd Hc] Hmem. unfold get_all_categories, all_categories.
  cbn [add_custom_category default_categories custom_categories]. split.
  - rewrite table_get_merge by (apply table_set_wf; exact Hc).
    rewrite table_get_set_same. reflexivity.
  - rewrite table_get_merge by exact Hd.
    unfold table_mem in Hmem.
    destruct (table_get name (default_categories self)); [reflexivity|discriminate].
Qed.

(** ** The classifier *)

Section ClassifierProperties.
Context (U : unicode_db).

Lemma rule_loop_lowered tbl m txt :
  table_lowered U tbl ->
  rule_loop U tbl m txt = rule_loop_as_written U tbl m txt.
Proof.
  induction 1 as [|[cat config] tbl [Hk Hm] _ IH];
    cbn [rule_loop rule_loop_as_written]; [reflexivity|].
  cbn [snd] in Hk, Hm. rewrite IH.
  assert (Em : merchant_hit U config m
               = existsb (fun mp => contains mp m) (merchants config)).
  { unfold merchant_hit. induction Hm as [|s l Hs _ IHm]; simpl;
      [reflexivity|]. rewrite Hs, IHm. reflexivity. }
  assert (Ek : keyword_hit U config txt m
               = existsb (fun kw =>
                            let pattern := seq [WordB; literal kw; WordB] in
                            matched (re_search U false pattern txt)
                            || matched (re_search U false pattern m))
                         (keywords config)).
  { unfold keyword_hit, keyword_pattern.
    induction Hk as [|s l Hs _ IHk]; cbn [existsb]; [reflexivity|].
    rewrite Hs, IHk. reflexivity. }
  rewrite Em, Ek. reflexivity.
Qed.

Lemma categorize_by_text c cs :
  categorize_receipt U init (receipt_of None (Some (c :: cs)))
  = match rule_loop U (default_categories init) [] (lower U (c :: cs)) with
    | Some cat => cat
    | None => py "Other"
    end.
Proof. reflexivity. Qed.

Lemma rmatch_literal kw : forall st k,
  rmatch U false (literal kw) st k
  = if startswith kw (ms_rest st)
    then k {| ms_before := rev kw ++ ms_before st;
              ms_rest := skipn (List.length kw) (ms_rest st);
              ms_groups := ms_groups st |}
    else None.
Proof.
  induction kw as [|c kw IH]; intros st k.
  - destruct st; reflexivity.
  - change (literal (c :: kw)) with (Cat (One (Chr c)) (literal kw)).
    cbn [rmatch atom_ok startswith]. destruct (ms_rest st) as [|x rest];
      [reflexivity|].
    rewrite N.eqb_sym. destruct (c =? x) eqn:E; cbn [andb]; [|reflexivity].
    apply N.eqb_eq in E; subst x. rewrite IH. cbn [ms_rest ms_before ms_groups].
    destruct (startswith kw rest); [|reflexivity].
    cbn [rev skipn List.length]. rewrite <- app_assoc. reflexivity.
Qed.

Lemma startswith_app kw rest :
  startswith kw rest = true <-> exists post, rest = kw ++ post.
Proof.
  revert rest. induction kw as [|c kw IH]; intros rest; simpl.
  - split; eauto.
  - destruct rest as [|x rest]; [split; [discriminate|intros (p & H); discriminate]|].
    rewrite andb_true_iff, N.eqb_eq, IH. split.
    + intros (-> & post & ->). eauto.
    + intros (post & H). inversion H; subst. eauto.
Qed.

Lemma skipn_length_app (kw post : str) : skipn (List.length kw) (kw ++ post) = post.
Proof. induction kw; simpl; auto. Qed.

(** One attempt of the keyword pattern succeeds exactly on a keyword
    between two word boundaries. *)
Lemma match_at_keyword kw before rest :
  matched (match_at U false (seq [WordB; literal kw; WordB]) before rest) = true
  <-> exists post, rest = kw ++ post
                   /\ boundary U before rest
                   /\ boundary U (rev kw ++ before) post.
Proof.
  unfold match_at, boundary.
  change (seq [WordB; literal kw; WordB])
    with (Cat WordB (Cat (literal kw) (Cat WordB Eps))).
  cbn [rmatch ms_before ms_rest ms_groups]. rewrite rmatch_literal.
  cbn [rmatch ms_before ms_rest ms_groups].
  destruct (xorb (word_at U before) (word_at U rest)) eqn:B1.
  - destruct (startswith kw rest) eqn:S.
    + apply startswith_app in S. destruct S as (post & ->).
      rewrite skipn_length_app.
      destruct (xorb (word_at U (rev kw ++ before)) (word_at U post)) eqn:B2.
      * split; [|reflexivity]. intros _. exists post. auto.
      * split; [discriminate|]. intros (post' & E & _ & B).
        apply app_inv_head in E; subst post'. congruence.
    + split; [discriminate|]. intros (post & -> & _).
      assert (startswith kw (kw ++ post) = true)
        by (apply startswith_app; eauto). congruence.
  - split; [discriminate|]. intros (post & _ & B & _). discriminate.
Qed.

(** A search succeeds exactly when an attempt succeeds at some position. *)
Lemma search_from_matched ic r : forall rest before,
  matched (search_from U ic r before rest) = true
  <-> exists pre post, rest = pre ++ post
        /\ matched (match_at U ic r (rev pre ++ before) post) = true.
Proof.
  induction rest as [|c rest IH]; intros before; cbn [search_from].
  - destruct (match_at U ic r before _) eqn:E.
    + split; [|reflexivity]. intros _. exists [], []. simpl. rewrite E. auto.
    + split; [discriminate|]. intros (pre & post & H & M).
      symmetry in H. apply app_eq_nil in H. destruct H; subst.
      simpl in M. rewrite E in M. discriminate.
  - destruct (match_at U ic r before _) eqn:E.
    + split; [|reflexivity]. intros _. exists [], (c :: rest). simpl. rewrite E. auto.
    + rewrite IH. split.
      * intros (pre & post & -> & M). exists (c :: pre), post. split; [reflexivity|].
        simpl. rewrite <- app_assoc. exact M.
      * intros (pre & post & H & M). destruct pre as [|x pre].
        -- simpl in H, M. subst post. rewrite E in M. discriminate.
        -- inversion H; subst. exists pre, post. split; [reflexivity|].
           simpl in M. rewrite <- app_assoc in M. exact M.
Qed.

(** The keyword search of the classifier finds the lower-cased keyword
    exactly where it stands as a whole token. *)
Lemma keyword_search_is_token_search kw text :
  matched (re_search U false (keyword_pattern U kw) text) = true
  <-> occurs_as_token U (lower U kw) text.
Proof.
  unfold re_search, keyword_pattern, occurs_as_token.
  rewrite search_from_matched. split.
  - intros (pre & post & -> & M). rewrite app_nil_r in M.
    apply match_at_keyword in M. destruct M as (post' & -> & B1 & B2).
    exists pre, post'. auto.
  - intros (pre & post & -> & B1 & B2). exists pre, (lower U kw ++ post).
    split; [reflexivity|]. rewrite app_nil_r. apply match_at_keyword.
    exists post. auto.
Qed.

(** The keyword loop of a rule succeeds exactly when one of the keywords of
    the rule, lower-cased, stands as a whole token in the text or in the
    merchant. *)
Lemma keyword_hit_tokens config text merchant :
  keyword_hit U config text merchant = true
  <-> exists kw, In kw (keywords config)
                 /\ (occurs_as_token U (lower U kw) text
                     \/ occurs_as_token U (lower U kw) merchant).
Proof.
  unfold keyword_hit. rewrite existsb_exists. split.
  - intros (kw & Hin & H). exists kw. split; [exact Hin|].
    apply orb_true_iff in H.
    destruct H as [H|H]; [left|right];
      apply keyword_search_is_token_search; exact H.
  - intros (kw & Hin & H). exists kw. split; [exact Hin|].
    apply orb_true_iff.
    destruct H as [H|H]; [left|right];
      apply keyword_search_is_token_search; exact H.
Qed.

Lemma merchant_hit_contains config merchant :
  merchant_hit U config merchant = true
  <-> exists mp, In mp (merchants config)
                 /\ contains (lower U mp) merchant = true.
Proof. unfold merchant_hit. apply existsb_exists. Qed.

Lemma rule_fires config m t :
  (merchant_hit U config m || keyword_hit U config t m = true)
  <-> fires U config m t.
Proof.
  unfold fires. rewrite orb_true_iff, merchant_hit_contains, keyword_hit_tokens.
  reflexivity.
Qed.

(** The loop over the rules stops on the first rule that fires. *)
Lemma rule_loop_first_fires m t : forall tbl,
  match rule_loop U tbl m t with
  | Some cat =>
    exists pre config post,
      tbl = pre ++ (cat, config) :: post
      /\ Forall (fun kv => ~ fires U (snd kv) m t) pre
      /\ fires U config m t
  | None => Forall (fun kv => ~ fires U (snd kv) m t) tbl
  end.
Proof.
  induction tbl as [|[cat config] tbl IH]; cbn [rule_loop]; [constructor|].
  pose proof (rule_fires config m t) as F.
  destruct (merchant_hit U config m) eqn:Em.
  - exists [], config, tbl. split; [reflexivity|]. split; [constructor|].
    apply F. reflexivity.
  - cbn [orb] in F. destruct (keyword_hit U config t m) eqn:Ek.
    + exists [], config, tbl. split; [reflexivity|]. split; [constructor|].
      apply F. reflexivity.
    + assert (N : ~ fires U config m t).
      { intros H. apply F in H. discriminate. }
      destruct (rule_loop U tbl m t) as [c|].
      * destruct IH as (pre & config' & post & -> & P & H).
        exists ((cat, config) :: pre), config', post.
        split; [reflexivity|]. split; [constructor; assumption|exact H].
      * constructor; assumption.
Qed.

Lemma categorize_when_classifiable self r :
  classifiable r = true ->
  categorize_receipt U self r
  = match rule_loop U (all_categories self) (merchant_of U r) (text_of U r) with
    | Some cat => cat
    | None => py "Other"
    end.
Proof.
  intros C. unfold categorize_receipt, classifiable, merchant_of, text_of in *.
  destruct (truthy (merchant r)); destruct (truthy (raw_text r));
    try reflexivity. discriminate C.
Qed.

(** A receipt with a merchant or a text gets the name of the first rule
    that fires, in the order of the table the classifier iterates, and
    "Other" when none does. *)
Lemma categorize_first_fires self r :
  classifiable r = true ->
  (exists pre cat config post,
      all_categories self = pre ++ (cat, config) :: post
      /\ Forall (fun kv => ~ fires U (snd kv) (merchant_of U r) (text_of U r)) pre
      /\ fires U config (merchant_of U r) (text_of U r)
      /\ categorize_receipt U self r = cat)
  \/ (Forall (fun kv => ~ fires U (snd kv) (merchant_of U r) (text_of U r))
             (all_categories self)
      /\ categorize_receipt U self r = py "Other").
Proof.
  intros C. rewrite (categorize_when_classifiable self r C).
  pose proof (rule_loop_first_fires (merchant_of U r) (text_of U r)
                (all_categories self)) as L.
  destruct (rule_loop U (all_categories self) (merchant_of U r) (text_of U r))
    as [cat|].
  - left. destruct L as (pre & config & post & Ha & P & H).
    exists pre, cat, config, post. auto.
  - right. auto.
Qed.

Lemma token_is_not_empty kw text :
  occurs_as_token U kw text -> kw <> [] -> text <> [].
Proof.
  intros (pre & post & -> & _) Hk E.
  apply app_eq_nil in E. destruct E as [_ E].
  apply app_eq_nil in E. tauto.
Qed.

(** With the default table, a text in which "restaurant" stands as a whole
    token is classified "Food & Dining", whatever the merchant. *)
Lemma restaurant_token_classifies m text :
  table_lowered U (default_categories init) ->
  occurs_as_token U (py "restaurant") (lower U text) ->
  categorize_receipt U init (receipt_of m (Some text)) = py "Food & Dining".
Proof.
  intros L T.
  assert (Ne : text <> []).
  { intros ->. apply (token_is_not_empty _ _ T); [discriminate|reflexivity]. }
  destruct text as [|c cs]; [congruence|].
  assert (Lr : lower U (py "restaurant") = py "restaurant").
  { inversion L as [|kv tb [Hk _] _]; subst. cbn [snd] in Hk.
    inversion Hk; assumption. }
  rewrite categorize_when_classifiable
    by (unfold classifiable; cbn; apply orb_true_r).
  change (all_categories init) with (default_categories init).
  change (default_categories init)
    with ((py "Food & Dining",
           mk_rule ["restaurant"; "餐廳"; "cafe"; "咖啡"; "food"; "食物";
                    "dining"; "meal"; "飯店"; "bar"; "酒吧"]%string
                   ["mcdonalds"; "starbucks"; "subway"; "麥當勞";
                    "星巴克"]%string)
          :: tl (default_categories init)).
  cbn [rule_loop].
  destruct (merchant_hit U _ _); [reflexivity|].
  replace (keyword_hit U _ _ _) with true; [reflexivity|].
  symmetry. apply keyword_hit_tokens. exists (py "restaurant").
  split; [left; reflexivity|]. left. rewrite Lr. exact T.
Qed.

(** With the default table and no merchant, a text in which no keyword of
    the table stands as a whole token is classified "Other". *)
Lemma no_token_gives_Other text :
  table_lowered U (default_categories init) ->
  (forall kw, In kw (table_keywords (default_categories init)) ->
              ~ occurs_as_token U kw (lower U text)) ->
  categorize_receipt U init (receipt_of None (Some text)) = py "Other".
Proof.
  intros L No.
  destruct text as [|c cs]; [reflexivity|].
  destruct (categorize_first_fires init (receipt_of None (Some (c :: cs)))
              eq_refl)
    as [(pre & cat & config & post & Ha & _ & F & _)|[_ E]]; [|exact E].
  exfalso.
  change (all_categories init) with (default_categories init) in Ha.
  assert (Hin : In (cat, config) (default_categories init)).
  { rewrite Ha. apply in_or_app. right. left. reflexivity. }
  assert (Lc : rule_lowered U config).
  { exact (proj1 (Forall_forall _ _) L (cat, config) Hin). }
  destruct Lc as [Lk Lm].
  assert (Ne : Forall (fun s => s <> []) (keywords config)
               /\ Forall (fun s => s <> []) (merchants config)).
  { clear - Hin. cbn [In default_categories init] in Hin.
    repeat (destruct Hin as [Hin|Hin];
            [inversion Hin; subst; split; repeat constructor; discriminate|]).
    destruct Hin. }
  destruct Ne as [Nk Nm].
  change (merchant_of U (receipt_of None (Some (c :: cs)))) with (lower U []) in F.
  change (lower U []) with (@nil codepoint) in F.
  destruct F as [(mp & Hmp & Hc)|(kw & Hkw & [T|T])].
  - rewrite (proj1 (Forall_forall _ _) Lm mp Hmp) in Hc.
    pose proof (proj1 (Forall_forall _ _) Nm mp Hmp) as Hn.
    destruct mp; [congruence|discriminate Hc].
  - rewrite (proj1 (Forall_forall _ _) Lk kw Hkw) in T.
    apply (No kw); [|exact T].
    unfold table_keywords. apply in_flat_map. exists (cat, config). auto.
  - rewrite (proj1 (Forall_forall _ _) Lk kw Hkw) in T.
    pose proof (proj1 (Forall_forall _ _) Nk kw Hkw) as Hn.
    apply (token_is_not_empty _ _ T Hn). reflexivity.
Qed.

Lemma ascii_word_is_ascii c : ascii_word c = true -> is_ascii c = true.
Proof.
  unfold ascii_word, is_ascii, in_range. intros H.
  apply N.ltb_lt.
  repeat (apply orb_true_iff in H; destruct H as [H|H]);
    try (apply andb_true_iff in H; destruct H as [_ H]; apply N.leb_le in H; lia).
  apply N.eqb_eq in H. lia.
Qed.

Lemma ascii_word_isword c : ascii_word c = true -> isword U c = true.
Proof.
  intros H. unfold isword. rewrite (ascii_word_is_ascii c H). exact H.
Qed.

Lemma ascii_word_lower c : ascii_word c = true -> ascii_word (ascii_lower c) = true.
Proof.
  intros H. unfold ascii_lower. destruct (in_range 65 90 c) eqn:E; [|exact H].
  unfold ascii_word, in_range in *.
  apply andb_true_iff in E. destruct E as [E1 E2].
  apply N.leb_le in E1, E2.
  replace ((97 <=? c + 32) && (c + 32 <=? 122)) with true.
  - rewrite orb_true_r. reflexivity.
  - symmetry. apply andb_true_iff. split; apply N.leb_le; lia.
Qed.

(** Lower-casing works on ASCII characters one by one, whatever stands
    around them. *)
Lemma lower_from_ascii (a : str) : forall (before b : str),
  forallb is_ascii a = true ->
  lower_from U before (a ++ b)
  = map ascii_lower a ++ lower_from U (rev a ++ before) b.
Proof.
  induction a as [|c a IH]; intros before b H; [reflexivity|].
  cbn [forallb] in H. apply andb_true_iff in H. destruct H as [Hc Ha].
  cbn [app lower_from map rev]. rewrite Hc. cbn [app].
  rewrite (IH (c :: before) b Ha). rewrite <- app_assoc. reflexivity.
Qed.

Lemma lower_from_app (a : str) : forall (before b : str),
  exists X : str,
    lower_from U before (a ++ b) = X ++ lower_from U (rev a ++ before) b.
Proof.
  induction a as [|c a IH]; intros before b; [exists []; reflexivity|].
  destruct (IH (c :: before) b) as [X E].
  cbn [app lower_from rev]. rewrite E.
  eexists. rewrite <- (app_assoc (rev a) [c] before). cbn [app].
  rewrite app_assoc. reflexivity.
Qed.

Lemma lower_ascii_word (s : str) :
  forallb ascii_word s = true ->
  lower U s = map ascii_lower s
  /\ forallb ascii_word (lower U s) = true.
Proof.
  intros H.
  assert (A : forallb is_ascii s = true).
  { apply forallb_forall. intros c Hc.
    apply ascii_word_is_ascii. exact (proj1 (forallb_forall _ _) H c Hc). }
  assert (E : lower U s = map ascii_lower s).
  { unfold lower. pose proof (lower_from_ascii s [] [] A) as E.
    rewrite !app_nil_r in E. exact E. }
  split; [exact E|]. rewrite E. apply forallb_forall. intros c Hc.
  apply in_map_iff in Hc. destruct Hc as (c0 & <- & Hc0).
  apply ascii_word_lower. exact (proj1 (forallb_forall _ _) H c0 Hc0).
Qed.

(** In a text of word characters only, the one token is the text. *)
Lemma token_of_one_word (kw text : str) :
  (forall c, In c text -> isword U c = true) ->
  kw <> [] ->
  occurs_as_token U kw text -> kw = text.
Proof.
  intros W Hk (pre & post & E & B1 & B2). unfold boundary in B1, B2.
  assert (Wpre : forall c, In c pre -> isword U c = true).
  { intros c Hc. apply W. rewrite E. apply in_or_app. auto. }
  assert (Wkw : forall c, In c kw -> isword U c = true).
  { intros c Hc. apply W. rewrite E. apply in_or_app. right.
    apply in_or_app. auto. }
  assert (Wpost : forall c, In c post -> isword U c = true).
  { intros c Hc. apply W. rewrite E. apply in_or_app. right.
    apply in_or_app. auto. }
  assert (P0 : pre = []).
  { destruct kw as [|k kw']; [congruence|].
    cbn [app word_at] in B1. rewrite (Wkw k (or_introl eq_refl)) in B1.
    destruct (rev pre) as [|x l] eqn:R.
    - apply (f_equal (@rev codepoint)) in R. rewrite rev_involutive in R.
      exact R.
    - cbn [word_at] in B1. rewrite Wpre in B1; [discriminate B1|].
      apply in_rev. rewrite R. left. reflexivity. }
  assert (Q0 : post = []).
  { destruct (rev kw) as [|x l] eqn:R.
    - apply (f_equal (@rev codepoint)) in R. rewrite rev_involutive in R.
      cbn [rev] in R. congruence.
    - cbn [app word_at] in B2. rewrite Wkw in B2
        by (apply in_rev; rewrite R; left; reflexivity).
      destruct post as [|c post']; [reflexivity|].
      cbn [word_at] in B2. rewrite (Wpost c (or_introl eq_refl)) in B2.
      discriminate B2. }
  rewrite E, P0, Q0, app_nil_r. reflexivity.
Qed.

(** With the default table and no merchant, a text that is one ASCII word
    with "restaurant" inside it, and more before or after, is classified
    "Other". *)
Lemma restaurant_inside_word_gives_Other (pre post : str) :
  table_lowered U (default_categories init) ->
  forallb ascii_word (pre ++ post) = true ->
  pre ++ post <> [] ->
  categorize_receipt U init
    (receipt_of None (Some (pre ++ py "restaurant" ++ post))) = py "Other".
Proof.
  intros L W Ne. apply (no_token_gives_Other _ L). intros kw Hin T.
  assert (Wt : forallb ascii_word (pre ++ py "restaurant" ++ post) = true).
  { rewrite forallb_app in W. apply andb_true_iff in W. destruct W as [W1 W2].
    rewrite !forallb_app, W1, W2. reflexivity. }
  destruct (lower_ascii_word _ Wt) as [E Wl].
  assert (K : forallb (fun kw => negb (Nat.eqb (List.length kw) 0)
                                 && Nat.leb (List.length kw) 10)
                      (table_keywords (default_categories init)) = true)
    by (vm_compute; reflexivity).
  pose proof (proj1 (forallb_forall _ _) K kw Hin) as Hk.
  apply andb_true_iff in Hk. destruct Hk as [Hk0 Hk10].
  apply Nat.leb_le in Hk10.
  assert (Hne : kw <> []).
  { intros ->. discriminate Hk0. }
  assert (Ek : kw = lower U (pre ++ py "restaurant" ++ post)).
  { apply token_of_one_word; [|exact Hne|exact T].
    intros c Hc. apply ascii_word_isword.
    exact (proj1 (forallb_forall _ _) Wl c Hc). }
  apply (f_equal (@List.length codepoint)) in Ek.
  rewrite E, length_map, !length_app in Ek.
  change (List.length (py "restaurant")) with 10%nat in Ek.
  assert (List.length (pre ++ post) <> 0)%nat.
  { destruct (pre ++ post); [congruence|discriminate]. }
  rewrite length_app in H. lia.
Qed.

(** With the default table, a text that contains "the restaurant downtown"
    is classified "Food & Dining", whatever the merchant. *)
Lemma restaurant_downtown_classifies m (pre post : str) :
  table_lowered U (default_categories init) ->
  categorize_receipt U init
    (receipt_of m (Some (pre ++ py "the restaurant downtown" ++ post)))
  = py "Food & Dining".
Proof.
  intros L. apply (restaurant_token_classifies _ _ L).
  unfold lower.
  destruct (lower_from_app pre [] (py "the restaurant downtown" ++ post))
    as [X ->].
  rewrite lower_from_ascii by (vm_compute; reflexivity).
  set (Y := lower_from U _ post).
  exists (X ++ py "the "), (py " downtown" ++ Y).
  split; [|split].
  - rewrite <- app_assoc. reflexivity.
  - unfold boundary. rewrite rev_app_distr. reflexivity.
  - unfold boundary. rewrite rev_app_distr. reflexivity.
Qed.

(** C8: keyword matching is anchored at word boundaries, on both sides.
    The keyword loop of a rule succeeds exactly when one of its keywords,
    lower-cased, stands in the text or in the merchant with a word boundary
    before it and a word boundary after it, and the classifier returns the
    name of the first rule of its table that fires in this sense, "Other"
    when none does.  With the default table (whose strings lower-casing
    leaves as written) every text in which "restaurant" stands as a whole
    token is classified "Food & Dining", the category of the rule that
    holds the keyword, and every text without merchant in which no keyword
    of the table stands as a whole token is classified "Other".  So every
    text that contains "the restaurant downtown" is classified "Food &
    Dining", and a text without merchant that is one ASCII word with
    "restaurant" inside it and more before or after is classified "Other":
    "restaurantish", "xrestaurant" and, for the keyword "bar", "toolbar
    settings" give "Other". *)
Theorem keyword_match_is_word_bounded :
  table_lowered U (default_categories init) ->
  (forall kw text,
     matched (re_search U false (keyword_pattern U kw) text) = true
     <-> occurs_as_token U (lower U kw) text)
  /\ (forall config text merchant,
        keyword_hit U config text merchant = true
        <-> exists kw, In kw (keywords config)
                       /\ (occurs_as_token U (lower U kw) text
                           \/ occurs_as_token U (lower U kw) merchant))
  /\ (forall self r,
        classifiable r = true ->
        (exists pre cat config post,
            all_categories self = pre ++ (cat, config) :: post
            /\ Forall (fun kv => ~ fires U (snd kv) (merchant_of U r)
                                         (text_of U r)) pre
            /\ fires U config (merchant_of U r) (text_of U r)
            /\ categorize_receipt U self r = cat)
        \/ (Forall (fun kv => ~ fires U (snd kv) (merchant_of U r)
                                      (text_of U r))
                   (all_categories self)
            /\ categorize_receipt U self r = py "Other"))
  /\ (forall m text,
        occurs_as_token U (py "restaurant") (lower U text) ->
        categorize_receipt U init (receipt_of m (Some text))
        = py "Food & Dining")
  /\ (forall text,
        (forall kw, In kw (table_keywords (default_categories init)) ->
                    ~ occurs_as_token U kw (lower U text)) ->
        categorize_receipt U init (receipt_of None (Some text)) = py "Other")
  /\ (forall m pre post,
        categorize_receipt U init
          (receipt_of m (Some (pre ++ py "the restaurant downtown" ++ post)))
        = py "Food & Dining")
  /\ (forall pre post,
        forallb ascii_word (pre ++ post) = true ->
        pre ++ post <> [] ->
        categorize_receipt U init
          (receipt_of None (Some (pre ++ py "restaurant" ++ post)))
        = py "Other")
  /\ matched (re_search U false (keyword_pattern U (py "restaurant"))
                        (lower U (py "restaurantish"))) = false
  /\ matched (re_search U false (keyword_pattern U (py "restaurant"))
                        (lower U (py "xrestaurant"))) = false
  /\ matched (re_search U false (keyword_pattern U (py "restaurant"))
                        (lower U (py "the restaurant downtown"))) = true
  /\ categorize_receipt U init (receipt_of None (Some (py "restaurantish")))
     = py "Other"
  /\ categorize_receipt U init (receipt_of None (Some (py "xrestaurant")))
     = py "Other"
  /\ categorize_receipt U init (receipt_of None (Some (py "toolbar settings")))
     = py "Other"
  /\ categorize_receipt U init
       (receipt_of None (Some (py "the restaurant downtown")))
     = py "Food & Dining"
  /\ (exists r, table_get (py "Food & Dining") (default_categories init)
                = Some r /\ In (py "restaurant") (keywords r)).
Proof.
  intros L. split; [exact keyword_search_is_token_search|].
  split; [exact keyword_hit_tokens|].
  split; [exact categorize_first_fires|].
  split; [intros m text; apply restaurant_token_classifies; exact L|].
  split; [intros text; apply no_token_gives_Other; exact L|].
  split; [intros m pre post; apply restaurant_downtown_classifies; exact L|].
  split; [intros pre post; apply restaurant_inside_word_gives_Other; exact L|].
  split; [vm_compute; reflexivity|].
  split; [vm_compute; reflexivity|].
  split; [vm_compute; reflexivity|].
  split; [|split; [|split; [|split]]].
  - change (py "restaurantish") with (114 :: tl (py "restaurantish")).
    rewrite categorize_by_text, (rule_loop_lowered _ _ _ L).
    vm_compute; reflexivity.
  - change (py "xrestaurant") with (120 :: tl (py "xrestaurant")).
    rewrite categorize_by_text, (rule_loop_lowered _ _ _ L).
    vm_compute; reflexivity.
  - change (py "toolbar settings") with (116 :: tl (py "toolbar settings")).
    rewrite categorize_by_text, (rule_loop_lowered _ _ _ L).
    vm_compute; reflexivity.
  - change (py "the restaurant downtown")
      with (116 :: tl (py "the restaurant downtown")).
    rewrite categorize_by_text, (rule_loop_lowered _ _ _ L).
    vm_compute; reflexivity.
  - eexists; split; [vm_compute; reflexivity|]. left; reflexivity.
Qed.

Lemma categorize_by_text_in self c cs :
  categorize_receipt U self (receipt_of None (Some (c :: cs)))
  = match rule_loop U (all_categories self) [] (lower U (c :: cs)) with
    | Some cat => cat
    | None => py "Other"
    end.
Proof. reflexivity. Qed.

(** C2, the behaviour of the code at the failing input: a custom category
    named like the default "Food & Dining", with the single keyword
    "sushi", is listed by [get_all_categories] with that keyword; the table
    the classifier iterates is the default table again, and a receipt
    whose text is "sushi" is classified "Other": the custom rule of that
    name is not evaluated. *)
Theorem colliding_custom_rule_is_not_evaluated :
  table_lowered U (default_categories init) ->
  table_get (py "Food & Dining")
    (get_all_categories
       (add_custom_category init (py "Food & Dining") [py "sushi"] []))
    = Some {| keywords := [py "sushi"]; merchants := [] |}
  /\ all_categories
       (add_custom_category init (py "Food & Dining") [py "sushi"] [])
     = default_categories init
  /\ categorize_receipt U
       (add_custom_category init (py "Food & Dining") [py "sushi"] [])
       (receipt_of None (Some (py "sushi")))
     = py "Other".
Proof.
  intros L. split; [vm_compute; reflexivity|].
  split; [vm_compute; reflexivity|].
  change (py "sushi") with (115 :: tl (py "sushi")) at 2.
  rewrite categorize_by_text_in.
  change (all_categories
            (add_custom_category init (py "Food & Dining") [py "sushi"] []))
    with (default_categories init).
  rewrite (rule_loop_lowered _ _ _ L). vm_compute; reflexivity.
Qed.

End ClassifierProperties.

(** ** Concrete instances *)

(** C1 as stated fails on "2024-02-30": the first pattern class matches the
    whole text, which fails all six formats (there is no 30 February), and
    date extraction still returns a date, 24 February 2030, read by the
    third pattern class from "24-02-30". *)
Lemma date_extraction_falls_back_on_2024_02_30 :
  exists m,
    re_search ascii_db false (nth 0 date_patterns Eps) (py "2024-02-30") = Some m
    /\ m_group0 m = py "2024-02-30"
    /\ all_formats_fail ascii_db (m_group0 m)
    /\ _extract_date ascii_db (py "2024-02-30") = Return (Some (ymd 2030 2 24)).
Proof.
  eexists. split; [vm_compute; reflexivity|].
  split; [reflexivity|]. split; [|vm_compute; reflexivity].
  intros fmt Hin. unfold date_formats in Hin. cbn [map In] in Hin.
  repeat (destruct Hin as [<-|Hin]; [eexists; vm_compute; reflexivity|]).
  destruct Hin.
Qed.

Lemma extract_date_falls_back_witness :
  _extract_date ascii_db (py "2024-02-30")
    = date_loop ascii_db (tl date_patterns) (py "2024-02-30")
  /\ (_extract_date ascii_db (py "2024-02-30") = Return None <->
      forall p m', In p (tl date_patterns) ->
                   re_search ascii_db false p (py "2024-02-30") = Some m' ->
                   all_formats_fail ascii_db (m_group0 m')).
Proof.
  eapply (extract_date_falls_back ascii_db (py "2024-02-30")).
  - vm_compute; reflexivity.
  - intros fmt Hin. unfold date_formats in Hin. cbn [map In] in Hin.
    repeat (destruct Hin as [<-|Hin]; [eexists; vm_compute; reflexivity|]).
    destruct Hin.
Defined.

(** The same on any Unicode database: the text is ASCII. *)
Lemma date_2024_02_30_on_any_database U :
  option_map m_group0
    (re_search U false (nth 0 date_patterns Eps) (py "2024-02-30"))
    = Some (py "2024-02-30")
  /\ all_formats_fail U (py "2024-02-30")
  /\ _extract_date U (py "2024-02-30") = Return (Some (ymd 2030 2 24)).
Proof.
  split; [vm_compute; reflexivity|]. split; [|vm_compute; reflexivity].
  intros fmt Hin. unfold date_formats in Hin. cbn [map In] in Hin.
  repeat (destruct Hin as [<-|Hin]; [eexists; vm_compute; reflexivity|]).
  destruct Hin.
Qed.

(** C3 as stated fails on a text of five blank lines followed by
    "Walmart": that line is the only non-empty trimmed line and survives
    every filter, yet merchant extraction returns absent, the five blank
    lines having used up the window. *)
Lemma merchant_window_counts_blank_lines :
  merchant_as_specified ascii_db (py "\n\n\n\n\nWalmart") = Some (py "Walmart")
  /\ _extract_merchant ascii_db (py "\n\n\n\n\nWalmart") = None.
Proof. split; vm_compute; reflexivity. Qed.

(** The same on any Unicode database. *)
Lemma blank_lines_on_any_database U :
  merchant_as_specified U (py "\n\n\n\n\nWalmart") = Some (py "Walmart")
  /\ _extract_merchant U (py "\n\n\n\n\nWalmart") = None.
Proof. split; vm_compute; reflexivity. Qed.

Lemma total_line_wins_over_subtotal_witness :
  _extract_amount_and_currency ascii_db
    (py "Subtotal: $8.50\nTax: $0.68\nTotal: $9.18")
    = Return (amount_dict (dec 918 (-2)) (py "USD"))
  /\ first_pass_hit ascii_db (py "Subtotal: $8.50") = false.
Proof.
  apply (total_line_wins_over_subtotal ascii_db
           (py "Subtotal: $8.50\nTax: $0.68\nTotal: $9.18")
           [py "Subtotal: $8.50"; py "Tax: $0.68"] []).
  - vm_compute; reflexivity.
  - vm_compute. left; reflexivity.
  - repeat constructor.
Defined.

Lemma keyword_match_is_word_bounded_witness :
  table_lowered ascii_db (default_categories init)
  /\ (forall kw text,
        matched (re_search ascii_db false (keyword_pattern ascii_db kw) text)
        = true
        <-> occurs_as_token ascii_db (lower ascii_db kw) text)
  /\ (forall config text merchant,
        keyword_hit ascii_db config text merchant = true
        <-> exists kw, In kw (keywords config)
                       /\ (occurs_as_token ascii_db (lower ascii_db kw) text
                           \/ occurs_as_token ascii_db (lower ascii_db kw)
                                              merchant))
  /\ (forall self r,
        classifiable r = true ->
        (exists pre cat config post,
            all_categories self = pre ++ (cat, config) :: post
            /\ Forall (fun kv => ~ fires ascii_db (snd kv)
                                         (merchant_of ascii_db r)
                                         (text_of ascii_db r)) pre
            /\ fires ascii_db config (merchant_of ascii_db r)
                     (text_of ascii_db r)
            /\ categorize_receipt ascii_db self r = cat)
        \/ (Forall (fun kv => ~ fires ascii_db (snd kv)
                                      (merchant_of ascii_db r)
                                      (text_of ascii_db r))
                   (all_categories self)
            /\ categorize_receipt ascii_db self r = py "Other"))
  /\ (forall m text,
        occurs_as_token ascii_db (py "restaurant") (lower ascii_db text) ->
        categorize_receipt ascii_db init (receipt_of m (Some text))
        = py "Food & Dining")
  /\ (forall text,
        (forall kw, In kw (table_keywords (default_categories init)) ->
                    ~ occurs_as_token ascii_db kw (lower ascii_db text)) ->
        categorize_receipt ascii_db init (receipt_of None (Some text))
        = py "Other")
  /\ (forall m pre post,
        categorize_receipt ascii_db init
          (receipt_of m (Some (pre ++ py "the restaurant downtown" ++ post)))
        = py "Food & Dining")
  /\ (forall pre post,
        forallb ascii_word (pre ++ post) = true ->
        pre ++ post <> [] ->
        categorize_receipt ascii_db init
          (receipt_of None (Some (pre ++ py "restaurant" ++ post)))
        = py "Other")
  /\ matched (re_search ascii_db false
                        (keyword_pattern ascii_db (py "restaurant"))
                        (lower ascii_db (py "restaurantish"))) = false
  /\ matched (re_search ascii_db false
                        (keyword_pattern ascii_db (py "restaurant"))
                        (lower ascii_db (py "xrestaurant"))) = false
  /\ matched (re_search ascii_db false
                        (keyword_pattern ascii_db (py "restaurant"))
                        (lower ascii_db (py "the restaurant downtown"))) = true
  /\ categorize_receipt ascii_db init
       (receipt_of None (Some (py "restaurantish")))
     = py "Other"
  /\ categorize_receipt ascii_db init
       (receipt_of None (Some (py "xrestaurant")))
     = py "Other"
  /\ categorize_receipt ascii_db init
       (receipt_of None (Some (py "toolbar settings")))
     = py "Other"
  /\ categorize_receipt ascii_db init
       (receipt_of None (Some (py "the restaurant downtown")))
     = py "Food & Dining"
  /\ (exists r, table_get (py "Food & Dining") (default_categories init)
                = Some r /\ In (py "restaurant") (keywords r)).
Proof.
  assert (L : table_lowered ascii_db (default_categories init))
    by (repeat constructor).
  split; [exact L|]. apply (keyword_match_is_word_bounded ascii_db L).
Defined.

Lemma listing_and_classifier_merge_differ_witness :
  table_get (py "Food & Dining")
    (get_all_categories
       (add_custom_category init (py "Food & Dining") [py "sushi"] []))
    = Some {| keywords := [py "sushi"]; merchants := [] |}
  /\ table_get (py "Food & Dining")
       (all_categories
          (add_custom_category init (py "Food & Dining") [py "sushi"] []))
     = table_get (py "Food & Dining") (default_categories init).
Proof.
  apply (listing_and_classifier_merge_differ init (py "Food & Dining")).
  - split; unfold table_wf; vm_compute; repeat constructor;
      intros H; repeat (destruct H as [H|H]; [discriminate H|]); exact H.
  - vm_compute; reflexivity.
Defined.

Lemma colliding_custom_rule_is_not_evaluated_witness :
  table_lowered ascii_db (default_categories init)
  /\ table_get (py "Food & Dining")
       (get_all_categories
          (add_custom_category init (py "Food & Dining") [py "sushi"] []))
     = Some {| keywords := [py "sushi"]; merchants := [] |}
  /\ all_categories
       (add_custom_category init (py "Food & Dining") [py "sushi"] [])
     = default_categories init
  /\ categorize_receipt ascii_db
       (add_custom_category init (py "Food & Dining") [py "sushi"] [])
       (receipt_of None (Some (py "sushi")))
     = py "Other".
Proof.
  assert (L : table_lowered ascii_db (default_categories init))
    by (repeat constructor).
  split; [exact L|]. apply (colliding_custom_rule_is_not_evaluated ascii_db L).
Defined.

(** * Further properties of the extractors *)

(** ** The matcher stays inside the text *)

Section MatcherText.
Context (U : unicode_db).

Lemma whole_advance (taken before rest : str) :
  rev (rev taken ++ before) ++ rest = rev before ++ taken ++ rest.
Proof. rewrite rev_app_distr, rev_involutive, <- app_assoc. reflexivity. Qed.

(** A successful way through a pattern passes a stretch of the text ahead;
    every group closed on the way holds a piece of the text. *)
Lemma rmatch_advances ic r : forall st k res,
  rmatch U ic r st k = Some res ->
  exists st1 taken,
    k st1 = Some res
    /\ ms_rest st = taken ++ ms_rest st1
    /\ ms_before st1 = rev taken ++ ms_before st
    /\ (forall n g, In (n, g) (ms_groups st1) ->
          In (n, g) (ms_groups st) \/ piece_of g (whole st)).
Proof.
  induction r as [ | a | a lo hi | r1 IH1 r2 IH2 | r1 IH1 r2 IH2
                 | n r1 IH1 | | ]; intros st k res H; simpl in H.
  - exists st, []. repeat split; auto.
  - destruct (ms_rest st) as [|c rest] eqn:E; [discriminate|].
    destruct (atom_ok U ic a c); [|discriminate].
    eexists _, [c]. split; [exact H|]. simpl. repeat split; auto.
  - apply rep_greedy_taken in H.
    destruct H as (taken & rest' & E & _ & _ & _ & H).
    eexists _, taken. split; [exact H|]. simpl. repeat split; auto.
  - apply IH1 in H. destruct H as (st1 & t1 & H & E1 & B1 & G1).
    apply IH2 in H. destruct H as (st2 & t2 & H & E2 & B2 & G2).
    exists st2, (t1 ++ t2). split; [exact H|].
    split; [rewrite E1, E2, app_assoc; reflexivity|].
    split; [rewrite B2, B1, rev_app_distr, app_assoc; reflexivity|].
    intros n g Hin. destruct (G2 n g Hin) as [Hold|Hp]; [auto|].
    right. assert (W : whole st1 = whole st).
    { unfold whole. rewrite B1, E1, whole_advance. reflexivity. }
    rewrite <- W. exact Hp.
  - destruct (rmatch U ic r1 st k) eqn:E.
    + inversion H; subst. apply IH1 in E. exact E.
    + apply IH2 in H. exact H.
  - apply IH1 in H. destruct H as (st1 & taken & H & E1 & B1 & G1).
    eexists _, taken. split; [exact H|]. cbn [ms_rest ms_before ms_groups].
    split; [exact E1|]. split; [exact B1|].
    intros n' g [Hin|Hin].
    + inversion Hin; subst n' g. right. unfold consumed. rewrite B1.
      rewrite rev_firstn_consumed. unfold whole, piece_of. rewrite E1.
      exists (rev (ms_before st)), (ms_rest st1). reflexivity.
    + apply G1; exact Hin.
  - destruct (ms_before st) eqn:Eb; [|discriminate].
    exists st, []. repeat split; auto.
  - destruct (xorb _ _); [|discriminate].
    exists st, []. repeat split; auto.
Qed.

(** One attempt: the match and its groups are pieces of the text the
    attempt runs over, the match starting where the attempt starts. *)
Lemma match_at_pieces ic r before rest m :
  match_at U ic r before rest = Some m ->
  (exists post, rest = m_group0 m ++ post)
  /\ (forall n g, group n m = Some g -> piece_of g (rev before ++ rest)).
Proof.
  unfold match_at. intros H.
  destruct (rmatch U ic r _ Some) as [st'|] eqn:E; [|discriminate].
  inversion H; subst m; clear H. cbn [m_group0 m_groups].
  apply rmatch_advances in E. destruct E as (st1 & taken & E & Er & Eb & G).
  inversion E; subst st1; clear E. cbn [ms_rest ms_before ms_groups] in *.
  split.
  - exists (ms_rest st'). unfold consumed. cbn [ms_before]. rewrite Eb.
    rewrite rev_firstn_consumed. exact Er.
  - intros n g Hg. unfold group in Hg. cbn [m_groups] in Hg.
    assert (Hin : In (n, g) (ms_groups st')).
    { clear - Hg. induction (ms_groups st') as [|[k v] gs IH];
        simpl in Hg; [discriminate|].
      destruct (String.eqb k n) eqn:K.
      - apply String.eqb_eq in K. inversion Hg; subst. left; reflexivity.
      - right; auto. }
    destruct (G n g Hin) as [[]|Hp]. exact Hp.
Qed.

Lemma search_from_text ic r : forall rest before m,
  search_from U ic r before rest = Some m ->
  exists pre post, rest = pre ++ post
                   /\ match_at U ic r (rev pre ++ before) post = Some m.
Proof.
  induction rest as [|c rest IH]; intros before m; cbn [search_from].
  - destruct (match_at U ic r before _) eqn:E; [|discriminate].
    intros H; inversion H; subst. exists [], []. auto.
  - destruct (match_at U ic r before _) eqn:E.
    + intros H; inversion H; subst. exists [], (c :: rest). auto.
    + intros H. apply IH in H. destruct H as (pre & post & -> & H).
      exists (c :: pre), post. split; [reflexivity|].
      simpl. rewrite <- app_assoc. exact H.
Qed.

(** What [re.search] returns is cut out of the text. *)
Lemma re_search_pieces ic r s m :
  re_search U ic r s = Some m ->
  piece_of (m_group0 m) s
  /\ (forall n g, group n m = Some g -> piece_of g s).
Proof.
  unfold re_search. intros H. apply search_from_text in H.
  destruct H as (pre & post & -> & H). rewrite app_nil_r in H.
  apply match_at_pieces in H. destruct H as ((post' & E) & G). split.
  - exists pre, post'. rewrite E. reflexivity.
  - intros n g Hg. specialize (G n g Hg). rewrite rev_involutive in G. exact G.
Qed.

Lemma piece_of_trans (a b c : str) : piece_of a b -> piece_of b c -> piece_of a c.
Proof.
  intros (p1 & q1 & ->) (p2 & q2 & ->). exists (p2 ++ p1), (q1 ++ q2).
  rewrite <- !app_assoc. reflexivity.
Qed.

Lemma piece_has_no_more (f : codepoint -> bool) (g s : str) :
  piece_of g s -> existsb f s = false -> existsb f g = false.
Proof.
  intros (pre & post & ->) H. rewrite !existsb_app in H.
  apply orb_false_iff in H. destruct H as [_ H].
  apply orb_false_iff in H. tauto.
Qed.

Lemma piece_of_cons (c : codepoint) (l s : str) :
  piece_of l s -> piece_of l (c :: s).
Proof. intros (pre & post & ->). exists (c :: pre), post. reflexivity. Qed.

(** The first line of a text is a prefix of it and the other lines are
    pieces of it. *)
Lemma split_lines_shape s :
  exists l0 ls,
    split_lines s = l0 :: ls
    /\ (exists post, s = l0 ++ post)
    /\ (forall l, In l ls -> piece_of l s).
Proof.
  induction s as [|c s (l0 & ls & E & (post & P) & Hls)]; simpl.
  - exists [], []. split; [reflexivity|]. split; [exists []; reflexivity|].
    intros l [].
  - destruct (c =? 10).
    + exists [], (split_lines s). split; [reflexivity|].
      split; [exists (c :: s); reflexivity|].
      intros l Hin. apply piece_of_cons. rewrite E in Hin.
      destruct Hin as [<-|Hin]; [|auto].
      exists [], post. exact P.
    + rewrite E. exists (c :: l0), ls. split; [reflexivity|].
      split; [exists post; rewrite P; reflexivity|].
      intros l Hin. apply piece_of_cons. auto.
Qed.

(** The lines of a text are pieces of it. *)
Lemma split_lines_pieces s l : In l (split_lines s) -> piece_of l s.
Proof.
  destruct (split_lines_shape s) as (l0 & ls & -> & (post & P) & Hls).
  intros [<-|Hin]; [|auto]. exists [], post. exact P.
Qed.

End MatcherText.

(** ** Dates *)

Section DateFacts.
Context (U : unicode_db).

Lemma make_datetime_valid y m d dt :
  make_datetime y m d = Return dt -> valid_date dt.
Proof.
  unfold make_datetime, valid_date, in_range.
  destruct ((1 <=? y) && (y <=? 9999)) eqn:Y; [|discriminate].
  destruct ((1 <=? m) && (m <=? 12)) eqn:M; [|discriminate].
  destruct ((1 <=? d) && (d <=? days_in_month y m)) eqn:D; [|discriminate].
  cbn [andb]. intros H; inversion H; subst; clear H. simpl.
  apply andb_true_iff in Y, M, D.
  destruct Y as [Y1 Y2], M as [M1 M2], D as [D1 D2].
  apply N.leb_le in Y1, Y2, M1, M2, D1, D2. repeat split; assumption.
Qed.

Lemma strptime_valid s fmt d : strptime U s fmt = Return d -> valid_date d.
Proof.
  unfold strptime.
  destruct (format_regex fmt); [|discriminate].
  destruct (re_match U true _ s); [|discriminate].
  destruct (negb _); [discriminate|]. apply make_datetime_valid.
Qed.

Lemma try_formats_source s fmts d :
  try_formats U s fmts = Return (Some d) ->
  exists fmt, In fmt fmts /\ strptime U s fmt = Return d.
Proof.
  induction fmts as [|fmt fmts IH]; cbn [try_formats]; [discriminate|].
  destruct (strptime U s fmt) as [d'|e] eqn:E.
  - intros H; inversion H; subst. exists fmt. split; [left; reflexivity|exact E].
  - destruct e; try discriminate. intros H.
    destruct (IH H) as (f & Hin & Hf). exists f. split; [right; exact Hin|exact Hf].
Qed.

Lemma date_loop_source ps text d :
  date_loop U ps text = Return (Some d) ->
  exists p m fmt,
    In p ps /\ re_search U false p text = Some m
    /\ In fmt date_formats /\ strptime U (m_group0 m) fmt = Return d.
Proof.
  induction ps as [|p ps IH]; cbn [date_loop]; [discriminate|].
  assert (Next : date_loop U ps text = Return (Some d) ->
                 exists p0 m fmt,
                   In p0 (p :: ps) /\ re_search U false p0 text = Some m
                   /\ In fmt date_formats
                   /\ strptime U (m_group0 m) fmt = Return d).
  { intros H. destruct (IH H) as (p0 & m & fmt & Hin & Hrest).
    exists p0, m, fmt. split; [right; exact Hin|exact Hrest]. }
  destruct (re_search U false p text) as [m|] eqn:E; [|exact Next].
  destruct (try_formats U (m_group0 m) date_formats) as [[d'|]|e] eqn:T;
    [|exact Next|exact Next].
  intros H; inversion H; subst d'.
  destruct (try_formats_source _ _ _ T) as (fmt & Hin & Hf).
  exists p, m, fmt. split; [left; reflexivity|]. auto.
Qed.

(** X1: whatever the text, date extraction does not raise, and a date it
    returns is a valid calendar date at midnight (year 1 to 9999, month 1
    to 12, a day the month has in that year), read by one of the six
    formats from a piece of the text. *)
Theorem extracted_date_is_valid_and_from_text text :
  match _extract_date U text with
  | Return (Some d) =>
    valid_date d
    /\ exists s fmt, piece_of s text /\ In fmt date_formats
                     /\ strptime U s fmt = Return d
  | Return None => True
  | Raise _ => False
  end.
Proof.
  destruct (date_loop_returns U date_patterns text) as (r & E).
  unfold _extract_date. rewrite E. destruct r as [d|]; [|exact I].
  destruct (date_loop_source _ _ _ E) as (p & m & fmt & _ & Hs & Hin & Hf).
  split; [exact (strptime_valid _ _ _ Hf)|].
  exists (m_group0 m), fmt. split; [|auto].
  apply (re_search_pieces U false p text m Hs).
Qed.

(** A date pattern begins with at least one digit. *)
Lemma digits_first_needs_digit ic lo hi r' before rest m :
  (1 <= lo)%nat ->
  match_at U ic (Cat (Rep a_digit lo hi) r') before rest = Some m ->
  exists c rest', rest = c :: rest' /\ isdecimal U c = true.
Proof.
  unfold match_at. intros Hlo H.
  destruct (rmatch U ic _ _ Some) as [st'|] eqn:E; [|discriminate].
  cbn [rmatch ms_before ms_rest ms_groups] in E.
  apply rep_greedy_taken in E.
  destruct E as (taken & rest' & -> & F & L & _ & _).
  destruct taken as [|c taken]; [simpl in L; lia|].
  exists c, (taken ++ rest'). split; [reflexivity|].
  cbn [forallb] in F. apply andb_true_iff in F. exact (proj1 F).
Qed.

Lemma date_search_needs_digit p s m :
  In p date_patterns ->
  re_search U false p s = Some m ->
  existsb (isdecimal U) s = true.
Proof.
  intros Hin H. unfold re_search in H. apply search_from_text in H.
  destruct H as (pre & post & -> & H).
  assert (D : exists c rest', post = c :: rest' /\ isdecimal U c = true).
  { unfold date_patterns in Hin. cbn [In] in Hin.
    destruct Hin as [<-|[<-|[<-|[]]]];
      (refine (digits_first_needs_digit false _ _ _ _ _ _ _ H); lia). }
  destruct D as (c & rest' & -> & Dc).
  rewrite existsb_app. cbn [existsb]. rewrite Dc. apply orb_true_r.
Qed.

Lemma no_digit_no_date text :
  existsb (isdecimal U) text = false -> _extract_date U text = Return None.
Proof.
  intros N. apply date_loop_None. intros p m Hin Hs.
  pose proof (date_search_needs_digit p text m Hin Hs). congruence.
Qed.

End DateFacts.

(** ** Amounts *)

Section AmountFacts.
Context (U : unicode_db).

Lemma Decimal_of_str_plain s a :
  Decimal_of_str U s = Return a ->
  d_negative a = false /\ (d_exponent a <= 0)%Z.
Proof.
  unfold Decimal_of_str. destruct (span_digits (isdecimal U) s) as [ip rest].
  destruct rest as [|c fp].
  - destruct (nonempty ip); [|discriminate].
    intros H; inversion H; subst; simpl. split; [reflexivity|lia].
  - destruct ((c =? 46) && forallb (isdecimal U) fp && (nonempty ip || nonempty fp));
      [|discriminate].
    intros H; inversion H; subst; simpl. split; [reflexivity|lia].
Qed.

(** Where a result of the loop over the patterns comes from. *)
Lemma pattern_loop_source pats s d :
  pattern_loop U pats s = Return (Some d) ->
  exists p c m g a,
    In (p, c) pats /\ re_search U true p s = Some m
    /\ group "1" m = Some g
    /\ Decimal_of_str U (remove_commas g) = Return a
    /\ d = amount_dict a c.
Proof.
  induction pats as [|[p c] pats IH]; cbn [pattern_loop]; [discriminate|].
  assert (Next : pattern_loop U pats s = Return (Some d) ->
                 exists p0 c0 m g a,
                   In (p0, c0) ((p, c) :: pats)
                   /\ re_search U true p0 s = Some m
                   /\ group "1" m = Some g
                   /\ Decimal_of_str U (remove_commas g) = Return a
                   /\ d = amount_dict a c0).
  { intros H. destruct (IH H) as (p0 & c0 & m & g & a & Hin & Hrest).
    exists p0, c0, m, g, a. split; [right; exact Hin|exact Hrest]. }
  destruct (re_search U true p s) as [m|] eqn:E; [|exact Next].
  destruct (group "1" m) as [g|] eqn:G; [|discriminate].
  destruct (Decimal_of_str U (remove_commas g)) as [a|e] eqn:D; [|exact Next].
  intros H; inversion H; subst d.
  exists p, c, m, g, a. split; [left; reflexivity|]. auto.
Qed.

Lemma line_loop_source cond lines d :
  line_loop U cond lines = Return (Some d) ->
  exists line,
    In line lines /\ cond (lower U line) = true
    /\ pattern_loop U currency_patterns line = Return (Some d).
Proof.
  induction lines as [|line lines IH]; cbn [line_loop]; [discriminate|].
  assert (Next : line_loop U cond lines = Return (Some d) ->
                 exists l, In l (line :: lines) /\ cond (lower U l) = true
                   /\ pattern_loop U currency_patterns l = Return (Some d)).
  { intros H. destruct (IH H) as (l & Hin & Hrest).
    exists l. split; [right; exact Hin|exact Hrest]. }
  destruct (cond (lower U line)) eqn:C; [|exact Next].
  destruct (pattern_loop U currency_patterns line) as [[d'|]|e] eqn:P;
    cbn [bind]; [|exact Next|discriminate].
  intros H; inversion H; subst d'. exists line.
  split; [left; reflexivity|]. auto.
Qed.

Lemma piece_of_refl (s : str) : piece_of s s.
Proof. exists [], []. rewrite app_nil_r. reflexivity. Qed.

(** A non-empty result of amount extraction comes from the loop over the
    patterns on a line of the text or on the whole text. *)
Lemma extract_amount_source text d :
  _extract_amount_and_currency U text = Return d ->
  d = [] \/ exists s, piece_of s text
                      /\ pattern_loop U currency_patterns s = Return (Some d).
Proof.
  unfold _extract_amount_and_currency.
  destruct (line_loop U first_pass_cond (split_lines text)) as [[d1|]|e] eqn:L1;
    cbn [bind]; [| |discriminate].
  { intros H; inversion H; subst d1. right.
    destruct (line_loop_source _ _ _ L1) as (l & Hin & _ & P).
    exists l. split; [apply split_lines_pieces; exact Hin|exact P]. }
  destruct (line_loop U second_pass_cond (split_lines text)) as [[d2|]|e] eqn:L2;
    cbn [bind]; [| |discriminate].
  { intros H; inversion H; subst d2. right.
    destruct (line_loop_source _ _ _ L2) as (l & Hin & _ & P).
    exists l. split; [apply split_lines_pieces; exact Hin|exact P]. }
  destruct (pattern_loop U currency_patterns text) as [[d3|]|e] eqn:P3;
    cbn [bind]; [| |discriminate].
  { intros H; inversion H; subst d3. right.
    exists text. split; [apply piece_of_refl|exact P3]. }
  intros H; inversion H. left; reflexivity.
Qed.

(** X2: amount extraction does not raise, and an amount it returns is read
    off the text: it is the decimal of a number (digits and commas, at most
    one point, with at least one digit) that stands in the text, commas
    dropped.  It is never negative and its exponent is never positive,
    whatever sign or exponent the text shows around the number. *)
Theorem amount_is_read_off_the_text text :
  exists d,
    _extract_amount_and_currency U text = Return d
    /\ (d = []
        \/ exists a c g,
             d = amount_dict a c
             /\ piece_of g text
             /\ number_text U g
             /\ existsb (isdecimal U) g = true
             /\ Decimal_of_str U (remove_commas g) = Return a
             /\ d_negative a = false
             /\ (d_exponent a <= 0)%Z).
Proof.
  destruct (extract_amount_returns U text) as (d & E & _).
  exists d. split; [exact E|].
  destruct (extract_amount_source text d E) as [->|(s & Ps & P)]; [left; reflexivity|].
  right. destruct (pattern_loop_source _ _ _ P)
    as (p & c & m & g & a & Hin & Hs & G & D & ->).
  destruct (currency_group_is_number_text U p c s m Hin Hs) as (g' & G' & T).
  rewrite G in G'; inversion G'; subst g'.
  exists a, c, g. split; [reflexivity|].
  split.
  { eapply piece_of_trans; [|exact Ps].
    apply (proj2 (re_search_pieces U true p s m Hs) _ _ G). }
  split; [exact T|].
  split; [apply (Decimal_of_number_text U g T); eauto|].
  split; [exact D|]. exact (Decimal_of_str_plain _ _ D).
Qed.

Lemma no_digit_no_amount text :
  existsb (isdecimal U) text = false ->
  _extract_amount_and_currency U text = Return [].
Proof.
  intros N. destruct (extract_amount_returns U text) as (d & E & _).
  rewrite E. destruct (extract_amount_source text d E) as [->|(s & Ps & P)];
    [reflexivity|].
  exfalso. destruct (pattern_loop_source _ _ _ P)
    as (p & c & m & g & a & Hin & Hs & G & D & _).
  destruct (currency_group_is_number_text U p c s m Hin Hs) as (g' & G' & T).
  rewrite G in G'; inversion G'; subst g'.
  assert (Pg : piece_of g text).
  { eapply piece_of_trans; [|exact Ps].
    apply (proj2 (re_search_pieces U true p s m Hs) _ _ G). }
  pose proof (piece_has_no_more _ _ _ Pg N) as Ng.
  assert (Dg : existsb (isdecimal U) g = true)
    by (apply (Decimal_of_number_text U g T); eauto).
  congruence.
Qed.

(** X3: a text without a decimal digit gives neither a date nor an amount:
    date extraction returns absent and amount extraction the empty
    dictionary, whatever currency signs and keywords the text holds. *)
Theorem no_digit_no_date_no_amount text :
  existsb (isdecimal U) text = false ->
  _extract_date U text = Return None
  /\ _extract_amount_and_currency U text = Return [].
Proof.
  intros N. split; [apply no_digit_no_date|apply no_digit_no_amount]; exact N.
Qed.

Lemma pass_hit_false cond l :
  pass_hit U cond l = false ->
  cond (lower U l) = false
  \/ pattern_loop U currency_patterns l = Return None.
Proof.
  unfold pass_hit. intros H.
  destruct (cond (lower U l)); [right|left; reflexivity].
  destruct (pattern_loop_returns U currency_patterns l currency_patterns_bind)
    as (r & E & _).
  rewrite E in *. destruct r; [discriminate|reflexivity].
Qed.

Lemma line_loop_first_hit cond pre l post d :
  Forall (fun x => pass_hit U cond x = false) pre ->
  cond (lower U l) = true ->
  pattern_loop U currency_patterns l = Return (Some d) ->
  line_loop U cond (pre ++ l :: post) = Return (Some d).
Proof.
  intros Hpre C P. rewrite line_loop_skip.
  - cbn [line_loop]. rewrite C, P. reflexivity.
  - eapply Forall_impl; [|exact Hpre]. apply pass_hit_false.
Qed.

Lemma line_loop_no_hit cond lines :
  Forall (fun x => pass_hit U cond x = false) lines ->
  line_loop U cond lines = Return None.
Proof.
  intros H. rewrite <- (app_nil_r lines). rewrite line_loop_skip; [reflexivity|].
  eapply Forall_impl; [|exact H]. apply pass_hit_false.
Qed.

(** X4: the first line that holds "total" without "subtotal" and on which a
    currency pattern yields a decimal decides the amount, whatever stands
    on the other lines: lines with "amount" or "sum", or with a currency
    pattern only, never win over it, before or after. *)
Theorem first_total_line_decides text pre l post d :
  split_lines text = pre ++ l :: post ->
  Forall (fun x => pass_hit U first_pass_cond x = false) pre ->
  first_pass_cond (lower U l) = true ->
  pattern_loop U currency_patterns l = Return (Some d) ->
  _extract_amount_and_currency U text = Return d.
Proof.
  intros Hs Hpre C P. unfold _extract_amount_and_currency.
  rewrite Hs, (line_loop_first_hit _ _ _ _ _ Hpre C P). reflexivity.
Qed.

(** X5: when the first pass stops on no line, the first line that holds one
    of the six total keywords and on which a currency pattern yields a
    decimal decides the amount: a currency pattern matching earlier in the
    text, on a line without keyword, does not. *)
Theorem first_keyword_line_decides text pre l post d :
  split_lines text = pre ++ l :: post ->
  Forall (fun x => pass_hit U first_pass_cond x = false) (split_lines text) ->
  Forall (fun x => pass_hit U second_pass_cond x = false) pre ->
  second_pass_cond (lower U l) = true ->
  pattern_loop U currency_patterns l = Return (Some d) ->
  _extract_amount_and_currency U text = Return d.
Proof.
  intros Hs H1 Hpre C P. unfold _extract_amount_and_currency.
  rewrite (line_loop_no_hit _ _ H1). cbn [bind].
  rewrite Hs, (line_loop_first_hit _ _ _ _ _ Hpre C P). reflexivity.
Qed.

End AmountFacts.

(** ** Items *)

Section ItemFacts.
Context (U : unicode_db).

Lemma search_from_step ic r before rest :
  matched (search_from U ic r before rest)
  = matched (match_at U ic r before rest)
    || match rest with
       | [] => false
       | c :: rest' => matched (search_from U ic r (c :: before) rest')
       end.
Proof.
  destruct rest as [|c rest]; cbn [search_from];
    destruct (match_at U ic r before _); reflexivity.
Qed.

Lemma match_at_literal w before rest :
  matched (match_at U false (literal w) before rest) = startswith w rest.
Proof.
  unfold match_at. rewrite rmatch_literal. cbn [ms_rest].
  destruct (startswith w rest); reflexivity.
Qed.

(** Searching for a literal is the substring test. *)
Lemma search_literal_contains w : forall rest before,
  matched (search_from U false (literal w) before rest) = contains w rest.
Proof.
  induction rest as [|c rest IH]; intros before;
    rewrite search_from_step, match_at_literal.
  - destruct w; reflexivity.
  - rewrite IH. destruct w; reflexivity.
Qed.

Lemma match_at_alt ic r1 r2 before rest :
  matched (match_at U ic (Alt r1 r2) before rest)
  = matched (match_at U ic r1 before rest)
    || matched (match_at U ic r2 before rest).
Proof.
  unfold match_at. cbn [rmatch].
  destruct (rmatch U ic r1 _ Some); [reflexivity|].
  destruct (rmatch U ic r2 _ Some); reflexivity.
Qed.

(** Searching for an alternative is searching for either side. *)
Lemma search_alt ic r1 r2 : forall rest before,
  matched (search_from U ic (Alt r1 r2) before rest)
  = matched (search_from U ic r1 before rest)
    || matched (search_from U ic r2 before rest).
Proof.
  induction rest as [|c rest IH]; intros before;
    rewrite (search_from_step ic (Alt r1 r2)), (search_from_step ic r1),
            (search_from_step ic r2), match_at_alt.
  - rewrite !orb_false_r. reflexivity.
  - rewrite IH.
    destruct (matched (match_at U ic r1 before (c :: rest)));
      destruct (matched (match_at U ic r2 before (c :: rest)));
      destruct (matched (search_from U ic r1 (c :: before) rest));
      reflexivity.
Qed.

Lemma totals_search_is_substring_test s :
  matched (re_search U false totals_regex s)
  = existsb (fun w => contains w s) item_stop_words.
Proof.
  unfold re_search.
  change totals_regex
    with (Alt (literal (py "total"))
              (Alt (literal (py "amount"))
                   (Alt (literal (py "合計")) (literal (py "總計"))))).
  rewrite !search_alt, !search_literal_contains.
  unfold item_stop_words. cbn [map existsb]. rewrite orb_false_r. reflexivity.
Qed.

Lemma items_loop_filter lines : forall acc,
  items_loop U lines acc = acc ++ filter (item_kept U) (map (strip U) lines).
Proof.
  induction lines as [|line lines IH]; intros acc; cbn [items_loop map filter].
  - rewrite app_nil_r. reflexivity.
  - unfold item_kept at 1. rewrite <- totals_search_is_substring_test.
    destruct ((2 <? len (strip U line))
              && negb (matched (re_match U false leading_date (strip U line)))
              && negb (matched (re_search U false totals_regex
                                          (lower U (strip U line))))).
    + rewrite IH, <- app_assoc. reflexivity.
    + apply IH.
Qed.

(** X6: the items are the trimmed lines of the text that are longer than 2
    characters, do not start like a date and hold none of "total",
    "amount", "合計" and "總計" in any case, in the order of the text, cut
    after the tenth. *)
Theorem items_are_the_first_10_kept_lines text :
  _extract_items U text
  = firstn 10 (filter (item_kept U) (map (strip U) (split_lines text))).
Proof. unfold _extract_items. rewrite items_loop_filter. reflexivity. Qed.

Lemma in_firstn_filter {A} (f : A -> bool) (l : list A) : forall i n x,
  nth_error l i = Some x -> f x = true -> (i < n)%nat ->
  In x (firstn n (filter f l)).
Proof.
  induction l as [|a l IH]; intros i n x Hn Fx Hi.
  - destruct i; discriminate.
  - destruct n as [|n]; [lia|]. destruct i as [|i]; simpl in Hn.
    + inversion Hn; subst a. simpl. rewrite Fx. left; reflexivity.
    + simpl. destruct (f a).
      * right. apply (IH i n x Hn Fx). lia.
      * apply (IH i (S n) x Hn Fx). lia.
Qed.

Lemma existsb_skip_words_total_amount (low : str) :
  existsb (fun word => contains word low) skip_words = false ->
  contains (py "total") low = false /\ contains (py "amount") low = false.
Proof.
  unfold skip_words. cbn [map existsb]. intros H.
  repeat (apply orb_false_iff in H; destruct H as [? H]). auto.
Qed.

(** X7: the merchant is also an item.  When merchant extraction returns a
    line and that line holds neither "合計" nor "總計", the same line is
    among the items. *)
Theorem merchant_is_among_items text m :
  _extract_merchant U text = Some m ->
  contains (py "合計") (lower U m) = false ->
  contains (py "總計") (lower U m) = false ->
  In m (_extract_items U text).
Proof.
  intros Hm H1 H2. unfold _extract_merchant in Hm.
  rewrite merchant_loop_find in Hm.
  pose proof (find_first (merchant_survives U)
                (map (strip U) (firstn 5 (split_lines text)))) as F.
  rewrite Hm in F. destruct F as (i & Hi & Sm & _).
  apply nth_error_window in Hi. destruct Hi as (Hi & raw & Hraw & Em).
  unfold _extract_items. rewrite items_loop_filter. cbn [app].
  apply (in_firstn_filter _ _ i).
  - rewrite nth_error_map, Hraw. simpl. rewrite Em. reflexivity.
  - unfold merchant_survives in Sm. unfold item_kept.
    apply andb_true_iff in Sm. destruct Sm as [Sm _].
    apply andb_true_iff in Sm. destruct Sm as [Sm _].
    apply andb_true_iff in Sm. destruct Sm as [Sm W].
    apply andb_true_iff in Sm. destruct Sm as [L D].
    rewrite L, D. cbn [andb].
    apply negb_true_iff in W.
    apply existsb_skip_words_total_amount in W. destruct W as [T A].
    unfold item_stop_words. cbn [map existsb]. rewrite T, A, H1, H2.
    reflexivity.
  - lia.
Qed.

End ItemFacts.

(** * Further properties of the classifier *)

Section TableFacts.

Lemma str_eqb_refl a : str_eqb a a = true.
Proof. apply str_eqb_eq. reflexivity. Qed.

Lemma table_mem_set name k v t :
  table_mem name (table_set k v t) = str_eqb k name || table_mem name t.
Proof.
  unfold table_mem. destruct (str_eqb k name) eqn:E.
  - apply str_eqb_eq in E; subst. rewrite table_get_set_same. reflexivity.
  - apply str_eqb_neq in E. rewrite (table_get_set_other name k v t E).
    reflexivity.
Qed.

Lemma table_mem_In name t : table_mem name t = true <-> In name (table_keys t).
Proof.
  split; [|apply table_mem_keys].
  unfold table_mem. induction t as [|[k v] t IH]; simpl; [discriminate|].
  destruct (str_eqb k name) eqn:E.
  - apply str_eqb_eq in E. auto.
  - intros H. right. apply IH. exact H.
Qed.

(** The keys of [{**a, **b}]: those of [a] in their order, then the keys
    of [b] that [a] lacks, in the order of [b]. *)
Lemma table_keys_merge b : forall a,
  table_wf b ->
  table_keys (table_merge a b)
  = table_keys a ++ filter (fun k => negb (table_mem k a)) (table_keys b).
Proof.
  unfold table_merge, table_wf.
  induction b as [|[k v] b IH]; intros a Hwf; simpl.
  - rewrite app_nil_r. reflexivity.
  - inversion Hwf as [|? ? Hnotin Hwf']; subst.
    rewrite IH by exact Hwf'. cbn [fst snd]. rewrite table_keys_set.
    assert (F : filter (fun x => negb (table_mem x (table_set k v a)))
                       (table_keys b)
                = filter (fun x => negb (table_mem x a)) (table_keys b)).
    { apply filter_ext_in. intros x Hx. rewrite table_mem_set.
      destruct (str_eqb k x) eqn:E; [|reflexivity].
      apply str_eqb_eq in E; subst x. contradiction. }
    rewrite F. destruct (table_mem k a); cbn [negb]; [reflexivity|].
    rewrite <- app_assoc. reflexivity.
Qed.

Lemma table_merge_wf a b : table_wf a -> table_wf b -> table_wf (table_merge a b).
Proof.
  intros Ha Hb. unfold table_wf. rewrite table_keys_merge by exact Hb.
  apply NoDup_app; [exact Ha | apply NoDup_filter; exact Hb |].
  intros k Hk Hf. apply filter_In in Hf. destruct Hf as [_ Hf].
  apply table_mem_keys in Hk. rewrite Hk in Hf. discriminate.
Qed.

Lemma table_keys_set_present name v t :
  table_mem name t = true -> table_keys (table_set name v t) = table_keys t.
Proof. intros M. rewrite table_keys_set, M. reflexivity. Qed.

End TableFacts.

(** X8: the order in which categories are consulted and listed.  The table
    the classifier iterates holds the custom names first, in the order
    they were added, then the default names no custom category took; the
    listing of [get_all_categories] holds the default names first, then
    the custom names that are not default names.  Neither holds a name
    twice. *)
Theorem category_order self :
  config_wf self ->
  table_keys (all_categories self)
    = table_keys (custom_categories self)
      ++ filter (fun k => negb (table_mem k (custom_categories self)))
                (table_keys (default_categories self))
  /\ table_keys (get_all_categories self)
     = table_keys (default_categories self)
       ++ filter (fun k => negb (table_mem k (default_categories self)))
                 (table_keys (custom_categories self))
  /\ table_wf (all_categories self)
  /\ table_wf (get_all_categories self).
Proof.
  intros [Hd Hc]. unfold all_categories, get_all_categories.
  repeat split; try (apply table_keys_merge; assumption);
    apply table_merge_wf; assumption.
Qed.

Lemma add_custom_category_tables self name kws ms n :
  config_wf self ->
  table_get n (get_all_categories (add_custom_category self name kws ms))
    = (if str_eqb name n then Some {| keywords := kws; merchants := ms |}
       else table_get n (get_all_categories self))
  /\ table_get n (all_categories (add_custom_category self name kws ms))
     = (if str_eqb name n && negb (table_mem n (default_categories self))
        then Some {| keywords := kws; merchants := ms |}
        else table_get n (all_categories self))
  /\ config_wf (add_custom_category self name kws ms)
  /\ default_categories (add_custom_category self name kws ms)
     = default_categories self.
Proof.
  intros [Hd Hc]. unfold get_all_categories, all_categories.
  cbn [add_custom_category default_categories custom_categories].
  assert (Hc' : table_wf (table_set name {| keywords := kws; merchants := ms |}
                                    (custom_categories self)))
    by (apply table_set_wf; exact Hc).
  split; [|split; [|split; [split; assumption|reflexivity]]].
  - rewrite !table_get_merge by assumption.
    destruct (str_eqb name n) eqn:E.
    + apply str_eqb_eq in E; subst n. rewrite table_get_set_same. reflexivity.
    + apply str_eqb_neq in E. rewrite (table_get_set_other n name _ _ E).
      reflexivity.
  - rewrite !table_get_merge by assumption. unfold table_mem.
    destruct (table_get n (default_categories self)) as [r|];
      [rewrite andb_false_r; reflexivity|]. cbn [negb]. rewrite andb_true_r.
    destruct (str_eqb name n) eqn:E.
    + apply str_eqb_eq in E; subst n. apply table_get_set_same.
    + apply str_eqb_neq in E. apply (table_get_set_other n name _ _ E).
Qed.

(** X9: what [add_custom_category] changes.  In the listing the name maps
    to the new rule and every other name to what it mapped to before; in
    the table the classifier iterates the name maps to the new rule only
    if it is not a default name, and no other name changes.  The
    configuration stays a pair of dictionaries and the default table is
    untouched. *)
Theorem add_custom_category_lookup self name kws ms n :
  config_wf self ->
  table_get n (get_all_categories (add_custom_category self name kws ms))
    = (if str_eqb name n then Some {| keywords := kws; merchants := ms |}
       else table_get n (get_all_categories self))
  /\ table_get n (all_categories (add_custom_category self name kws ms))
     = (if str_eqb name n && negb (table_mem n (default_categories self))
        then Some {| keywords := kws; merchants := ms |}
        else table_get n (all_categories self))
  /\ config_wf (add_custom_category self name kws ms)
  /\ default_categories (add_custom_category self name kws ms)
     = default_categories self.
Proof. apply add_custom_category_tables. Qed.

Section ClassifierFacts.
Context (U : unicode_db).

Lemma rule_loop_step cat config rules m t :
  rule_loop U ((cat, config) :: rules) m t
  = if rule_hits U config m t then Some cat else rule_loop U rules m t.
Proof.
  cbn [rule_loop]. unfold rule_hits.
  destruct (merchant_hit U config m); reflexivity.
Qed.

Lemma rule_loop_key tbl m t c :
  rule_loop U tbl m t = Some c -> In c (table_keys tbl).
Proof.
  induction tbl as [|[k r] tbl IH]; [discriminate|].
  rewrite rule_loop_step. simpl.
  destruct (rule_hits U r m t).
  - intros H; inversion H. left; reflexivity.
  - intros H. right. apply IH. exact H.
Qed.

Lemma categorize_receipt_cases self r :
  categorize_receipt U self r
  = if classifiable r
    then match rule_loop U (all_categories self) (merchant_of U r) (text_of U r) with
         | Some cat => cat
         | None => py "Other"
         end
    else py "Other".
Proof.
  unfold categorize_receipt, classifiable, merchant_of, text_of.
  destruct (truthy (merchant r)); destruct (truthy (raw_text r)); reflexivity.
Qed.

Lemma categorize_receipt_label self r :
  config_wf self ->
  categorize_receipt U self r = py "Other"
  \/ In (categorize_receipt U self r)
        (table_keys (custom_categories self)
         ++ table_keys (default_categories self)).
Proof.
  intros [Hd Hc]. rewrite categorize_receipt_cases.
  destruct (classifiable r); [|left; reflexivity].
  destruct (rule_loop U (all_categories self) (merchant_of U r) (text_of U r))
    as [c|] eqn:E; [|left; reflexivity].
  right. apply rule_loop_key in E. unfold all_categories in E.
  rewrite table_keys_merge in E by exact Hd.
  apply in_app_iff in E. apply in_app_iff. destruct E as [E|E]; [left; exact E|].
  right. apply filter_In in E. exact (proj1 E).
Qed.

(** X10: the label the classifier returns is "Other" or the name of a
    category of the configuration, custom or default, whatever the
    receipt. *)
Theorem category_is_other_or_known self r :
  config_wf self ->
  categorize_receipt U self r = py "Other"
  \/ In (categorize_receipt U self r)
        (table_keys (custom_categories self)
         ++ table_keys (default_categories self)).
Proof. apply categorize_receipt_label. Qed.

(** In a dictionary, the first name in order whose rule fires is returned. *)
Lemma rule_loop_first_hit m t : forall tbl ks1 k ks2 r,
  table_wf tbl ->
  table_keys tbl = ks1 ++ k :: ks2 ->
  (forall k' r', In k' ks1 -> table_get k' tbl = Some r' ->
                 rule_hits U r' m t = false) ->
  table_get k tbl = Some r ->
  rule_hits U r m t = true ->
  rule_loop U tbl m t = Some k.
Proof.
  induction tbl as [|[k0 r0] tbl IH]; intros ks1 k ks2 r Hwf Hk Hpre Hg Hh.
  - destruct ks1; discriminate.
  - rewrite rule_loop_step. unfold table_wf in Hwf. simpl in Hwf, Hk.
    inversion Hwf as [|? ? Hnotin Hwf']; subst.
    destruct ks1 as [|k1 ks1]; simpl in Hk; injection Hk as Hk0 H2; subst k0.
    + simpl in Hg. rewrite str_eqb_refl in Hg. inversion Hg; subst r0.
      rewrite Hh. reflexivity.
    + assert (H0 : rule_hits U r0 m t = false).
      { apply (Hpre k1); [left; reflexivity|].
        simpl. rewrite str_eqb_refl. reflexivity. }
      rewrite H0.
      assert (Other : forall x, In x (table_keys tbl) -> str_eqb k1 x = false).
      { intros x Hx. apply str_eqb_neq. intros ->. contradiction. }
      apply (IH ks1 k ks2 r Hwf' H2).
      * intros k' r' Hin Hg'. apply (Hpre k'); [right; exact Hin|].
        simpl. rewrite Other; [exact Hg'|].
        rewrite H2. apply in_or_app. left; exact Hin.
      * simpl in Hg. rewrite Other in Hg; [exact Hg|].
        rewrite H2. apply in_or_app. right; left; reflexivity.
      * exact Hh.
Qed.

Lemma rule_loop_None_no_hit m t : forall tbl k r,
  rule_loop U tbl m t = None ->
  table_get k tbl = Some r -> rule_hits U r m t = false.
Proof.
  induction tbl as [|[k0 r0] tbl IH]; intros k r H Hg; [discriminate|].
  rewrite rule_loop_step in H. simpl in Hg.
  destruct (rule_hits U r0 m t) eqn:E; [discriminate|].
  destruct (str_eqb k0 k); [inversion Hg; subst; exact E|].
  eapply IH; eauto.
Qed.

(** X11: a new custom category comes before the default ones.  A new
    custom category, whose name is neither a default nor a custom name yet,
    gets every receipt with a merchant or a text on which its rule fires,
    provided that, for every custom name there is already, the rule the
    classifier consults under that name does not fire: this is the rule
    the merged table holds for the name, so the default rule when the name
    is also a default name, and the custom rule otherwise.  Whether the
    rules of the other default categories would fire does not matter. *)
Theorem new_custom_category_precedes_defaults self name kws ms r :
  config_wf self ->
  table_mem name (default_categories self) = false ->
  table_mem name (custom_categories self) = false ->
  classifiable r = true ->
  rule_hits U {| keywords := kws; merchants := ms |}
            (merchant_of U r) (text_of U r) = true ->
  (forall k rule, In k (table_keys (custom_categories self)) ->
                  table_get k (all_categories self) = Some rule ->
                  rule_hits U rule (merchant_of U r) (text_of U r) = false) ->
  categorize_receipt U (add_custom_category self name kws ms) r = name.
Proof.
  intros Hwf Md Mc Hc Hh Hpre.
  destruct (add_custom_category_tables self name kws ms name Hwf)
    as (_ & Gn & Hwf' & _).
  rewrite categorize_receipt_cases, Hc.
  rewrite (rule_loop_first_hit _ _ (all_categories (add_custom_category self name kws ms))
             (table_keys (custom_categories self)) name
             (filter (fun k => negb (table_mem k
                        (custom_categories (add_custom_category self name kws ms))))
                     (table_keys (default_categories self)))
             {| keywords := kws; merchants := ms |}); [reflexivity| | | | |exact Hh].
  - destruct Hwf' as [Hd' Hc']. apply table_merge_wf; assumption.
  - destruct Hwf' as [Hd' Hc']. unfold all_categories.
    rewrite table_keys_merge by exact Hd'.
    cbn [add_custom_category custom_categories default_categories].
    rewrite table_keys_set, Mc, <- app_assoc. reflexivity.
  - intros k rule Hin Hg. apply (Hpre k rule Hin).
    destruct (add_custom_category_tables self name kws ms k Hwf) as (_ & Gk & _).
    rewrite Gk in Hg.
    assert (E : str_eqb name k = false).
    { apply str_eqb_neq. intros ->. apply table_mem_keys in Hin. congruence. }
    rewrite E in Hg. exact Hg.
  - rewrite Gn, str_eqb_refl, Md. reflexivity.
Qed.

End ClassifierFacts.

(** * The file name gate *)

Section FileNames.
Import FileHandler.

Lemma rfind_from_cases c s : forall i,
  (0 <= i)%Z ->
  (~ In c s /\ rfind_from c s i = (-1)%Z)
  \/ exists pre post,
       s = pre ++ c :: post /\ ~ In c post
       /\ rfind_from c s i = (i + Z.of_nat (List.length pre))%Z.
Proof.
  induction s as [|x s IH]; intros i Hi; cbn [rfind_from].
  - left. split; [intros []|reflexivity].
  - destruct (IH (i + 1)%Z ltac:(lia)) as [(N & E)|(pre & post & -> & N & E)];
      rewrite E.
    + change (0 <=? -1)%Z with false. cbn iota.
      destruct (x =? c) eqn:X.
      * apply N.eqb_eq in X; subst x. right. exists [], s.
        repeat split; [exact N|simpl; lia].
      * left. split; [|reflexivity]. apply N.eqb_neq in X.
        intros [H|H]; [congruence|contradiction].
    + assert (P : (0 <=? i + 1 + Z.of_nat (List.length pre))%Z = true)
        by (apply Z.leb_le; lia).
      rewrite P. right. exists (x :: pre), post.
      repeat split; [exact N|]. cbn [List.length]. lia.
Qed.

Lemma last_occurrence_unique (c : codepoint) : forall pre pre' post post',
  pre ++ c :: post = pre' ++ c :: post' ->
  ~ In c post -> ~ In c post' -> pre = pre'.
Proof.
  induction pre as [|x pre IH]; intros [|y pre'] post post' E N N'; simpl in E.
  - reflexivity.
  - exfalso. inversion E; subst. apply N. apply in_or_app. right; left; reflexivity.
  - exfalso. inversion E; subst. apply N'. apply in_or_app. right; left; reflexivity.
  - inversion E; subst. f_equal. eapply IH; eauto.
Qed.

Lemma rfind_last c pre post :
  ~ In c post -> rfind c (pre ++ c :: post) = Z.of_nat (List.length pre).
Proof.
  intros N. unfold rfind.
  destruct (rfind_from_cases c (pre ++ c :: post) 0%Z ltac:(lia))
    as [(N' & _)|(pre' & post' & E & N' & ->)].
  - exfalso. apply N'. apply in_or_app. right; left; reflexivity.
  - rewrite (last_occurrence_unique c _ _ _ _ E N N'). lia.
Qed.

Lemma rfind_none c s : ~ In c s -> rfind c s = (-1)%Z.
Proof.
  intros N. unfold rfind.
  destruct (rfind_from_cases c s 0%Z ltac:(lia))
    as [(_ & E)|(pre & post & -> & _ & _)]; [exact E|].
  exfalso. apply N. apply in_or_app. right; left; reflexivity.
Qed.

(** The loop over the leading dots looks for a character that is not a
    dot in the stretch of [p] from [a] on, [n] characters long. *)
Lemma past_leading_dots_stretch p : forall n a,
  (a + n <= List.length p)%nat ->
  past_leading_dots p (Z.of_nat a) (Z.of_nat (a + n)) n
  = existsb (fun x => negb (x =? 46)) (firstn n (skipn a p)).
Proof.
  induction n as [|n IH]; intros a Hlen; [reflexivity|].
  cbn [past_leading_dots].
  assert (L : (Z.of_nat a <? Z.of_nat (a + S n))%Z = true)
    by (apply Z.ltb_lt; lia).
  rewrite L. unfold slice1. rewrite Nat2Z.id.
  destruct (skipn a p) as [|x rest] eqn:Sk.
  - exfalso. assert (List.length (skipn a p) = 0%nat) by (rewrite Sk; reflexivity).
    rewrite length_skipn in H. lia.
  - assert (S' : skipn (S a) p = rest).
    { replace (S a) with (1 + a)%nat by lia.
      rewrite <- skipn_skipn, Sk. reflexivity. }
    cbn [firstn existsb]. unfold str_eqb.
    destruct (list_eq_dec N.eq_dec [x] [46]) as [E|E].
    + inversion E; subst x. cbn [negb orb].
      replace (Z.of_nat a + 1)%Z with (Z.of_nat (S a)) by lia.
      replace (a + S n)%nat with (S a + n)%nat by lia.
      rewrite IH by lia. rewrite S'. reflexivity.
    + destruct (x =? 46) eqn:X; [|reflexivity].
      apply N.eqb_eq in X; subst x. contradiction.
Qed.

Lemma supported_In ext : supported ext = true <-> In ext SUPPORTED_EXTENSIONS.
Proof.
  unfold supported. rewrite existsb_exists. split.
  - intros (e & Hin & E). apply str_eqb_eq in E; subst. exact Hin.
  - intros Hin. exists ext. split; [exact Hin|apply str_eqb_eq; reflexivity].
Qed.

(** A supported extension is a dot followed by characters that are neither
    dots nor slashes. *)
Lemma supported_shape ext :
  In ext SUPPORTED_EXTENSIONS ->
  exists letters, ext = 46 :: letters /\ ~ In 46 letters /\ ~ In 47 ext.
Proof.
  unfold SUPPORTED_EXTENSIONS. cbn [map In].
  intros [<-|[<-|[<-|[<-|[<-|[<-|[]]]]]]]; eexists;
    (split; [vm_compute; reflexivity|]);
    split; vm_compute; intuition discriminate.
Qed.

Lemma splitext_of_image_name dir base ext :
  (dir = [] \/ exists d, dir = d ++ [47]) ->
  ~ In 47 base ->
  (exists c, In c base /\ c <> 46) ->
  In ext SUPPORTED_EXTENSIONS ->
  splitext (dir ++ base ++ ext) = (dir ++ base, ext).
Proof.
  intros Hdir Hbase (c & Hc & Cdot) Hext.
  destruct (supported_shape ext Hext) as (letters & -> & Nd & Ns).
  unfold splitext.
  assert (Dot : rfind 46 (dir ++ base ++ 46 :: letters)
                = Z.of_nat (List.length (dir ++ base))).
  { rewrite app_assoc. apply rfind_last. exact Nd. }
  assert (Sep : rfind 47 (dir ++ base ++ 46 :: letters)
                = (Z.of_nat (List.length dir) - 1)%Z).
  { destruct Hdir as [->|(d & ->)].
    - rewrite rfind_none; [reflexivity|]. simpl.
      intros H. apply in_app_or in H. tauto.
    - rewrite <- app_assoc. cbn [app]. rewrite rfind_last.
      + rewrite length_app. cbn [List.length]. unfold codepoint. lia.
      + intros H. apply in_app_or in H. tauto. }
  rewrite Dot, Sep, length_app.
  assert (L : (Z.of_nat (List.length dir) - 1
               <? Z.of_nat (List.length dir + List.length base))%Z = true)
    by (apply Z.ltb_lt; lia).
  rewrite L. cbn [andb].
  replace (Z.of_nat (List.length dir) - 1 + 1)%Z
    with (Z.of_nat (List.length dir)) by lia.
  replace (Z.to_nat (Z.of_nat (List.length dir + List.length base)
                     - Z.of_nat (List.length dir)))
    with (List.length base) by lia.
  rewrite past_leading_dots_stretch
    by (rewrite !length_app; lia).
  rewrite skipn_app, skipn_all, PeanoNat.Nat.sub_diag. cbn [app skipn].
  rewrite firstn_app, firstn_all, PeanoNat.Nat.sub_diag. cbn [firstn]. rewrite app_nil_r.
  assert (E : existsb (fun x => negb (x =? 46)) base = true).
  { apply existsb_exists. exists c. split; [exact Hc|].
    apply negb_true_iff. apply N.eqb_neq. exact Cdot. }
  rewrite E, Nat2Z.id.
  rewrite <- length_app, app_assoc, firstn_app, firstn_all, PeanoNat.Nat.sub_diag.
  cbn [firstn]. rewrite app_nil_r.
  rewrite skipn_app, skipn_all, PeanoNat.Nat.sub_diag. reflexivity.
Qed.

Lemma split_at_earlier (x y : codepoint) : forall pre2 post2 pre post,
  pre2 ++ x :: post2 = pre ++ y :: post ->
  (List.length pre2 < List.length pre)%nat ->
  exists mid, pre = pre2 ++ x :: mid /\ post2 = mid ++ y :: post.
Proof.
  induction pre2 as [|a pre2 IH]; intros post2 pre post E L.
  - destruct pre as [|b pre]; [simpl in L; lia|].
    simpl in E. inversion E; subst. exists pre. auto.
  - destruct pre as [|b pre]; [simpl in L; lia|].
    simpl in E. inversion E; subst.
    destruct (IH post2 pre post H1 ltac:(simpl in L; lia)) as (mid & -> & ->).
    exists mid. auto.
Qed.

Lemma existsb_not_dot (base : str) :
  existsb (fun x => negb (x =? 46)) base = true ->
  exists c, In c base /\ c <> 46.
Proof.
  intros H. apply existsb_exists in H. destruct H as (c & Hc & N).
  exists c. split; [exact Hc|]. apply negb_true_iff in N.
  apply N.eqb_neq. exact N.
Qed.

Lemma image_name_of_splitext p :
  supported (snd (splitext p)) = true -> image_name p.
Proof.
  unfold splitext.
  destruct (rfind_from_cases 46 p 0%Z ltac:(lia))
    as [(_ & Ed)|(pre & post & Ep & Nd & Ed)]; fold (rfind 46 p) in Ed;
    rewrite Ed;
    destruct (rfind_from_cases 47 p 0%Z ltac:(lia))
      as [(Ns & Es)|(pre2 & post2 & Ep2 & Ns & Es)]; fold (rfind 47 p) in Es;
    rewrite Es.
  - cbn. discriminate.
  - assert (L : (0 + Z.of_nat (List.length pre2) <? -1)%Z = false)
      by (apply Z.ltb_ge; lia).
    rewrite L. cbn. discriminate.
  - (* a dot and no slash *)
    assert (L : (-1 <? 0 + Z.of_nat (List.length pre))%Z = true)
      by (apply Z.ltb_lt; lia).
    rewrite L. cbn [andb].
    replace (-1 + 1)%Z with (Z.of_nat 0) by lia.
    replace (0 + Z.of_nat (List.length pre))%Z
      with (Z.of_nat (0 + List.length pre)) by lia.
    replace (Z.to_nat (Z.of_nat (0 + List.length pre) - Z.of_nat 0))
      with (List.length pre) by lia.
    rewrite past_leading_dots_stretch
      by (subst p; rewrite length_app; simpl; lia).
    cbn [skipn]. subst p. rewrite firstn_app, firstn_all, PeanoNat.Nat.sub_diag.
    cbn [firstn]. rewrite app_nil_r.
    destruct (existsb (fun x => negb (x =? 46)) pre) eqn:E;
      [|cbn; discriminate].
    cbn [snd]. rewrite Nat2Z.id. cbn [Nat.add].
    rewrite skipn_app, skipn_all, PeanoNat.Nat.sub_diag. cbn [app skipn].
    intros S. apply supported_In in S.
    exists [], pre, (46 :: post). split; [reflexivity|].
    split; [left; reflexivity|]. split.
    { intros H. apply Ns. apply in_or_app. left; exact H. }
    split; [apply existsb_not_dot; exact E|exact S].
  - (* a dot and a slash *)
    destruct (0 + Z.of_nat (List.length pre2) <? 0 + Z.of_nat (List.length pre))%Z
      eqn:L; [|cbn; discriminate].
    apply Z.ltb_lt in L. cbn [andb].
    assert (E2 : pre2 ++ 47 :: post2 = pre ++ 46 :: post)
      by (transitivity p; [symmetry; exact Ep2 | exact Ep]).
    destruct (split_at_earlier 47 46 pre2 post2 pre post E2 ltac:(lia))
      as (mid & Emid & Epost2).
    replace (0 + Z.of_nat (List.length pre2) + 1)%Z
      with (Z.of_nat (S (List.length pre2))) by lia.
    replace (0 + Z.of_nat (List.length pre))%Z
      with (Z.of_nat (S (List.length pre2) + List.length mid))
      by (subst pre; rewrite length_app; cbn [List.length]; lia).
    replace (Z.to_nat (Z.of_nat (S (List.length pre2) + List.length mid)
                       - Z.of_nat (S (List.length pre2))))
      with (List.length mid) by lia.
    assert (P : p = (pre2 ++ [47]) ++ mid ++ 46 :: post).
    { rewrite Ep, Emid, <- !app_assoc. reflexivity. }
    assert (Len : S (List.length pre2) = List.length (pre2 ++ [47]))
      by (rewrite length_app; cbn [List.length]; lia).
    rewrite past_leading_dots_stretch
      by (rewrite P, !length_app; cbn [List.length]; lia).
    rewrite Len, P.
    rewrite skipn_app, skipn_all, PeanoNat.Nat.sub_diag. cbn [app skipn].
    rewrite firstn_app, firstn_all, PeanoNat.Nat.sub_diag.
    cbn [firstn]. rewrite app_nil_r.
    destruct (existsb (fun x => negb (x =? 46)) mid) eqn:E;
      [|cbn; discriminate].
    cbn [snd]. rewrite Nat2Z.id, <- length_app, app_assoc.
    rewrite skipn_app, skipn_all, PeanoNat.Nat.sub_diag. cbn [app skipn].
    intros S. apply supported_In in S.
    exists (pre2 ++ [47]), mid, (46 :: post).
    split; [rewrite <- app_assoc; reflexivity|].
    split; [right; exists pre2; reflexivity|]. split.
    { intros H. apply Ns. rewrite Epost2. apply in_or_app. left; exact H. }
    split; [apply existsb_not_dot; exact E|exact S].
Qed.

(** X14: which file names the upload accepts.  [is_valid_image] holds
    exactly for a name whose lower-cased form ends in one of the six
    extensions, right after a last path component that holds a character
    other than a dot.  So "PHOTO.JPG" and "a.b/c.d.png" pass, while a
    missing or empty name, a name with no extension, a double extension
    such as "x.jpg.exe" and a bare ".jpg" do not. *)
Theorem valid_image_names U filename :
  is_valid_image U filename = true
  <-> exists f, filename = Some f /\ image_name (lower U f).
Proof.
  unfold is_valid_image. split.
  - destruct filename as [[|c name]|]; try discriminate.
    intros H. exists (c :: name). split; [reflexivity|].
    apply image_name_of_splitext. exact H.
  - intros (f & -> & (dir & base & ext & E & Hdir & Hbase & Hc & Hext)).
    destruct f as [|c name].
    + exfalso. change (lower U []) with (@nil codepoint) in E.
      destruct Hc as (x & Hx & _).
      destruct dir; [destruct base; [destruct Hx|discriminate]|discriminate].
    + rewrite E, splitext_of_image_name by assumption.
      apply supported_In. exact Hext.
Qed.

End FileNames.

(** * The service layer *)

Section BlankText.
Context (U : unicode_db).

Lemma ascii_space_facts c :
  ascii_space c = true -> isspace U c = true /\ isdecimal U c = false.
Proof.
  unfold ascii_space, isspace, isdecimal. intros H.
  apply andb_true_iff in H. destruct H as [A S]. rewrite A, S.
  split; [reflexivity|]. unfold in_range in *.
  apply orb_true_iff in S.
  destruct (48 <=? c) eqn:L; [|reflexivity]. apply N.leb_le in L.
  exfalso. destruct S as [S|S]; apply andb_true_iff in S; destruct S as [_ S];
    apply N.leb_le in S; lia.
Qed.

Lemma forallb_piece (f : codepoint -> bool) (l s : str) :
  piece_of l s -> forallb f s = true -> forallb f l = true.
Proof.
  intros (pre & post & ->) H. rewrite !forallb_app in H.
  apply andb_true_iff in H. destruct H as [_ H].
  apply andb_true_iff in H. tauto.
Qed.

Lemma strip_blank l : forallb ascii_space l = true -> strip U l = [].
Proof.
  intros H. unfold strip.
  assert (D : dropwhile (isspace U) l = []).
  { induction l as [|c l IH]; [reflexivity|]. cbn [forallb] in H.
    apply andb_true_iff in H. destruct H as [Hc H]. cbn [dropwhile].
    rewrite (proj1 (ascii_space_facts c Hc)). auto. }
  rewrite D. reflexivity.
Qed.

Lemma blank_no_digit text :
  forallb ascii_space text = true -> existsb (isdecimal U) text = false.
Proof.
  induction text as [|c text IH]; [reflexivity|]. cbn [forallb existsb].
  intros H. apply andb_true_iff in H. destruct H as [Hc H].
  rewrite (proj2 (ascii_space_facts c Hc)), (IH H). reflexivity.
Qed.

Lemma merchant_loop_blank lines :
  Forall (fun l => strip U l = []) lines -> merchant_loop U lines = None.
Proof.
  induction 1 as [|l lines Hl _ IH]; [reflexivity|].
  cbn [merchant_loop]. rewrite Hl. exact IH.
Qed.

Lemma filter_blank lines :
  Forall (fun l => strip U l = []) lines ->
  filter (item_kept U) (map (strip U) lines) = [].
Proof.
  induction 1 as [|l lines Hl _ IH]; [reflexivity|].
  cbn [map filter]. rewrite Hl, IH. reflexivity.
Qed.

Lemma In_firstn {A} (x : A) : forall n l, In x (firstn n l) -> In x l.
Proof.
  induction n as [|n IH]; intros [|a l]; simpl; try tauto.
  intros [H|H]; [left; exact H | right; apply IH; exact H].
Qed.

(** X15: a blank scan gives an empty receipt.  On a text made of ASCII
    white space only (spaces, tabs, line ends; the empty text too)
    interpretation returns the receipt with every field absent and no
    item. *)
Theorem blank_text_gives_empty_receipt text :
  forallb ascii_space text = true ->
  _parse_receipt_text U text = Return empty_receipt.
Proof.
  intros B. pose proof (blank_no_digit text B) as N.
  assert (Lines : Forall (fun l => strip U l = []) (split_lines text)).
  { apply Forall_forall. intros l Hin. apply strip_blank.
    apply (forallb_piece _ l text); [apply split_lines_pieces; exact Hin|exact B]. }
  unfold _parse_receipt_text.
  rewrite (no_digit_no_date U text N). cbn [bind].
  rewrite (no_digit_no_amount U text N). cbn [bind].
  unfold _extract_merchant, _extract_items.
  rewrite merchant_loop_blank.
  - rewrite items_loop_filter, (filter_blank _ Lines). reflexivity.
  - apply Forall_forall. intros l Hin. apply In_firstn in Hin.
    rewrite Forall_forall in Lines. auto.
Qed.

End BlankText.

Section ServiceFacts.
Context (U : unicode_db) (R : rendering).
Context (text_detection : bytes -> fallible vision_response).

Lemma extract_receipt_data_done image_content response :
  text_detection image_content = Done response ->
  error_message response = [] ->
  exists parsed,
    _parse_receipt_text U (first_text response) = Return parsed
    /\ extract_receipt_data U R text_detection image_content
       = Done (set_raw_text parsed (first_text response)).
Proof.
  intros T E. unfold extract_receipt_data, _extract_text. rewrite T, E.
  cbn [nonempty]. fold (first_text response).
  destruct (parse_receipt_text_returns U (first_text response))
    as (d & info & _ & _ & P).
  assert (X : (match text_annotations response with
               | [] => Done []
               | description :: _ => Done description
               end : fallible str) = Done (first_text response)).
  { unfold first_text. destruct (text_annotations response); reflexivity. }
  rewrite X, P. eexists. split; reflexivity.
Qed.

(** X16: what [extract_receipt_data] returns.  When the Vision service
    answers without an error message, the call succeeds, whatever the
    text: the receipt is the interpretation of the first annotation (of
    the empty text if there is none) and keeps that text as [raw_text].
    Otherwise it raises an exception whose message starts with
    "OCR processing failed: ", followed by "Vision API error: " and the
    message of the service, or by the text of the exception the call to
    the service raised. *)
Theorem extract_receipt_data_cases image_content :
  match text_detection image_content with
  | Done response =>
    match error_message response with
    | [] =>
      exists parsed,
        _parse_receipt_text U (first_text response) = Return parsed
        /\ extract_receipt_data U R text_detection image_content
           = Done (set_raw_text parsed (first_text response))
    | c :: msg =>
      extract_receipt_data U R text_detection image_content
      = Failed (Exception_ (py "OCR processing failed: "
                            ++ py "Vision API error: " ++ c :: msg))
    end
  | Failed e =>
    extract_receipt_data U R text_detection image_content
    = Failed (Exception_ (py "OCR processing failed: " ++ str_of_raised R e))
  end.
Proof.
  destruct (text_detection image_content) as [response|e] eqn:T.
  - destruct (error_message response) as [|c msg] eqn:E.
    + apply extract_receipt_data_done; assumption.
    + unfold extract_receipt_data, _extract_text. rewrite T, E. reflexivity.
  - unfold extract_receipt_data, _extract_text. rewrite T. reflexivity.
Qed.

End ServiceFacts.

(** * The upload *)

Section UploadFacts.
Import Main.
Context (U : unicode_db) (R : rendering).
Context (text_detection : bytes -> fallible vision_response).
Context (category_config : CategoryConfig.t).

Lemma result_for_named file name :
  uf_filename file = Some name ->
  Main.result_for U R text_detection category_config file
  = Done match Main.process U R text_detection category_config file with
         | Done d => {| filename := name; status := py "success";
                        data := Some d; error := None |}
         | Failed e => {| filename := name; status := py "error";
                          data := None; error := Some (str_of_raised R e) |}
         end.
Proof.
  intros N. unfold Main.result_for. rewrite N.
  destruct (Main.process U R text_detection category_config file); reflexivity.
Qed.

Lemma result_for_unnamed file :
  uf_filename file = None -> Main.result_for U R text_detection category_config file = Failed ValidationError.
Proof.
  intros N. unfold Main.result_for, Main.process. rewrite N. reflexivity.
Qed.

Lemma upload_loop_named : forall files acc,
  Forall (fun f => uf_filename f <> None) files ->
  exists rs,
    Main.upload_loop U R text_detection category_config files acc = Done (acc ++ rs)
    /\ Forall2 (fun f r => Main.result_for U R text_detection category_config f = Done r) files rs
    /\ map (fun r => Some (filename r)) rs = map uf_filename files.
Proof.
  induction files as [|f files IH]; intros acc H.
  - exists []. rewrite app_nil_r. repeat split; constructor.
  - inversion H as [|? ? Hf Hfs]; subst.
    destruct (uf_filename f) as [name|] eqn:N; [|contradiction].
    cbn [Main.upload_loop]. rewrite (result_for_named f name N).
    destruct (IH (acc ++ [match Main.process U R text_detection category_config f with
                          | Done d => {| filename := name; status := py "success";
                                         data := Some d; error := None |}
                          | Failed e => {| filename := name; status := py "error";
                                           data := None;
                                           error := Some (str_of_raised R e) |}
                          end]) Hfs) as (rs & E & F2 & M).
    eexists (_ :: rs). rewrite E, <- app_assoc. split; [reflexivity|].
    split.
    + constructor; [apply (result_for_named f name N)|exact F2].
    + cbn [map]. rewrite M, N. f_equal.
      destruct (Main.process U R text_detection category_config f); reflexivity.
Qed.

Lemma upload_loop_unnamed : forall files acc,
  Exists (fun f => uf_filename f = None) files ->
  Main.upload_loop U R text_detection category_config files acc = Failed ValidationError.
Proof.
  induction files as [|f files IH]; intros acc H; [inversion H|].
  cbn [Main.upload_loop].
  destruct (uf_filename f) as [name|] eqn:N.
  - rewrite (result_for_named f name N). apply IH.
    inversion H as [? ? Hf|? ? Hfs]; subst; [congruence|exact Hfs].
  - rewrite (result_for_unnamed f N). reflexivity.
Qed.

(** X17: one record per file.  When every uploaded file has a name, the
    upload returns one record per file, in the order of the files, each
    under the name of its file, whatever reading, OCR or classification
    did.  When a file has no name, no list is returned: building the
    error record for it raises the validation error, which nothing
    catches. *)
Theorem upload_gives_one_record_per_file files :
  (Forall (fun f => uf_filename f <> None) files ->
   exists results,
     Main.upload_receipts U R text_detection category_config files = Done results
     /\ map (fun r => Some (filename r)) results = map uf_filename files)
  /\ (Exists (fun f => uf_filename f = None) files ->
      Main.upload_receipts U R text_detection category_config files = Failed ValidationError).
Proof.
  split.
  - intros H. destruct (upload_loop_named files [] H) as (rs & E & _ & M).
    exists rs. split; [exact E|exact M].
  - apply upload_loop_unnamed.
Qed.

(** X18: the file type gate.  For a file whose name [is_valid_image]
    refuses, the record is an error that carries the text of the
    [HTTPException] with status 400 and detail "Invalid file type: "
    followed by the name.  Neither the content of the file nor the Vision
    service has a part in it: the file is not read and no OCR runs. *)
Theorem invalid_file_type_is_reported file name :
  uf_filename file = Some name ->
  FileHandler.is_valid_image U (Some name) = false ->
  Main.result_for U R text_detection category_config file
  = Done {| filename := name; status := py "error"; data := None;
            error := Some (str_of_http R 400
                             (py "Invalid file type: " ++ name)) |}.
Proof.
  intros N V. rewrite (result_for_named file name N).
  unfold Main.process. rewrite N, V. reflexivity.
Qed.

Lemma extract_receipt_data_inv image_content d :
  extract_receipt_data U R text_detection image_content = Done d ->
  exists response parsed,
    text_detection image_content = Done response
    /\ _parse_receipt_text U (first_text response) = Return parsed
    /\ d = set_raw_text parsed (first_text response).
Proof.
  intros H.
  destruct (text_detection image_content) as [response|e] eqn:T.
  - destruct (error_message response) as [|c msg] eqn:E.
    + destruct (extract_receipt_data_done U R text_detection _ _ T E)
        as (parsed & P & D).
      rewrite D in H. inversion H; subst. eauto.
    + unfold extract_receipt_data, _extract_text in H. rewrite T, E in H.
      discriminate.
  - unfold extract_receipt_data, _extract_text in H. rewrite T in H.
    discriminate.
Qed.

Lemma process_done file d :
  config_wf category_config ->
  Main.process U R text_detection category_config file = Done d ->
  exists c t, category d = Some c /\ known_label category_config c
              /\ raw_text d = Some t /\ (List.length (items d) <= 10)%nat.
Proof.
  intros Hwf. unfold Main.process.
  destruct (negb _); [discriminate|].
  destruct (uf_read file) as [content|e]; [|discriminate].
  destruct (extract_receipt_data U R text_detection content) as [x|e] eqn:X;
    [|discriminate].
  intros H; inversion H; subst d; clear H.
  destruct (extract_receipt_data_inv _ _ X) as (response & parsed & _ & P & ->).
  eexists _, (first_text response). split; [reflexivity|].
  split; [apply (categorize_receipt_label U category_config _ Hwf)|].
  split; [reflexivity|]. cbn [set_category set_raw_text items].
  destruct (parse_receipt_text_returns U (first_text response))
    as (dd & info & _ & _ & P').
  rewrite P in P'. inversion P'; subst parsed. cbn [items].
  unfold _extract_items. apply firstn_le_length.
Qed.

Lemma result_for_well_formed file r :
  config_wf category_config ->
  Main.result_for U R text_detection category_config file = Done r -> well_formed_result category_config r.
Proof.
  intros Hwf H. destruct (uf_filename file) as [name|] eqn:N.
  - rewrite (result_for_named file name N) in H. inversion H; subst r; clear H.
    destruct (Main.process U R text_detection category_config file) as [d|e] eqn:P.
    + left. destruct (process_done file d Hwf P) as (c & t & C & K & T & L).
      cbn [status error data]. repeat split. exists d, c, t. auto.
    + right. cbn [status error data]. repeat split. eauto.
  - rewrite (result_for_unnamed file N) in H. discriminate.
Qed.

Lemma upload_loop_inv : forall files acc rs,
  Main.upload_loop U R text_detection category_config files acc = Done rs ->
  exists rs', rs = acc ++ rs'
              /\ Forall2 (fun f r => Main.result_for U R text_detection category_config f = Done r) files rs'.
Proof.
  induction files as [|f files IH]; intros acc rs; cbn [Main.upload_loop].
  - intros H; inversion H; subst. exists []. rewrite app_nil_r.
    split; [reflexivity|constructor].
  - destruct (Main.result_for U R text_detection category_config f) as [r|e] eqn:E; [|discriminate].
    intros H. destruct (IH _ _ H) as (rs' & -> & F2).
    exists (r :: rs'). rewrite <- app_assoc. split; [reflexivity|].
    constructor; assumption.
Qed.

(** X19: the records of an upload have one of two shapes.  A record with
    status "success" carries no error and a receipt whose category is set
    to "Other" or to the name of a category of the configuration, whose
    [raw_text] is set and which has at most 10 items; a record with status
    "error" carries a message and no receipt. *)
Theorem upload_records_are_well_formed files results :
  config_wf category_config ->
  Main.upload_receipts U R text_detection category_config files = Done results ->
  Forall (well_formed_result category_config) results.
Proof.
  intros Hwf H. apply upload_loop_inv in H.
  destruct H as (rs & -> & F2). cbn [app].
  induction F2 as [|f r files rs Hr _ IH]; constructor; [|exact IH].
  apply (result_for_well_formed f r Hwf Hr).
Qed.

End UploadFacts.

(** * Dates written in full *)

Section WrittenDates.
Context (U : unicode_db).

Lemma digit_range n : 48 <= digit n <= 57.
Proof.
  unfold digit, codepoint.
  pose proof (N.mod_upper_bound n 10 ltac:(lia)).
  generalize dependent (n mod 10). intros. lia.
Qed.

Lemma digit_isdecimal n : isdecimal U (digit n) = true.
Proof.
  pose proof (digit_range n). unfold isdecimal, is_ascii, in_range.
  replace (digit n <? 128) with true by (symmetry; apply N.ltb_lt; lia).
  apply andb_true_iff. split; apply N.leb_le; lia.
Qed.

Lemma digit_value n : decimal_value U (digit n) = n mod 10.
Proof.
  pose proof (digit_range n). unfold decimal_value, is_ascii.
  replace (digit n <? 128) with true by (symmetry; apply N.ltb_lt; lia).
  unfold digit, codepoint. rewrite N.add_comm. apply N.add_sub.
Qed.

Lemma digit_isspace n : isspace U (digit n) = false.
Proof.
  pose proof (digit_range n). unfold isspace, is_ascii, in_range.
  replace (digit n <? 128) with true by (symmetry; apply N.ltb_lt; lia).
  apply orb_false_iff. split; apply andb_false_iff.
  - right. apply N.leb_gt. lia.
  - right. apply N.leb_gt. lia.
Qed.

Lemma two_digits_value n :
  n <= 99 -> 10 * (10 * 0 + (n / 10) mod 10) + n mod 10 = n.
Proof.
  intros H.
  assert (E1 := N.div_mod n 10 ltac:(lia)).
  assert (L1 : n / 10 < 10) by (apply N.Div0.div_lt_upper_bound; lia).
  rewrite (N.mod_small (n / 10) 10 L1).
  remember (n / 10) as q1. remember (n mod 10) as r1. lia.
Qed.

Lemma four_digits_value n :
  n <= 9999 ->
  10 * (10 * (10 * (10 * 0 + (n / 1000) mod 10) + (n / 100) mod 10)
        + (n / 10) mod 10) + n mod 10 = n.
Proof.
  intros H.
  assert (E1 := N.div_mod n 10 ltac:(lia)).
  assert (E2 := N.div_mod (n / 10) 10 ltac:(lia)).
  assert (E3 := N.div_mod (n / 100) 10 ltac:(lia)).
  rewrite N.Div0.div_div in E2. change (10 * 10) with 100 in E2.
  rewrite N.Div0.div_div in E3. change (100 * 10) with 1000 in E3.
  assert (L : n / 1000 < 10) by (apply N.Div0.div_lt_upper_bound; lia).
  rewrite (N.mod_small (n / 1000) 10 L).
  remember (n / 1000) as q3. remember (n / 100) as q2. remember (n / 10) as q1.
  remember (n mod 10) as r1. remember (q1 mod 10) as r2.
  remember (q2 mod 10) as r3. lia.
Qed.

Lemma py_int_two_digits n : n <= 99 -> py_int U (two_digits n) = n.
Proof.
  intros H. unfold py_int, strip, two_digits.
  cbn [dropwhile rev app]. rewrite !digit_isspace. cbn [rev app dropwhile].
  rewrite !digit_isspace. cbn [rev app].
  unfold int_of_digits. cbn [fold_left]. rewrite !digit_value.
  apply two_digits_value; exact H.
Qed.

Lemma py_int_four_digits n : n <= 9999 -> py_int U (four_digits n) = n.
Proof.
  intros H. unfold py_int, strip, four_digits.
  cbn [dropwhile rev app]. rewrite !digit_isspace. cbn [rev app dropwhile].
  rewrite !digit_isspace. cbn [rev app].
  unfold int_of_digits. cbn [fold_left]. rewrite !digit_value.
  apply four_digits_value; exact H.
Qed.


(** Repetitions on digits. *)
Lemma rep_exact {R} (ok : codepoint -> bool) lo (k : str -> str -> option R) :
  forall ds i b rest,
    forallb ok ds = true -> (i + List.length ds = lo)%nat ->
    rep_greedy ok lo (Some lo) i b (ds ++ rest) k = k (rev ds ++ b) rest.
Proof.
  induction ds as [|c ds IH]; intros i b rest F L.
  - simpl in L. rewrite PeanoNat.Nat.add_0_r in L. subst i. cbn [app rev].
    destruct rest as [|c rest]; cbn [rep_greedy below];
      rewrite PeanoNat.Nat.leb_refl; [reflexivity|].
    rewrite PeanoNat.Nat.ltb_irrefl, andb_false_r. reflexivity.
  - cbn [forallb] in F. apply andb_true_iff in F. destruct F as [Fc F].
    cbn [List.length] in L. cbn [app rep_greedy below]. rewrite Fc.
    replace (Nat.ltb i lo) with true
      by (symmetry; apply PeanoNat.Nat.ltb_lt; lia).
    cbn [andb]. rewrite (IH (S i) (c :: b) rest F) by lia.
    replace (Nat.leb lo i) with false
      by (symmetry; apply PeanoNat.Nat.leb_gt; lia).
    cbn [rev]. rewrite <- app_assoc. cbn [app].
    destruct (k (rev ds ++ c :: b) rest); reflexivity.
Qed.

Lemma rep_one_or_two {R} (ok : codepoint -> bool)
    (k : str -> str -> option R) x y b rest r :
  ok x = true -> ok y = true -> k (y :: x :: b) rest = Some r ->
  rep_greedy ok 1 (Some 2%nat) 0 b (x :: y :: rest) k = Some r.
Proof.
  intros Hx Hy Hk. cbn [rep_greedy below]. rewrite Hx, Hy. cbn.
  assert (E : rep_greedy ok 1 (Some 2%nat) 2 (y :: x :: b) rest k = Some r).
  { destruct rest as [|c rest]; cbn [rep_greedy below]; cbn;
      [exact Hk|]. rewrite andb_false_r. exact Hk. }
  rewrite E. reflexivity.
Qed.

Lemma sep_ok s : s = 45 \/ s = 47 -> atom_ok U false sep s = true.
Proof. intros [->| ->]; reflexivity. Qed.

Lemma rep_four {R} (ok : codepoint -> bool) (k : str -> str -> option R)
    c1 c2 c3 c4 b rest :
  ok c1 = true -> ok c2 = true -> ok c3 = true -> ok c4 = true ->
  rep_greedy ok 4 (Some 4%nat) 0 b (c1 :: c2 :: c3 :: c4 :: rest) k
  = k (c4 :: c3 :: c2 :: c1 :: b) rest.
Proof.
  intros H1 H2 H3 H4.
  apply (rep_exact ok 4 k [c1; c2; c3; c4] 0 b rest); [|reflexivity].
  cbn [forallb]. rewrite H1, H2, H3, H4. reflexivity.
Qed.

(** The first date pattern on a date written year first. *)
Lemma iso_match_at s y m d before post :
  s = 45 \/ s = 47 ->
  exists mo,
    match_at U false (nth 0 date_patterns Eps) before (iso_text s y m d ++ post)
    = Some mo
    /\ m_group0 mo = iso_text s y m d.
Proof.
  intros Hs. unfold match_at.
  set (st0 := {| ms_before := before; ms_rest := iso_text s y m d ++ post;
                 ms_groups := [] |}).
  assert (E : rmatch U false (nth 0 date_patterns Eps) st0 Some
              = Some {| ms_before := rev (iso_text s y m d) ++ before;
                        ms_rest := post; ms_groups := [] |}).
  { unfold st0, date_patterns, nth, seq, times. cbn [fold_right rmatch].
    cbn [ms_rest ms_before ms_groups].
    unfold iso_text, four_digits, two_digits. cbn [app rev].
    rewrite rep_four by apply digit_isdecimal.
    rewrite (sep_ok s Hs).
    erewrite rep_one_or_two;
      [reflexivity|apply digit_isdecimal|apply digit_isdecimal|].
    rewrite (sep_ok s Hs).
    erewrite rep_one_or_two;
      [reflexivity|apply digit_isdecimal|apply digit_isdecimal|].
    reflexivity. }
  rewrite E. eexists. split; [reflexivity|].
  cbn [m_group0]. unfold consumed, st0. cbn [ms_before].
  apply rev_firstn_consumed.
Qed.

Lemma search_from_skip ic lo hi r' :
  (1 <= lo)%nat ->
  forall pre before rest,
    existsb (isdecimal U) pre = false ->
    search_from U ic (Cat (Rep a_digit lo hi) r') before (pre ++ rest)
    = search_from U ic (Cat (Rep a_digit lo hi) r') (rev pre ++ before) rest.
Proof.
  intros Hlo. induction pre as [|c pre IH]; intros before rest N;
    [reflexivity|].
  cbn [existsb] in N. apply orb_false_iff in N. destruct N as [Nc N].
  cbn [app search_from].
  destruct (match_at U ic _ before _) as [mo|] eqn:E.
  - apply digits_first_needs_digit in E; [|exact Hlo].
    destruct E as (c' & rest' & E & D). inversion E; subst c'. congruence.
  - rewrite (IH (c :: before) rest N). cbn [rev]. rewrite <- app_assoc.
    reflexivity.
Qed.

Lemma search_from_hit ic r before rest mo :
  match_at U ic r before rest = Some mo ->
  search_from U ic r before rest = Some mo.
Proof. intros H. destruct rest; cbn [search_from]; rewrite H; reflexivity. Qed.

Lemma iso_search s y m d pre post :
  s = 45 \/ s = 47 ->
  existsb (isdecimal U) pre = false ->
  exists mo,
    re_search U false (nth 0 date_patterns Eps) (pre ++ iso_text s y m d ++ post)
    = Some mo
    /\ m_group0 mo = iso_text s y m d.
Proof.
  intros Hs N.
  destruct (iso_match_at s y m d (rev pre ++ []) post Hs) as (mo & E & G).
  exists mo. split; [|exact G]. unfold re_search.
  change (nth 0 date_patterns Eps)
    with (Cat (Rep a_digit 4 (Some 4%nat))
              (seq [One sep; times a_digit 1 2; One sep; times a_digit 1 2]))
    in *.
  rewrite search_from_skip by (auto; lia).
  apply search_from_hit. exact E.
Qed.


Lemma make_datetime_ok y m d :
  1 <= y <= 9999 -> 1 <= m <= 12 -> 1 <= d <= days_in_month y m ->
  make_datetime y m d = Return (ymd y m d).
Proof.
  intros [Y1 Y2] [M1 M2] [D1 D2]. unfold make_datetime, in_range.
  apply N.leb_le in Y1, Y2, M1, M2, D1, D2.
  rewrite Y1, Y2, M1, M2, D1, D2. reflexivity.
Qed.

Lemma days_in_month_le y m : days_in_month y m <= 31.
Proof.
  unfold days_in_month.
  repeat match goal with
         | |- context [match ?x with _ => _ end] => destruct x
         end; lia.
Qed.

Lemma consumed_taken taken st st' :
  ms_before st' = rev taken ++ ms_before st -> consumed st st' = taken.
Proof. intros E. unfold consumed. rewrite E. apply rev_firstn_consumed. Qed.

Lemma year_group y b rest g k re :
  directive_regex 89 = Some re ->
  rmatch U true re
    {| ms_before := b; ms_rest := four_digits y ++ rest; ms_groups := g |} k
  = k {| ms_before := rev (four_digits y) ++ b; ms_rest := rest;
         ms_groups := ("Y"%string, four_digits y) :: g |}.
Proof.
  intros Hre. vm_compute in Hre. injection Hre as <-.
  cbn [rmatch ms_rest ms_before ms_groups atom_ok charset_has].
  unfold four_digits. cbn [app rev].
  rewrite rep_four by apply digit_isdecimal.
  rewrite (consumed_taken
             [digit (y / 1000); digit (y / 100); digit (y / 10); digit y]);
    reflexivity.
Qed.

Ltac eval_two_digits :=
  repeat match goal with
         | |- context [two_digits ?n] =>
           let v := eval vm_compute in (two_digits n) in
           change (two_digits n) with v in *
         end.

Lemma pair_group name re x y b rest g k r :
  k {| ms_before := y :: x :: b; ms_rest := rest;
       ms_groups := (name, [x; y]) :: g |} = Some r ->
  (forall k',
      k' {| ms_before := y :: x :: b; ms_rest := rest; ms_groups := g |}
      = Some r ->
      rmatch U true re
        {| ms_before := b; ms_rest := x :: y :: rest; ms_groups := g |} k'
      = Some r) ->
  rmatch U true (Group name re)
    {| ms_before := b; ms_rest := x :: y :: rest; ms_groups := g |} k
  = Some r.
Proof.
  intros Hk Hre. cbn [rmatch]. apply Hre.
  cbn [ms_before ms_rest ms_groups].
  rewrite (consumed_taken [x; y]); [exact Hk|reflexivity].
Qed.

Lemma month_group m b rest g k r re :
  directive_regex 109 = Some re ->
  1 <= m <= 12 ->
  k {| ms_before := rev (two_digits m) ++ b; ms_rest := rest;
       ms_groups := ("m"%string, two_digits m) :: g |} = Some r ->
  rmatch U true re
    {| ms_before := b; ms_rest := two_digits m ++ rest; ms_groups := g |} k
  = Some r.
Proof.
  intros Hre Hm. vm_compute in Hre. injection Hre as <-.
  assert (C : In m [1; 2; 3; 4; 5; 6; 7; 8; 9; 10; 11; 12]).
  { cbn [In]. lia. }
  cbn [In] in C.
  repeat (destruct C as [<-|C]; [|]); [..|destruct C];
    eval_two_digits; cbn [rev app]; intros Hk;
    (apply pair_group; [exact Hk|]); intros k' Hk';
    cbn; rewrite Hk'; reflexivity.
Qed.


Lemma day_group d b rest g k r re :
  directive_regex 100 = Some re ->
  1 <= d <= 31 ->
  k {| ms_before := rev (two_digits d) ++ b; ms_rest := rest;
       ms_groups := ("d"%string, two_digits d) :: g |} = Some r ->
  rmatch U true re
    {| ms_before := b; ms_rest := two_digits d ++ rest; ms_groups := g |} k
  = Some r.
Proof.
  intros Hre Hd. vm_compute in Hre. injection Hre as <-.
  assert (C : In d [1; 2; 3; 4; 5; 6; 7; 8; 9; 10; 11; 12; 13; 14; 15; 16;
                    17; 18; 19; 20; 21; 22; 23; 24; 25; 26; 27; 28; 29; 30;
                    31]).
  { cbn [In]. lia. }
  cbn [In] in C.
  repeat (destruct C as [<-|C]; [|]); [..|destruct C];
    eval_two_digits; cbn [rev app]; intros Hk;
    (apply pair_group; [exact Hk|]); intros k' Hk';
    cbn; rewrite Hk'; reflexivity.
Qed.

(** [strptime] on a date written year first, under the format with the
    same separator. *)
Lemma strptime_iso s y m d :
  s = 45 \/ s = 47 ->
  1 <= y <= 9999 -> 1 <= m <= 12 -> 1 <= d <= days_in_month y m ->
  strptime U (iso_text s y m d) (py "%Y" ++ s :: py "%m" ++ s :: py "%d")
  = Return (ymd y m d).
Proof.
  intros Hs Hy Hm Hd.
  assert (Hd' : 1 <= d <= 31).
  { pose proof (days_in_month_le y m). lia. }
  assert (F : exists Y M D,
             directive_regex 89 = Some Y /\ directive_regex 109 = Some M
             /\ directive_regex 100 = Some D
             /\ format_regex (py "%Y" ++ s :: py "%m" ++ s :: py "%d")
                = Some [Y; One (Chr s); M; One (Chr s); D]).
  { destruct Hs as [-> | ->]; do 3 eexists;
      (split; [vm_compute; reflexivity|]);
      (split; [vm_compute; reflexivity|]);
      (split; [vm_compute; reflexivity|]); vm_compute; reflexivity. }
  destruct F as (Y & M & D & HY & HM & HD & F).
  unfold strptime. rewrite F. clear F. unfold re_match, match_at.
  assert (L : atom_ok U true (Chr s) s = true).
  { cbn [atom_ok]. unfold ci_eq. rewrite N.eqb_refl. reflexivity. }
  assert (E : rmatch U true (seq [Y; One (Chr s); M; One (Chr s); D])
                {| ms_before := []; ms_rest := iso_text s y m d;
                   ms_groups := [] |} Some
              = Some {| ms_before := rev (iso_text s y m d); ms_rest := [];
                        ms_groups := [("d"%string, two_digits d);
                                      ("m"%string, two_digits m);
                                      ("Y"%string, four_digits y)] |}).
  { unfold iso_text. cbn [seq fold_right rmatch].
    rewrite (year_group y _ _ _ _ Y HY).
    cbn [ms_rest ms_before ms_groups]. rewrite L.
    apply (month_group m _ _ _ _ _ M HM Hm).
    cbn [ms_rest ms_before ms_groups]. rewrite L.
    rewrite <- (app_nil_r (two_digits d)).
    apply (day_group d _ _ _ _ _ D HD Hd').
    rewrite !app_nil_r. unfold four_digits, two_digits. reflexivity. }
  rewrite E. cbn [m_end ms_before].
  replace (Nat.eqb (List.length (iso_text s y m d))
                   (List.length (rev (iso_text s y m d)))) with true
    by (rewrite length_rev; symmetry; apply PeanoNat.Nat.eqb_refl).
  cbn [negb]. unfold group_int, group. cbn [m_groups ms_groups].
  cbn [assoc String.eqb Ascii.eqb Bool.eqb option_map].
  rewrite py_int_four_digits, !py_int_two_digits by lia.
  apply make_datetime_ok; assumption.
Qed.

(** The format with a hyphen refuses a date written with slashes. *)
Lemma strptime_iso_other_separator y m d :
  strptime U (iso_text 47 y m d) (py "%Y-%m-%d") = Raise ValueError.
Proof.
  assert (F : exists Y rs,
             directive_regex 89 = Some Y
             /\ format_regex (py "%Y-%m-%d") = Some (Y :: One (Chr 45) :: rs)).
  { do 2 eexists. split; vm_compute; reflexivity. }
  destruct F as (Y & rs & HY & F).
  unfold strptime. rewrite F. unfold re_match, match_at, iso_text.
  cbn [seq fold_right rmatch]. rewrite (year_group y _ _ _ _ Y HY).
  cbn [ms_rest ms_before ms_groups app]. reflexivity.
Qed.

(** X20: a date written year first is read as written.  A text that holds
    a valid date as four digits for the year, two for the month and two
    for the day, with hyphens or with slashes between them, gives that
    date, whatever follows it, when no decimal digit stands before it. *)
Theorem iso_date_is_recovered s y m d pre post :
  s = 45 \/ s = 47 ->
  1 <= y <= 9999 -> 1 <= m <= 12 -> 1 <= d <= days_in_month y m ->
  existsb (isdecimal U) pre = false ->
  _extract_date U (pre ++ iso_text s y m d ++ post)
  = Return (Some (ymd y m d)).
Proof.
  intros Hs Hy Hm Hd N.
  destruct (iso_search s y m d pre post Hs N) as (mo & E & G).
  unfold _extract_date.
  change date_patterns with (nth 0 date_patterns Eps :: tl date_patterns).
  cbn [date_loop]. rewrite E, G.
  pose proof (strptime_iso s y m d Hs Hy Hm Hd) as P.
  destruct Hs as [-> | ->].
  - change date_formats with (py "%Y-%m-%d" :: tl date_formats).
    cbn [try_formats].
    change (py "%Y-%m-%d") with (py "%Y" ++ 45 :: py "%m" ++ 45 :: py "%d").
    rewrite P. reflexivity.
  - change date_formats
      with (py "%Y-%m-%d" :: py "%Y/%m/%d" :: tl (tl date_formats)).
    cbn [try_formats]. rewrite strptime_iso_other_separator.
    change (py "%Y/%m/%d") with (py "%Y" ++ 47 :: py "%m" ++ 47 :: py "%d").
    rewrite P. reflexivity.
Qed.


Lemma forallb_firstn {A} (f : A -> bool) n (l : list A) :
  forallb f l = true -> forallb f (firstn n l) = true.
Proof.
  revert n. induction l as [|x l IH]; intros [|n] H; try reflexivity.
  cbn [forallb firstn] in *. apply andb_true_iff in H. destruct H as [Hx H].
  rewrite Hx, (IH n H). reflexivity.
Qed.

(** A repetition at least [lo] times needs a run of [lo] characters. *)
Lemma rep_greedy_needs_run {R} (ok : codepoint -> bool) lo hi b rest
    (k : str -> str -> option R) :
  forallb ok (firstn lo rest) && Nat.leb lo (List.length rest) = false ->
  rep_greedy ok lo hi 0 b rest k = None.
Proof.
  intros H. destruct (rep_greedy ok lo hi 0 b rest k) as [r|] eqn:E;
    [|reflexivity].
  exfalso. apply rep_greedy_taken in E.
  destruct E as (taken & rest' & -> & F & L & _). cbn [Nat.add] in L.
  rewrite firstn_app in H.
  replace (lo - List.length taken)%nat with 0%nat in H by lia.
  cbn [firstn] in H. rewrite app_nil_r, (forallb_firstn _ _ _ F) in H.
  rewrite length_app in H. cbn [andb] in H.
  apply PeanoNat.Nat.leb_gt in H. lia.
Qed.

Lemma strptime_needs_year_run data f :
  forallb (isdecimal U) (firstn 4 data) && Nat.leb 4 (List.length data) = false ->
  strptime U data (py "%Y" ++ f) = Raise ValueError.
Proof.
  intros H. unfold strptime.
  change (py "%Y" ++ f) with (37 :: 89 :: f). cbn [format_regex].
  change (directive_regex 89) with (Some (Group "Y" (times a_digit 4 4))).
  destruct (format_regex f) as [rs|]; [|reflexivity].
  unfold re_match, match_at, times.
  cbn [seq fold_right rmatch ms_rest ms_before ms_groups atom_ok charset_has
       a_digit].
  rewrite rep_greedy_needs_run by exact H. reflexivity.
Qed.

Lemma day_then_hyphen_fails a b rest g k re :
  directive_regex 100 = Some re ->
  1 <= a <= 31 ->
  rmatch U true re
    {| ms_before := b; ms_rest := two_digits a ++ 47 :: rest; ms_groups := g |}
    (fun st1 => rmatch U true (One (Chr 45)) st1 k)
  = None.
Proof.
  intros Hre Ha. vm_compute in Hre. injection Hre as <-.
  assert (C : In a [1; 2; 3; 4; 5; 6; 7; 8; 9; 10; 11; 12; 13; 14; 15; 16;
                    17; 18; 19; 20; 21; 22; 23; 24; 25; 26; 27; 28; 29; 30;
                    31]).
  { cbn [In]. lia. }
  cbn [In] in C.
  repeat (destruct C as [<-|C]; [|]); [..|destruct C];
    eval_two_digits; cbn -[consumed]; reflexivity.
Qed.

Lemma month_above_12_fails a b rest g k re :
  directive_regex 109 = Some re ->
  13 <= a <= 31 ->
  rmatch U true re
    {| ms_before := b; ms_rest := two_digits a ++ 47 :: rest; ms_groups := g |}
    (fun st1 => rmatch U true (One (Chr 47)) st1 k)
  = None.
Proof.
  intros Hre Ha. vm_compute in Hre. injection Hre as <-.
  assert (C : In a [13; 14; 15; 16; 17; 18; 19; 20; 21; 22; 23; 24; 25; 26;
                    27; 28; 29; 30; 31]).
  { cbn [In]. lia. }
  cbn [In] in C.
  repeat (destruct C as [<-|C]; [|]); [..|destruct C];
    eval_two_digits; cbn -[consumed]; reflexivity.
Qed.


Lemma rep_two {R} (ok : codepoint -> bool) (k : str -> str -> option R)
    c1 c2 b rest :
  ok c1 = true -> ok c2 = true ->
  rep_greedy ok 2 (Some 2%nat) 0 b (c1 :: c2 :: rest) k
  = k (c2 :: c1 :: b) rest.
Proof.
  intros H1 H2.
  apply (rep_exact ok 2 k [c1; c2] 0 b rest); [|reflexivity].
  cbn [forallb]. rewrite H1, H2. reflexivity.
Qed.

(** The second and the third date pattern on a date written year last. *)
Lemma dmy_match_at s a b y before post :
  s = 45 \/ s = 47 ->
  exists mo,
    match_at U false (nth 1 date_patterns Eps) before (dmy_text s a b y ++ post)
    = Some mo
    /\ m_group0 mo = dmy_text s a b y.
Proof.
  intros Hs. unfold match_at.
  set (st0 := {| ms_before := before; ms_rest := dmy_text s a b y ++ post;
                 ms_groups := [] |}).
  assert (E : rmatch U false (nth 1 date_patterns Eps) st0 Some
              = Some {| ms_before := rev (dmy_text s a b y) ++ before;
                        ms_rest := post; ms_groups := [] |}).
  { unfold st0, date_patterns, nth, seq, times. cbn [fold_right rmatch].
    cbn [ms_rest ms_before ms_groups].
    unfold dmy_text, four_digits, two_digits. cbn [app rev].
    erewrite rep_one_or_two;
      [reflexivity|apply digit_isdecimal|apply digit_isdecimal|].
    rewrite (sep_ok s Hs).
    erewrite rep_one_or_two;
      [reflexivity|apply digit_isdecimal|apply digit_isdecimal|].
    rewrite (sep_ok s Hs).
    rewrite rep_four by apply digit_isdecimal.
    reflexivity. }
  rewrite E. eexists. split; [reflexivity|].
  cbn [m_group0]. unfold consumed, st0. cbn [ms_before].
  apply rev_firstn_consumed.
Qed.

Lemma short_match_at s a b y before post :
  s = 45 \/ s = 47 ->
  exists mo rest,
    match_at U false (nth 2 date_patterns Eps) before (dmy_text s a b y ++ post)
    = Some mo
    /\ m_group0 mo = two_digits a ++ s :: rest.
Proof.
  intros Hs. unfold match_at.
  set (st0 := {| ms_before := before; ms_rest := dmy_text s a b y ++ post;
                 ms_groups := [] |}).
  set (short := two_digits a ++ s :: two_digits b
                ++ [s; digit (y / 1000); digit (y / 100)]).
  assert (E : rmatch U false (nth 2 date_patterns Eps) st0 Some
              = Some {| ms_before := rev short ++ before;
                        ms_rest := digit (y / 10) :: digit y :: post;
                        ms_groups := [] |}).
  { unfold st0, short, date_patterns, nth, seq, times. cbn [fold_right rmatch].
    cbn [ms_rest ms_before ms_groups].
    unfold dmy_text, four_digits, two_digits. cbn [app rev].
    erewrite rep_one_or_two;
      [reflexivity|apply digit_isdecimal|apply digit_isdecimal|].
    rewrite (sep_ok s Hs).
    erewrite rep_one_or_two;
      [reflexivity|apply digit_isdecimal|apply digit_isdecimal|].
    rewrite (sep_ok s Hs).
    rewrite rep_two by apply digit_isdecimal.
    reflexivity. }
  rewrite E. eexists. eexists. split; [reflexivity|].
  cbn [m_group0]. unfold consumed, st0. cbn [ms_before].
  rewrite rev_firstn_consumed. unfold short. reflexivity.
Qed.

Lemma date_search_at i lo hi r' pre rest mo :
  nth i date_patterns Eps = Cat (Rep a_digit lo hi) r' ->
  (1 <= lo)%nat ->
  existsb (isdecimal U) pre = false ->
  match_at U false (nth i date_patterns Eps) (rev pre ++ []) rest = Some mo ->
  re_search U false (nth i date_patterns Eps) (pre ++ rest) = Some mo.
Proof.
  intros Ep Hlo N E. unfold re_search. rewrite Ep in *.
  rewrite search_from_skip by assumption.
  apply search_from_hit. exact E.
Qed.

Lemma strptime_dmy a b y :
  1 <= y <= 9999 -> 1 <= b <= 12 -> 1 <= a <= days_in_month y b ->
  strptime U (dmy_text 45 a b y) (py "%d-%m-%Y") = Return (ymd y b a).
Proof.
  intros Hy Hb Ha.
  assert (Ha' : 1 <= a <= 31).
  { pose proof (days_in_month_le y b). lia. }
  assert (F : exists Y M D,
             directive_regex 89 = Some Y /\ directive_regex 109 = Some M
             /\ directive_regex 100 = Some D
             /\ format_regex (py "%d-%m-%Y")
                = Some [D; One (Chr 45); M; One (Chr 45); Y]).
  { do 3 eexists;
      (split; [vm_compute; reflexivity|]);
      (split; [vm_compute; reflexivity|]);
      (split; [vm_compute; reflexivity|]); vm_compute; reflexivity. }
  destruct F as (Y & M & D & HY & HM & HD & F).
  unfold strptime. rewrite F. clear F. unfold re_match, match_at.
  assert (E : rmatch U true (seq [D; One (Chr 45); M; One (Chr 45); Y])
                {| ms_before := []; ms_rest := dmy_text 45 a b y;
                   ms_groups := [] |} Some
              = Some {| ms_before := rev (dmy_text 45 a b y); ms_rest := [];
                        ms_groups := [("Y"%string, four_digits y);
                                      ("m"%string, two_digits b);
                                      ("d"%string, two_digits a)] |}).
  { unfold dmy_text. cbn [seq fold_right rmatch].
    apply (day_group a _ _ _ _ _ D HD Ha').
    cbn [ms_rest ms_before ms_groups].
    apply (month_group b _ _ _ _ _ M HM Hb).
    cbn [ms_rest ms_before ms_groups].
    rewrite <- (app_nil_r (four_digits y)).
    rewrite (year_group y _ _ _ _ Y HY).
    rewrite !app_nil_r. unfold four_digits, two_digits. reflexivity. }
  rewrite E. cbn [m_end ms_before].
  replace (Nat.eqb (List.length (dmy_text 45 a b y))
                   (List.length (rev (dmy_text 45 a b y)))) with true
    by (rewrite length_rev; symmetry; apply PeanoNat.Nat.eqb_refl).
  cbn [negb]. unfold group_int, group. cbn [m_groups ms_groups].
  cbn [assoc String.eqb Ascii.eqb Bool.eqb option_map].
  rewrite py_int_four_digits, !py_int_two_digits by lia.
  apply make_datetime_ok; assumption.
Qed.

Lemma strptime_mdy a b y :
  1 <= y <= 9999 -> 1 <= a <= 12 -> 1 <= b <= days_in_month y a ->
  strptime U (dmy_text 47 a b y) (py "%m/%d/%Y") = Return (ymd y a b).
Proof.
  intros Hy Ha Hb.
  assert (Hb' : 1 <= b <= 31).
  { pose proof (days_in_month_le y a). lia. }
  assert (F : exists Y M D,
             directive_regex 89 = Some Y /\ directive_regex 109 = Some M
             /\ directive_regex 100 = Some D
             /\ format_regex (py "%m/%d/%Y")
                = Some [M; One (Chr 47); D; One (Chr 47); Y]).
  { do 3 eexists;
      (split; [vm_compute; reflexivity|]);
      (split; [vm_compute; reflexivity|]);
      (split; [vm_compute; reflexivity|]); vm_compute; reflexivity. }
  destruct F as (Y & M & D & HY & HM & HD & F).
  unfold strptime. rewrite F. clear F. unfold re_match, match_at.
  assert (E : rmatch U true (seq [M; One (Chr 47); D; One (Chr 47); Y])
                {| ms_before := []; ms_rest := dmy_text 47 a b y;
                   ms_groups := [] |} Some
              = Some {| ms_before := rev (dmy_text 47 a b y); ms_rest := [];
                        ms_groups := [("Y"%string, four_digits y);
                                      ("d"%string, two_digits b);
                                      ("m"%string, two_digits a)] |}).
  { unfold dmy_text. cbn [seq fold_right rmatch].
    apply (month_group a _ _ _ _ _ M HM Ha).
    cbn [ms_rest ms_before ms_groups].
    apply (day_group b _ _ _ _ _ D HD Hb').
    cbn [ms_rest ms_before ms_groups].
    rewrite <- (app_nil_r (four_digits y)).
    rewrite (year_group y _ _ _ _ Y HY).
    rewrite !app_nil_r. unfold four_digits, two_digits. reflexivity. }
  rewrite E. cbn [m_end ms_before].
  replace (Nat.eqb (List.length (dmy_text 47 a b y))
                   (List.length (rev (dmy_text 47 a b y)))) with true
    by (rewrite length_rev; symmetry; apply PeanoNat.Nat.eqb_refl).
  cbn [negb]. unfold group_int, group. cbn [m_groups ms_groups].
  cbn [assoc String.eqb Ascii.eqb Bool.eqb option_map].
  rewrite py_int_four_digits, !py_int_two_digits by lia.
  apply make_datetime_ok; assumption.
Qed.

Lemma strptime_day_hyphen_on_slash a rest f :
  1 <= a <= 31 ->
  strptime U (two_digits a ++ 47 :: rest) (py "%d-" ++ f) = Raise ValueError.
Proof.
  intros Ha. unfold strptime.
  change (py "%d-" ++ f) with (37 :: 100 :: 45 :: f). cbn [format_regex].
  destruct (directive_regex 100) as [D|] eqn:HD; [|reflexivity].
  change (45 =? 37) with false. cbn iota.
  destruct (format_regex f) as [rs|]; [|reflexivity].
  unfold re_match, match_at. cbn [seq fold_right].
  change (rmatch U true (Cat D (Cat (One (Chr 45)) (fold_right Cat Eps rs)))
            {| ms_before := []; ms_rest := two_digits a ++ 47 :: rest;
               ms_groups := [] |} Some)
    with (rmatch U true D
            {| ms_before := []; ms_rest := two_digits a ++ 47 :: rest;
               ms_groups := [] |}
            (fun st1 => rmatch U true (One (Chr 45)) st1
                          (fun st2 => rmatch U true (fold_right Cat Eps rs)
                                             st2 Some))).
  rewrite (day_then_hyphen_fails a _ _ _ _ D HD Ha). reflexivity.
Qed.


Lemma strptime_month_above_12 a rest f :
  13 <= a <= 31 ->
  strptime U (two_digits a ++ 47 :: rest) (py "%m/" ++ f) = Raise ValueError.
Proof.
  intros Ha. unfold strptime.
  change (py "%m/" ++ f) with (37 :: 109 :: 47 :: f). cbn [format_regex].
  destruct (directive_regex 109) as [M|] eqn:HM; [|reflexivity].
  change (47 =? 37) with false. cbn iota.
  destruct (format_regex f) as [rs|]; [|reflexivity].
  unfold re_match, match_at. cbn [seq fold_right].
  change (rmatch U true (Cat M (Cat (One (Chr 47)) (fold_right Cat Eps rs)))
            {| ms_before := []; ms_rest := two_digits a ++ 47 :: rest;
               ms_groups := [] |} Some)
    with (rmatch U true M
            {| ms_before := []; ms_rest := two_digits a ++ 47 :: rest;
               ms_groups := [] |}
            (fun st1 => rmatch U true (One (Chr 47)) st1
                          (fun st2 => rmatch U true (fold_right Cat Eps rs)
                                             st2 Some))).
  rewrite (month_above_12_fails a _ _ _ _ M HM Ha). reflexivity.
Qed.

(** No format that begins with the year reads a text whose third
    character is a separator. *)
Lemma strptime_year_first_on_dmy s a rest f :
  s = 45 \/ s = 47 ->
  strptime U (two_digits a ++ s :: rest) (py "%Y" ++ f) = Raise ValueError.
Proof.
  intros Hs. apply strptime_needs_year_run.
  unfold two_digits. cbn [app firstn forallb].
  replace (isdecimal U s) with false by (destruct Hs as [-> | ->]; reflexivity).
  rewrite !andb_false_r. reflexivity.
Qed.

Lemma try_formats_day_first a b y :
  1 <= y <= 9999 -> 1 <= b <= 12 -> 1 <= a <= days_in_month y b ->
  try_formats U (dmy_text 45 a b y) date_formats = Return (Some (ymd y b a)).
Proof.
  intros Hy Hb Ha.
  change date_formats
    with ((py "%Y" ++ py "-%m-%d") :: (py "%Y" ++ py "/%m/%d")
          :: py "%d-%m-%Y" :: tl (tl (tl date_formats))).
  cbn [try_formats]. unfold dmy_text at 1 2.
  rewrite !strptime_year_first_on_dmy by (left; reflexivity).
  fold (dmy_text 45 a b y). rewrite strptime_dmy by assumption. reflexivity.
Qed.

Lemma try_formats_month_first a b y :
  1 <= y <= 9999 -> 1 <= a <= 12 -> 1 <= b <= days_in_month y a ->
  try_formats U (dmy_text 47 a b y) date_formats = Return (Some (ymd y a b)).
Proof.
  intros Hy Ha Hb.
  change date_formats
    with ((py "%Y" ++ py "-%m-%d") :: (py "%Y" ++ py "/%m/%d")
          :: (py "%d-" ++ py "%m-%Y") :: py "%m/%d/%Y"
          :: tl (tl (tl (tl date_formats)))).
  cbn [try_formats]. unfold dmy_text at 1 2 3.
  rewrite !strptime_year_first_on_dmy by (right; reflexivity).
  rewrite strptime_day_hyphen_on_slash by lia.
  fold (dmy_text 47 a b y). rewrite strptime_mdy by assumption. reflexivity.
Qed.

Lemma try_formats_slash_above_12 a rest :
  13 <= a <= 31 ->
  try_formats U (two_digits a ++ 47 :: rest) date_formats = Return None.
Proof.
  intros Ha.
  change date_formats
    with [py "%Y" ++ py "-%m-%d"; py "%Y" ++ py "/%m/%d";
          py "%d-" ++ py "%m-%Y"; py "%m/" ++ py "%d/%Y";
          py "%d-" ++ py "%m-%y"; py "%m/" ++ py "%d/%y"].
  cbn [try_formats].
  rewrite !strptime_year_first_on_dmy by (right; reflexivity).
  rewrite !strptime_day_hyphen_on_slash by lia.
  rewrite !strptime_month_above_12 by lia.
  reflexivity.
Qed.

Lemma dmy_search s a b y pre post :
  s = 45 \/ s = 47 ->
  existsb (isdecimal U) pre = false ->
  exists mo,
    re_search U false (nth 1 date_patterns Eps) (pre ++ dmy_text s a b y ++ post)
    = Some mo
    /\ m_group0 mo = dmy_text s a b y.
Proof.
  intros Hs N.
  destruct (dmy_match_at s a b y (rev pre ++ []) post Hs) as (mo & E & G).
  exists mo. split; [|exact G].
  refine (date_search_at 1 _ _ _ pre _ mo eq_refl _ N E). lia.
Qed.

Lemma short_search s a b y pre post :
  s = 45 \/ s = 47 ->
  existsb (isdecimal U) pre = false ->
  exists mo rest,
    re_search U false (nth 2 date_patterns Eps) (pre ++ dmy_text s a b y ++ post)
    = Some mo
    /\ m_group0 mo = two_digits a ++ s :: rest.
Proof.
  intros Hs N.
  destruct (short_match_at s a b y (rev pre ++ []) post Hs)
    as (mo & rest & E & G).
  exists mo, rest. split; [|exact G].
  refine (date_search_at 2 _ _ _ pre _ mo eq_refl _ N E). lia.
Qed.

(** X21: with hyphens, a date written year last is read day first.  When
    the pattern with the year first matches nowhere in the text and no
    digit stands before it, [a-b-y] with two, two and four digits gives
    day [a] of month [b]. *)
Theorem hyphen_date_is_read_day_first a b y pre post :
  existsb (isdecimal U) pre = false ->
  no_year_first_date U (pre ++ dmy_text 45 a b y ++ post) ->
  1 <= y <= 9999 -> 1 <= b <= 12 -> 1 <= a <= days_in_month y b ->
  _extract_date U (pre ++ dmy_text 45 a b y ++ post)
  = Return (Some (ymd y b a)).
Proof.
  intros N H0 Hy Hb Ha.
  destruct (dmy_search 45 a b y pre post (or_introl eq_refl) N)
    as (mo & E & G).
  unfold _extract_date.
  change date_patterns
    with (nth 0 date_patterns Eps :: nth 1 date_patterns Eps
          :: tl (tl date_patterns)).
  cbn [date_loop]. rewrite H0, E, G.
  rewrite try_formats_day_first by assumption. reflexivity.
Qed.

(** X22: with slashes, a date written year last is read month first:
    under the same conditions [a/b/y] gives day [b] of month [a]. *)
Theorem slash_date_is_read_month_first a b y pre post :
  existsb (isdecimal U) pre = false ->
  no_year_first_date U (pre ++ dmy_text 47 a b y ++ post) ->
  1 <= y <= 9999 -> 1 <= a <= 12 -> 1 <= b <= days_in_month y a ->
  _extract_date U (pre ++ dmy_text 47 a b y ++ post)
  = Return (Some (ymd y a b)).
Proof.
  intros N H0 Hy Ha Hb.
  destruct (dmy_search 47 a b y pre post (or_intror eq_refl) N)
    as (mo & E & G).
  unfold _extract_date.
  change date_patterns
    with (nth 0 date_patterns Eps :: nth 1 date_patterns Eps
          :: tl (tl date_patterns)).
  cbn [date_loop]. rewrite H0, E, G.
  rewrite try_formats_month_first by assumption. reflexivity.
Qed.

(** X23: with slashes and the day first, no date is read.  When the first
    number is from 13 to 31, so that it can only be a day, [a/b/y] gives
    no date at all, whatever the other two numbers: no format reads the
    full match of the second pattern, nor the shorter match of the
    third. *)
Theorem slash_date_day_first_is_not_read a b y pre post :
  existsb (isdecimal U) pre = false ->
  no_year_first_date U (pre ++ dmy_text 47 a b y ++ post) ->
  13 <= a <= 31 ->
  _extract_date U (pre ++ dmy_text 47 a b y ++ post) = Return None.
Proof.
  intros N H0 Ha.
  destruct (dmy_search 47 a b y pre post (or_intror eq_refl) N)
    as (mo & E & G).
  destruct (short_search 47 a b y pre post (or_intror eq_refl) N)
    as (mo' & rest & E' & G').
  unfold _extract_date.
  change date_patterns
    with [nth 0 date_patterns Eps; nth 1 date_patterns Eps;
          nth 2 date_patterns Eps].
  cbn [date_loop]. rewrite H0, E, G, E', G'. unfold dmy_text.
  rewrite !try_formats_slash_above_12 by assumption. reflexivity.
Qed.


End WrittenDates.

(** * Totals in dollars *)

Section DollarAmounts.
Context (U : unicode_db).

(** A greedy repetition that can take a whole run and go on from there
    does so. *)
Lemma rep_greedy_max {R} (ok : codepoint -> bool) lo hi
    (k : str -> str -> option R) r :
  forall ds i b rest,
    forallb ok ds = true ->
    (lo <= i + List.length ds)%nat ->
    match hi with
    | Some h => (i + List.length ds <= h)%nat
    | None => True
    end ->
    stops ok rest = true \/ hi = Some (i + List.length ds)%nat ->
    k (rev ds ++ b) rest = Some r ->
    rep_greedy ok lo hi i b (ds ++ rest) k = Some r.
Proof.
  induction ds as [|c ds IH]; intros i b rest F L Hh St Hk.
  - cbn [List.length] in *. rewrite PeanoNat.Nat.add_0_r in *.
    cbn [app rev] in *.
    assert (Stop : (if Nat.leb lo i then k b rest else None) = Some r).
    { replace (Nat.leb lo i) with true
        by (symmetry; apply PeanoNat.Nat.leb_le; exact L). exact Hk. }
    destruct rest as [|c rest]; cbn [rep_greedy]; [exact Stop|].
    replace (ok c && below i hi) with false; [exact Stop|].
    symmetry. destruct St as [St| ->].
    + cbn [stops] in St. apply negb_true_iff in St. rewrite St. reflexivity.
    + cbn [below]. rewrite PeanoNat.Nat.ltb_irrefl. apply andb_false_r.
  - cbn [forallb] in F. apply andb_true_iff in F. destruct F as [Fc F].
    cbn [List.length] in *. cbn [app rep_greedy]. rewrite Fc.
    replace (below i hi) with true.
    2:{ destruct hi as [h|]; [|reflexivity]. cbn [below].
        symmetry. apply PeanoNat.Nat.ltb_lt. lia. }
    cbn [andb]. rewrite (IH (S i) (c :: b) rest); [reflexivity|exact F|lia| | |].
    + destruct hi; [lia|exact I].
    + destruct St as [St| ->]; [left; exact St|right; f_equal; lia].
    + cbn [rev] in Hk. rewrite <- app_assoc in Hk. exact Hk.
Qed.

(** Under IGNORECASE a pattern character that is ASCII and no letter
    matches itself only. *)
Lemma ci_eq_symbol c x :
  is_ascii c = true -> ascii_letter c = false -> ci_eq U c x = (x =? c).
Proof.
  intros A L. unfold ci_eq. rewrite A, L. cbn [negb orb andb].
  destruct (x =? c) eqn:E; [reflexivity|]. cbn [orb].
  destruct (is_ascii x); [|reflexivity].
  unfold ascii_letter in L. apply orb_false_iff in L. destruct L as [L1 L2].
  unfold ascii_lower. rewrite L1.
  destruct (in_range 65 90 x) eqn:X; [|exact E].
  apply N.eqb_neq. intros H. subst c.
  unfold in_range in X, L2. apply andb_true_iff in X. destruct X as [X1 X2].
  apply N.leb_le in X1, X2.
  apply andb_false_iff in L2.
  destruct L2 as [L2|L2]; apply N.leb_gt in L2; unfold codepoint in *; lia.
Qed.

Lemma amount_class c :
  atom_ok U true (Cls (CsRanges [(48, 57); (44, 44)])) c
  = in_range 48 57 c || (c =? 44).
Proof.
  cbn [atom_ok charset_has existsb fst snd]. rewrite orb_false_r.
  f_equal. unfold in_range.
  destruct (c =? 44) eqn:E.
  - apply N.eqb_eq in E. subst c. reflexivity.
  - apply N.eqb_neq in E. apply andb_false_iff.
    destruct (44 <=? c) eqn:E1; [right|left; reflexivity].
    apply N.leb_le in E1. apply N.leb_gt. unfold codepoint in *. lia.
Qed.

Lemma amount_char_is_no_space c :
  in_range 48 57 c || (c =? 44) = true -> isspace U c = false.
Proof.
  intros H. unfold isspace, is_ascii.
  assert (B : 44 <= c <= 57).
  { apply orb_true_iff in H. destruct H as [H|H].
    - unfold in_range in H. apply andb_true_iff in H. destruct H as [H1 H2].
      apply N.leb_le in H1, H2. unfold codepoint in *. lia.
    - apply N.eqb_eq in H. subst c. lia. }
  replace (c <? 128) with true by (symmetry; apply N.ltb_lt; lia).
  unfold in_range. apply orb_false_iff. split; apply andb_false_iff; right;
    apply N.leb_gt; lia.
Qed.

Lemma amount_digits_head ds :
  amount_digits U ds ->
  exists c ds', ds = c :: ds' /\ in_range 48 57 c || (c =? 44) = true.
Proof.
  intros [F E]. destruct ds as [|c ds]; [discriminate E|].
  exists c, ds. split; [reflexivity|].
  cbn [forallb] in F. apply andb_true_iff in F. exact (proj1 F).
Qed.

Lemma rev_app3 {A} (x y : list A) (c : A) b :
  rev (x ++ c :: y) ++ b = rev y ++ rev [c] ++ rev x ++ b.
Proof.
  rewrite rev_app_distr. cbn [rev app]. rewrite <- !app_assoc. reflexivity.
Qed.

(** The group of a currency pattern on a number, when the pattern ends
    with the group. *)
Lemma number_group_takes ds frac post b g k r :
  amount_digits U ds ->
  fraction U frac post ->
  k {| ms_before := rev (ds ++ frac) ++ b; ms_rest := post;
       ms_groups := ("1"%string, ds ++ frac) :: g |} = Some r ->
  rmatch U true number_group
    {| ms_before := b; ms_rest := ds ++ frac ++ post; ms_groups := g |} k
  = Some r.
Proof.
  intros [F E] Fr Hk. unfold number_group, plus, opt, star, seq.
  cbn [fold_right rmatch ms_before ms_rest ms_groups].
  assert (Fa : forallb (atom_ok U true (Cls (CsRanges [(48, 57); (44, 44)]))) ds
               = true).
  { clear - F. induction ds as [|c ds IH]; [reflexivity|].
    cbn [forallb] in *. apply andb_true_iff in F. destruct F as [Fc F].
    rewrite amount_class, Fc, (IH F). reflexivity. }
  assert (Dot : forall x, atom_ok U true (a_chr ".") x = (x =? 46)).
  { intros x. apply (ci_eq_symbol 46 x); reflexivity. }
  assert (Len : (1 <= List.length ds)%nat).
  { destruct ds; [discriminate E|simpl; lia]. }
  destruct Fr as [[-> St]|(fs & -> & Ffs & St)].
  - cbn [app]. rewrite app_nil_r in Hk.
    apply rep_greedy_max; [exact Fa|exact Len|exact I| |].
    { left. destruct post as [|c post]; [reflexivity|]. cbn [stops] in *.
      rewrite amount_class. apply negb_true_iff in St. apply negb_true_iff.
      apply orb_false_iff in St. destruct St as [St _].
      apply orb_false_iff in St. destruct St as [S1 S2].
      rewrite S2, orb_false_r.
      unfold isdecimal, is_ascii in S1. unfold in_range in *.
      destruct (c <? 128) eqn:A; [exact S1|].
      apply N.ltb_ge in A. apply andb_false_iff. right. apply N.leb_gt.
      unfold codepoint in *. lia. }
    apply (rep_greedy_max _ 0 (Some 1%nat) _ r [] 0);
      [reflexivity|cbn; lia|cbn; lia| |].
    { left. destruct post as [|c post]; [reflexivity|]. cbn [stops] in *.
      rewrite Dot. apply negb_true_iff in St. apply negb_true_iff.
      apply orb_false_iff in St. exact (proj2 St). }
    cbn [rev app].
    apply (rep_greedy_max _ 0 None _ r [] 0);
      [reflexivity|cbn; lia|exact I| |].
    { left. destruct post as [|c post]; [reflexivity|]. cbn [stops] in *.
      cbn [atom_ok charset_has a_digit]. apply negb_true_iff in St.
      apply negb_true_iff.
      apply orb_false_iff in St. destruct St as [St _].
      apply orb_false_iff in St. exact (proj1 St). }
    cbn [rev app ms_before ms_rest ms_groups].
    rewrite (consumed_taken ds); [exact Hk|reflexivity].
  - apply rep_greedy_max; [exact Fa|exact Len|exact I| |].
    { left. cbn [app stops]. rewrite amount_class. reflexivity. }
    change ((46 :: fs) ++ post) with ([46] ++ fs ++ post).
    apply (rep_greedy_max _ 0 (Some 1%nat) _ r [46] 0);
      [cbn [forallb]; rewrite Dot; reflexivity|cbn; lia|cbn; lia
      |right; reflexivity|].
    apply (rep_greedy_max _ 0 None _ r fs 0);
      [exact Ffs|lia|exact I|left; exact St|].
    cbn [ms_before ms_rest ms_groups].
    rewrite (consumed_taken (ds ++ 46 :: fs)).
    + rewrite <- Hk. f_equal. f_equal. symmetry. apply rev_app3.
    + cbn [ms_before]. symmetry. apply rev_app3.
Qed.


Lemma dollar_sign x : atom_ok U true (a_chr "$") x = (x =? 36).
Proof. apply (ci_eq_symbol 36 x); reflexivity. Qed.

(** The pattern with the bare dollar sign, started on a dollar sign that
    a number follows. *)
Lemma dollar_match_at before ws ds frac post :
  forallb (isspace U) ws = true ->
  amount_digits U ds ->
  fraction U frac post ->
  exists mo,
    match_at U true (seq [One (a_chr "$"); star a_space; number_group])
             before (36 :: ws ++ ds ++ frac ++ post) = Some mo
    /\ group "1" mo = Some (ds ++ frac).
Proof.
  intros Fw Hd Fr. unfold match_at.
  assert (E : rmatch U true (seq [One (a_chr "$"); star a_space; number_group])
                {| ms_before := before;
                   ms_rest := 36 :: ws ++ ds ++ frac ++ post;
                   ms_groups := [] |} Some
              = Some {| ms_before := rev (ds ++ frac) ++ rev ws ++ 36 :: before;
                        ms_rest := post;
                        ms_groups := [("1"%string, ds ++ frac)] |}).
  { unfold seq, star. cbn [fold_right rmatch ms_before ms_rest ms_groups].
    rewrite dollar_sign. cbn [N.eqb Pos.eqb].
    apply rep_greedy_max; [exact Fw|lia|exact I| |].
    { left. destruct (amount_digits_head ds Hd) as (c & ds' & -> & Hc).
      cbn [app stops atom_ok charset_has a_space].
      rewrite (amount_char_is_no_space c Hc). reflexivity. }
    cbn [ms_before ms_rest ms_groups].
    apply number_group_takes; [exact Hd|exact Fr|reflexivity]. }
  rewrite E. eexists. split; reflexivity.
Qed.

Lemma dollar_search_skip r' : forall (pre before rest : str),
  existsb (N.eqb 36) pre = false ->
  search_from U true (Cat (One (a_chr "$")) r') before (pre ++ rest)
  = search_from U true (Cat (One (a_chr "$")) r') (rev pre ++ before) rest.
Proof.
  induction pre as [|c pre IH]; intros before rest Np; [reflexivity|].
  cbn [existsb] in Np. apply orb_false_iff in Np. destruct Np as [Nc Np].
  cbn [app search_from].
  assert (M : match_at U true (Cat (One (a_chr "$")) r') before
                       (c :: pre ++ rest) = None).
  { unfold match_at. cbn [rmatch ms_rest]. rewrite dollar_sign.
    rewrite N.eqb_sym, Nc. reflexivity. }
  rewrite M, (IH (c :: before) rest Np). cbn [rev]. rewrite <- app_assoc.
  reflexivity.
Qed.

Lemma Decimal_of_amount ds frac post :
  amount_digits U ds ->
  fraction U frac post ->
  Decimal_of_str U (remove_commas (ds ++ frac))
  = Return (dec (int_of_digits U (remove_commas ds ++ tl frac))
                (- Z.of_nat (List.length (tl frac)))).
Proof.
  intros [F E] Fr.
  destruct (remove_commas_number_part U ds F) as [Fd Ed].
  rewrite E in Ed. rewrite remove_commas_app. unfold Decimal_of_str.
  destruct Fr as [[-> _]|(fs & -> & Ffs & _)].
  - cbn [tl List.length remove_commas filter].
    rewrite span_digits_all; [|exact Fd|exact I].
    rewrite <- Ed, app_nil_r. reflexivity.
  - cbn [tl]. replace (remove_commas (46 :: fs)) with (46 :: fs).
    2:{ unfold remove_commas. cbn [filter]. change (46 =? 44) with false.
        cbn [negb]. f_equal. symmetry.
        apply (remove_commas_digits U fs Ffs). }
    rewrite span_digits_all; [|exact Fd|reflexivity].
    rewrite N.eqb_refl, Ffs, <- Ed. reflexivity.
Qed.

Lemma pattern_loop_dollar pre ws ds frac post :
  no_currency_code U (pre ++ 36 :: ws ++ ds ++ frac ++ post) ->
  existsb (N.eqb 36) pre = false ->
  forallb (isspace U) ws = true ->
  amount_digits U ds ->
  fraction U frac post ->
  pattern_loop U currency_patterns (pre ++ 36 :: ws ++ ds ++ frac ++ post)
  = Return (Some (amount_dict
                    (dec (int_of_digits U (remove_commas ds ++ tl frac))
                         (- Z.of_nat (List.length (tl frac))))
                    (py "USD"))).
Proof.
  intros H0 Np Fw Hd Fr.
  unfold no_currency_code, currency_patterns in H0. cbn [firstn] in H0.
  inversion H0 as [|? ? H1 H0']; subst. inversion H0' as [|? ? H2 H0'']; subst.
  inversion H0'' as [|? ? H3 _]; subst. cbn [fst] in H1, H2, H3.
  destruct (dollar_match_at (rev pre ++ []) ws ds frac post Fw Hd Fr)
    as (mo & E & G).
  assert (S4 : re_search U true
                 (seq [One (a_chr "$"); star a_space; number_group])
                 (pre ++ 36 :: ws ++ ds ++ frac ++ post) = Some mo).
  { unfold re_search.
    change (seq [One (a_chr "$"); star a_space; number_group])
      with (Cat (One (a_chr "$")) (seq [star a_space; number_group])) in *.
    rewrite dollar_search_skip by exact Np.
    apply search_from_hit. exact E. }
  unfold currency_patterns. cbn [pattern_loop].
  unfold seq in *. cbn [fold_right] in *.
  rewrite H1, H2, H3, S4, G.
  rewrite (Decimal_of_amount ds frac post Hd Fr). reflexivity.
Qed.

(** X24: the total of a receipt in dollars.  On the first line with
    "total" and without "subtotal" on which a pattern yields a decimal, the
    number after the first dollar sign (white space between them allowed)
    is the amount, in USD: its digits with the commas dropped are the
    coefficient and the number of digits after the point is the negated
    exponent, so that "1,234.50" is 123450e-2.  The line must hold no
    match of a pattern with a currency code. *)
Theorem dollar_total_is_read text earlier later pre ws ds frac post :
  split_lines text
  = earlier ++ (pre ++ 36 :: ws ++ ds ++ frac ++ post) :: later ->
  Forall (fun x => pass_hit U first_pass_cond x = false) earlier ->
  first_pass_cond (lower U (pre ++ 36 :: ws ++ ds ++ frac ++ post)) = true ->
  no_currency_code U (pre ++ 36 :: ws ++ ds ++ frac ++ post) ->
  existsb (N.eqb 36) pre = false ->
  forallb (isspace U) ws = true ->
  amount_digits U ds ->
  fraction U frac post ->
  _extract_amount_and_currency U text
  = Return (amount_dict
              (dec (int_of_digits U (remove_commas ds ++ tl frac))
                   (- Z.of_nat (List.length (tl frac))))
              (py "USD")).
Proof.
  intros Hs He C H0 Np Fw Hd Fr. unfold _extract_amount_and_currency.
  rewrite Hs.
  rewrite (line_loop_first_hit U _ _ _ _ _ He C
             (pattern_loop_dollar pre ws ds frac post H0 Np Fw Hd Fr)).
  reflexivity.
Qed.

End DollarAmounts.

(** * Lists as objects *)

Section StoreFacts.
Context (U : unicode_db).

Lemma read_table_get self n tb :
  table_get n (read_table self tb)
  = option_map (read_rule self) (CategoryStore.table_get n tb).
Proof.
  induction tb as [|[k v] tb IH]; [reflexivity|]. cbn.
  destruct (str_eqb k n); [reflexivity|exact IH].
Qed.

Lemma read_table_set self n v tb :
  read_table self (CategoryStore.table_set n v tb)
  = table_set n (read_rule self v) (read_table self tb).
Proof.
  induction tb as [|[k v'] tb IH]; [reflexivity|]. cbn.
  destruct (str_eqb k n); cbn; [reflexivity|]. f_equal. exact IH.
Qed.

Lemma read_table_merge self b : forall a,
  read_table self (CategoryStore.table_merge a b)
  = table_merge (read_table self a) (read_table self b).
Proof.
  unfold CategoryStore.table_merge, table_merge.
  induction b as [|[k v] b IH]; intros a; [reflexivity|].
  change (read_table self ((k, v) :: b))
    with ((k, read_rule self v) :: read_table self b).
  cbn [fold_left fst snd]. rewrite IH, read_table_set. reflexivity.
Qed.

Lemma store_rule_loop self m t : forall tb,
  CategoryStore.rule_loop U self tb m t = rule_loop U (read_table self tb) m t.
Proof.
  induction tb as [|[k r] tb IH]; [reflexivity|].
  cbn [CategoryStore.rule_loop read_table map rule_loop fst snd].
  rewrite IH. reflexivity.
Qed.

Lemma store_categorize self r :
  CategoryStore.categorize_receipt U self r = categorize_receipt U (view self) r.
Proof.
  unfold CategoryStore.categorize_receipt, categorize_receipt.
  rewrite store_rule_loop. unfold CategoryStore.all_categories, all_categories.
  rewrite read_table_merge. reflexivity.
Qed.

Lemma store_get_set_same name v tb :
  CategoryStore.table_get name (CategoryStore.table_set name v tb) = Some v.
Proof.
  induction tb as [|[k v'] tb IH]; simpl.
  - rewrite str_eqb_refl. reflexivity.
  - destruct (str_eqb k name) eqn:E; simpl; rewrite E; auto.
Qed.

Lemma store_get_set_other name k v tb :
  k <> name ->
  CategoryStore.table_get name (CategoryStore.table_set k v tb)
  = CategoryStore.table_get name tb.
Proof.
  intros Hne. induction tb as [|[k' v'] tb IH]; simpl.
  - apply str_eqb_neq in Hne. rewrite Hne; reflexivity.
  - destruct (str_eqb k' k) eqn:E; simpl.
    + apply str_eqb_eq in E; subst k'.
      apply str_eqb_neq in Hne. rewrite Hne; reflexivity.
    + rewrite IH; reflexivity.
Qed.

Lemma store_get_None name tb :
  ~ In name (CategoryStore.table_keys tb) -> CategoryStore.table_get name tb = None.
Proof.
  induction tb as [|[k v] tb IH]; simpl; intros H; [reflexivity|].
  destruct (str_eqb k name) eqn:E.
  - apply str_eqb_eq in E. tauto.
  - apply IH. tauto.
Qed.

Lemma store_get_merge name a b :
  NoDup (CategoryStore.table_keys b) ->
  CategoryStore.table_get name (CategoryStore.table_merge a b)
  = match CategoryStore.table_get name b with
    | Some v => Some v
    | None => CategoryStore.table_get name a
    end.
Proof.
  unfold CategoryStore.table_merge. revert a.
  induction b as [|[k v] b IH]; intros a Hwf; simpl; [reflexivity|].
  inversion Hwf as [|? ? Hnotin Hwf']; subst.
  rewrite IH by exact Hwf'. cbn [fst snd].
  destruct (str_eqb k name) eqn:E.
  - apply str_eqb_eq in E; subst k.
    rewrite (store_get_None name b Hnotin). apply store_get_set_same.
  - apply str_eqb_neq in E.
    rewrite (store_get_set_other name k v a E). reflexivity.
Qed.

Lemma store_get_In name tb r :
  CategoryStore.table_get name tb = Some r -> In (name, r) tb.
Proof.
  induction tb as [|[k v] tb IH]; simpl; [discriminate|].
  destruct (str_eqb k name) eqn:E.
  - apply str_eqb_eq in E. subst k. intros H; inversion H. left; reflexivity.
  - intros H. right. exact (IH H).
Qed.

(** Appending in place. *)
Lemma append_at_length a x : forall ls,
  List.length (CategoryStore.append_at a x ls) = List.length ls.
Proof.
  induction a as [|a IH]; intros [|l ls]; simpl; auto.
Qed.

Lemma append_at_nth x : forall a ls b,
  (a < List.length ls)%nat ->
  nth b (CategoryStore.append_at a x ls) []
  = if Nat.eqb b a then nth a ls [] ++ [x] else nth b ls [].
Proof.
  induction a as [|a IH]; intros [|l ls] b L; simpl in L; try lia.
  - destruct b; reflexivity.
  - destruct b as [|b]; [reflexivity|]. cbn [CategoryStore.append_at nth Nat.eqb].
    apply IH. lia.
Qed.

(** The list [add_keyword_to_category] appends to is the keyword list of
    a rule. *)
Lemma keyword_list_of_entry self cat a :
  keyword_list_of self cat = Some a ->
  exists r, In (cat, r) (entries self) /\ CategoryStore.keywords r = a
            /\ CategoryStore.add_keyword_to_category self cat =
               fun keyword =>
                 {| CategoryStore.lists :=
                      CategoryStore.append_at a keyword (CategoryStore.lists self);
                    CategoryStore.default_categories :=
                      CategoryStore.default_categories self;
                    CategoryStore.custom_categories :=
                      CategoryStore.custom_categories self |}.
Proof.
  unfold keyword_list_of, CategoryStore.add_keyword_to_category, entries.
  destruct (CategoryStore.table_get cat (CategoryStore.default_categories self))
    as [r|] eqn:D.
  - intros H; inversion H; subst a. exists r.
    split; [apply in_or_app; left; exact (store_get_In _ _ _ D)|].
    split; reflexivity.
  - destruct (CategoryStore.table_get cat (CategoryStore.custom_categories self))
      as [r|] eqn:C; [|discriminate].
    intros H; inversion H; subst a. exists r.
    split; [apply in_or_app; right; exact (store_get_In _ _ _ C)|].
    split; reflexivity.
Qed.

Lemma add_keyword_lists self cat keyword a :
  store_wf self ->
  keyword_list_of self cat = Some a ->
  CategoryStore.default_categories
    (CategoryStore.add_keyword_to_category self cat keyword)
  = CategoryStore.default_categories self
  /\ CategoryStore.custom_categories
       (CategoryStore.add_keyword_to_category self cat keyword)
     = CategoryStore.custom_categories self
  /\ store_wf (CategoryStore.add_keyword_to_category self cat keyword)
  /\ (forall b,
        CategoryStore.deref
          (CategoryStore.add_keyword_to_category self cat keyword) b
        = if Nat.eqb b a then CategoryStore.deref self a ++ [keyword]
          else CategoryStore.deref self b).
Proof.
  intros (Wd & Wc & Wr) Ha.
  destruct (keyword_list_of_entry self cat a Ha) as (r & Hin & Hr & ->).
  cbn [CategoryStore.default_categories CategoryStore.custom_categories].
  split; [reflexivity|]. split; [reflexivity|].
  assert (La : (a < List.length (CategoryStore.lists self))%nat).
  { rewrite <- Hr.
    exact (proj1 (proj1 (Forall_forall _ _) Wr (cat, r) Hin)). }
  split.
  - unfold store_wf, entries.
    cbn [CategoryStore.default_categories CategoryStore.custom_categories
         CategoryStore.lists].
    rewrite append_at_length. auto.
  - intros b. unfold CategoryStore.deref. cbn [CategoryStore.lists].
    apply append_at_nth. exact La.
Qed.

Lemma read_rule_after self cat keyword a r :
  store_wf self ->
  keyword_list_of self cat = Some a ->
  keywords (read_rule (CategoryStore.add_keyword_to_category self cat keyword) r)
  = (if Nat.eqb (CategoryStore.keywords r) a
     then keywords (read_rule self r) ++ [keyword]
     else keywords (read_rule self r))
  /\ merchants
       (read_rule (CategoryStore.add_keyword_to_category self cat keyword) r)
     = (if Nat.eqb (CategoryStore.merchants r) a
        then merchants (read_rule self r) ++ [keyword]
        else merchants (read_rule self r)).
Proof.
  intros W Ha.
  destruct (add_keyword_lists self cat keyword a W Ha) as (_ & _ & _ & D).
  unfold read_rule. cbn [keywords merchants]. rewrite !D. split.
  - destruct (Nat.eqb (CategoryStore.keywords r) a) eqn:E; [|reflexivity].
    apply PeanoNat.Nat.eqb_eq in E. rewrite E. reflexivity.
  - destruct (Nat.eqb (CategoryStore.merchants r) a) eqn:E; [|reflexivity].
    apply PeanoNat.Nat.eqb_eq in E. rewrite E. reflexivity.
Qed.

(** X12: [add_keyword_to_category] appends to one list object, in place.
    For an unknown name nothing changes.  Otherwise the two dictionaries
    keep their entries; the list the rule of that name has as its keywords
    (the default rule if the name is a default name, else the custom rule)
    gets the keyword at its end and no other list changes.  So every field
    that refers to this list shows the keyword, be it the keywords or the
    merchants of a rule, under whatever name and in whichever dictionary,
    and every other field is as before. *)
Theorem add_keyword_reaches_every_holder self cat keyword :
  store_wf self ->
  match keyword_list_of self cat with
  | None => CategoryStore.add_keyword_to_category self cat keyword = self
  | Some a =>
    CategoryStore.default_categories
      (CategoryStore.add_keyword_to_category self cat keyword)
    = CategoryStore.default_categories self
    /\ CategoryStore.custom_categories
         (CategoryStore.add_keyword_to_category self cat keyword)
       = CategoryStore.custom_categories self
    /\ store_wf (CategoryStore.add_keyword_to_category self cat keyword)
    /\ (forall b,
          CategoryStore.deref
            (CategoryStore.add_keyword_to_category self cat keyword) b
          = if Nat.eqb b a then CategoryStore.deref self a ++ [keyword]
            else CategoryStore.deref self b)
    /\ (forall r,
          keywords
            (read_rule (CategoryStore.add_keyword_to_category self cat keyword) r)
          = (if Nat.eqb (CategoryStore.keywords r) a
             then keywords (read_rule self r) ++ [keyword]
             else keywords (read_rule self r))
          /\ merchants
               (read_rule
                  (CategoryStore.add_keyword_to_category self cat keyword) r)
             = (if Nat.eqb (CategoryStore.merchants r) a
                then merchants (read_rule self r) ++ [keyword]
                else merchants (read_rule self r)))
  end.
Proof.
  intros W. destruct (keyword_list_of self cat) as [a|] eqn:Ha.
  - destruct (add_keyword_lists self cat keyword a W Ha) as (D & C & W' & L).
    split; [exact D|]. split; [exact C|]. split; [exact W'|].
    split; [exact L|].
    intros r. apply read_rule_after; assumption.
  - unfold keyword_list_of in Ha. unfold CategoryStore.add_keyword_to_category.
    destruct (CategoryStore.table_get cat (CategoryStore.default_categories self));
      [discriminate|].
    destruct (CategoryStore.table_get cat (CategoryStore.custom_categories self));
      [discriminate|reflexivity].
Qed.

Lemma store_categorize_cases self r :
  CategoryStore.categorize_receipt U self r
  = if classifiable r
    then match CategoryStore.rule_loop U self (CategoryStore.all_categories self)
                 (merchant_of U r) (text_of U r) with
         | Some cat => cat
         | None => py "Other"
         end
    else py "Other".
Proof.
  unfold CategoryStore.categorize_receipt, classifiable, merchant_of, text_of.
  destruct (truthy (merchant r)); destruct (truthy (raw_text r)); reflexivity.
Qed.

(** What the append does to a rule that did not fire. *)
Lemma rule_hits_after self cat keyword a r m t :
  store_wf self ->
  keyword_list_of self cat = Some a ->
  rule_hits U (read_rule self r) m t = false ->
  rule_hits U (read_rule (CategoryStore.add_keyword_to_category self cat keyword) r)
            m t
  = (Nat.eqb (CategoryStore.merchants r) a && contains (lower U keyword) m)
    || (Nat.eqb (CategoryStore.keywords r) a
        && (matched (re_search U false (keyword_pattern U keyword) t)
            || matched (re_search U false (keyword_pattern U keyword) m))).
Proof.
  intros W Ha Old.
  destruct (read_rule_after self cat keyword a r W Ha) as [K M].
  unfold rule_hits, merchant_hit, keyword_hit in *. rewrite K, M.
  apply orb_false_iff in Old. destruct Old as [Om Ok].
  destruct (Nat.eqb (CategoryStore.merchants r) a);
    destruct (Nat.eqb (CategoryStore.keywords r) a);
    rewrite ?existsb_app, ?Om, ?Ok; cbn [existsb orb andb];
    rewrite ?orb_false_r; reflexivity.
Qed.

(** After the keyword is appended, a loop that stopped on no rule stops on
    the first rule that is reached. *)
Lemma rule_loop_after self cat keyword a m t :
  store_wf self ->
  keyword_list_of self cat = Some a ->
  matched (re_search U false (keyword_pattern U keyword) t)
  || matched (re_search U false (keyword_pattern U keyword) m) = true ->
  forall tb,
    CategoryStore.rule_loop U self tb m t = None ->
    CategoryStore.rule_loop U
      (CategoryStore.add_keyword_to_category self cat keyword) tb m t
    = first_reached U a keyword m tb.
Proof.
  intros W Ha Hit tb. rewrite !store_rule_loop.
  induction tb as [|[k r] tb IH]; [reflexivity|].
  change (read_table ?s ((k, r) :: tb))
    with ((k, read_rule s r) :: read_table s tb).
  rewrite !rule_loop_step. cbn [first_reached].
  destruct (rule_hits U (read_rule self r) m t) eqn:E; [discriminate|].
  intros Hn. rewrite (rule_hits_after self cat keyword a r m t W Ha E), Hit.
  rewrite andb_true_r. fold (reached U a keyword m r).
  destruct (reached U a keyword m r); [reflexivity|]. apply IH. exact Hn.
Qed.

Lemma first_reached_In a keyword m : forall tb n r,
  In (n, r) tb -> reached U a keyword m r = true ->
  exists n', first_reached U a keyword m tb = Some n'.
Proof.
  induction tb as [|[k v] tb IH]; intros n r Hin Hh; [destruct Hin|].
  cbn [first_reached]. destruct (reached U a keyword m v) eqn:Hv; [eauto|].
  destruct Hin as [E|Hin]; [|eauto].
  inversion E; subst. congruence.
Qed.

Lemma first_reached_holds a keyword m : forall tb n,
  first_reached U a keyword m tb = Some n ->
  exists r, In (n, r) tb /\ reached U a keyword m r = true.
Proof.
  induction tb as [|[k v] tb IH]; intros n; cbn [first_reached]; [discriminate|].
  destruct (reached U a keyword m v) eqn:E.
  - intros H; inversion H; subst. exists v. split; [left; reflexivity|exact E].
  - intros H. destruct (IH n H) as (r & Hin & Hr). exists r.
    split; [right; exact Hin|exact Hr].
Qed.

Lemma all_categories_entry self cat a :
  store_wf self ->
  keyword_list_of self cat = Some a ->
  exists r, In (cat, r) (CategoryStore.all_categories self)
            /\ CategoryStore.keywords r = a.
Proof.
  intros (Wd & _) Ha. unfold keyword_list_of in Ha.
  assert (G : exists r,
             CategoryStore.table_get cat (CategoryStore.all_categories self)
             = Some r /\ CategoryStore.keywords r = a).
  { unfold CategoryStore.all_categories. rewrite store_get_merge by exact Wd.
    destruct (CategoryStore.table_get cat (CategoryStore.default_categories self))
      as [r|].
    - inversion Ha. eauto.
    - destruct (CategoryStore.table_get cat (CategoryStore.custom_categories self))
        as [r|]; [|discriminate]. inversion Ha. eauto. }
  destruct G as (r & G & E). exists r.
  split; [exact (store_get_In _ _ _ G)|exact E].
Qed.

(** X13: adding a keyword takes effect on classification, for the first
    rule the keyword reaches.  If no rule fires on a receipt with a
    merchant or a text, so that it is classified "Other", and a keyword is
    added to an existing category, then a receipt in whose text or
    merchant the lower-cased keyword stands as a whole token is classified
    under the first category, in the order of the classifier, that the
    keyword reaches: one whose keyword list is the list that got the
    keyword, or one whose merchant list is that list when the lower-cased
    keyword stands in the merchant.  This is the category the keyword was
    added to when it is the only one reached. *)
Theorem added_keyword_goes_to_first_holder self cat keyword a r :
  store_wf self ->
  keyword_list_of self cat = Some a ->
  classifiable r = true ->
  CategoryStore.rule_loop U self (CategoryStore.all_categories self)
    (merchant_of U r) (text_of U r) = None ->
  occurs_as_token U (lower U keyword) (text_of U r)
  \/ occurs_as_token U (lower U keyword) (merchant_of U r) ->
  CategoryStore.categorize_receipt U self r = py "Other"
  /\ exists n,
       first_reached U a keyword (merchant_of U r)
                     (CategoryStore.all_categories self) = Some n
       /\ CategoryStore.categorize_receipt U
            (CategoryStore.add_keyword_to_category self cat keyword) r = n
       /\ ((forall n' r', In (n', r') (CategoryStore.all_categories self) ->
                          reached U a keyword (merchant_of U r) r' = true ->
                          n' = cat) ->
           n = cat).
Proof.
  intros W Ha Hc Hnone Htok.
  rewrite !store_categorize_cases, Hc, Hnone. split; [reflexivity|].
  destruct (all_categories_entry self cat a W Ha) as (rc & Hin & Hk).
  assert (Hh : reached U a keyword (merchant_of U r) rc = true).
  { unfold reached. rewrite Hk, PeanoNat.Nat.eqb_refl. apply orb_true_r. }
  destruct (first_reached_In a keyword _ _ _ _ Hin Hh) as (n & Hn).
  exists n. split; [exact Hn|].
  destruct (add_keyword_lists self cat keyword a W Ha) as (D & C & _ & _).
  split.
  - unfold CategoryStore.all_categories at 1. rewrite D, C.
    fold (CategoryStore.all_categories self).
    rewrite (rule_loop_after self cat keyword a _ _ W Ha); [|  |exact Hnone].
    + rewrite Hn. reflexivity.
    + apply orb_true_iff.
      destruct Htok as [H|H]; [left|right];
        apply keyword_search_is_token_search; exact H.
  - intros Only.
    destruct (first_reached_holds a keyword _ _ _ Hn) as (r' & Hin' & Hh').
    exact (Only n r' Hin' Hh').
Qed.

(** Reading is not changed by what is done to other lists. *)
Lemma read_table_same self self' tb :
  (forall kv, In kv tb ->
     CategoryStore.deref self' (CategoryStore.keywords (snd kv))
     = CategoryStore.deref self (CategoryStore.keywords (snd kv))
     /\ CategoryStore.deref self' (CategoryStore.merchants (snd kv))
        = CategoryStore.deref self (CategoryStore.merchants (snd kv))) ->
  read_table self' tb = read_table self tb.
Proof.
  intros H. unfold read_table. apply map_ext_in. intros kv Hin.
  unfold read_rule. destruct (H kv Hin) as [-> ->]. reflexivity.
Qed.

Lemma references_none a : forall tb,
  references a tb = 0%nat ->
  forall kv, In kv tb ->
    Nat.eqb (CategoryStore.keywords (snd kv)) a = false
    /\ Nat.eqb (CategoryStore.merchants (snd kv)) a = false.
Proof.
  induction tb as [|kv0 tb IH]; intros H kv Hin; [destruct Hin|].
  cbn [references fold_right] in H. fold (references a tb) in H.
  destruct Hin as [->|Hin].
  - unfold references_of in H.
    destruct (Nat.eqb (CategoryStore.keywords (snd kv)) a);
      destruct (Nat.eqb (CategoryStore.merchants (snd kv)) a);
      simpl in H; try lia; auto.
  - apply IH; [lia|exact Hin].
Qed.

Lemma references_get a cat r : forall tb,
  CategoryStore.table_get cat tb = Some r ->
  CategoryStore.keywords r = a ->
  (1 <= references a tb)%nat.
Proof.
  induction tb as [|[k v] tb IH]; intros G H; [discriminate|].
  cbn [references fold_right snd]. fold (references a tb).
  cbn [CategoryStore.table_get] in G. destruct (str_eqb k cat).
  - inversion G; subst v. unfold references_of.
    rewrite H, PeanoNat.Nat.eqb_refl. lia.
  - specialize (IH G H). lia.
Qed.

Lemma read_table_untouched self cat keyword a tb :
  store_wf self ->
  keyword_list_of self cat = Some a ->
  references a tb = 0%nat ->
  read_table (CategoryStore.add_keyword_to_category self cat keyword) tb
  = read_table self tb.
Proof.
  intros W Ha H0. apply read_table_same. intros kv Hin.
  destruct (add_keyword_lists self cat keyword a W Ha) as (_ & _ & _ & D).
  rewrite !D. destruct (references_none a tb H0 kv Hin) as [-> ->].
  split; reflexivity.
Qed.

Lemma read_table_unshared self cat keyword a r :
  store_wf self ->
  keyword_list_of self cat = Some a ->
  CategoryStore.keywords r = a ->
  forall tb,
    CategoryStore.table_get cat tb = Some r ->
    references a tb = 1%nat ->
    read_table (CategoryStore.add_keyword_to_category self cat keyword) tb
    = table_set cat (append_keyword keyword (read_rule self r))
                (read_table self tb).
Proof.
  intros W Ha Hr. induction tb as [|[k v] tb IH]; [discriminate|].
  intros G H1.
  change (read_table ?s ((k, v) :: tb))
    with ((k, read_rule s v) :: read_table s tb).
  cbn [CategoryStore.table_get] in G. cbn [table_set].
  cbn [references fold_right snd] in H1. fold (references a tb) in H1.
  destruct (read_rule_after self cat keyword a v W Ha) as [K M].
  assert (R : read_rule (CategoryStore.add_keyword_to_category self cat keyword) v
              = {| keywords :=
                     keywords (read_rule
                                 (CategoryStore.add_keyword_to_category
                                    self cat keyword) v);
                   merchants :=
                     merchants (read_rule
                                  (CategoryStore.add_keyword_to_category
                                     self cat keyword) v) |})
    by reflexivity.
  rewrite R, K, M. clear R K M. unfold references_of in H1.
  destruct (str_eqb k cat) eqn:E.
  - inversion G; subst v. rewrite Hr, PeanoNat.Nat.eqb_refl in *.
    destruct (Nat.eqb (CategoryStore.merchants r) a); [simpl in H1; lia|].
    f_equal.
    apply (read_table_untouched self cat keyword a tb W Ha). simpl in H1. lia.
  - pose proof (references_get a cat r tb G Hr) as Hge.
    destruct (Nat.eqb (CategoryStore.keywords v) a); [simpl in H1; lia|].
    destruct (Nat.eqb (CategoryStore.merchants v) a); [simpl in H1; lia|].
    simpl in H1. rewrite (IH G H1). reflexivity.
Qed.

Lemma references_app a x y :
  references a (x ++ y) = (references a x + references a y)%nat.
Proof.
  induction x as [|kv x IH]; [reflexivity|].
  cbn [app references fold_right]. fold (references a (x ++ y)).
  fold (references a x). rewrite IH. lia.
Qed.

(** X26: when one field only refers to the list, appending in place is an
    update of one rule.  If, over the rules of both dictionaries, the list
    that gets the keyword is referred to once (as the keyword list of the
    rule of that name, so not as its merchants and by no other rule), the
    dictionaries after the call are those before it with that rule
    replaced by the rule with the keyword at the end of its keywords, in
    the default dictionary if the name is there, else in the custom
    one. *)
Theorem unshared_list_update self cat keyword a :
  store_wf self ->
  keyword_list_of self cat = Some a ->
  references a (entries self) = 1%nat ->
  view (CategoryStore.add_keyword_to_category self cat keyword)
  = with_keyword (view self) cat keyword.
Proof.
  intros W Ha H1. unfold entries in H1. rewrite references_app in H1.
  destruct (add_keyword_lists self cat keyword a W Ha) as (D & C & _ & _).
  unfold view. rewrite D, C. unfold with_keyword.
  cbn [default_categories custom_categories].
  rewrite !read_table_get. pose proof Ha as Ha0. unfold keyword_list_of in Ha.
  destruct (CategoryStore.table_get cat (CategoryStore.default_categories self))
    as [r|] eqn:Gd; cbn [option_map].
  - inversion Ha as [Hr].
    pose proof (references_get a cat r _ Gd Hr) as Hge.
    rewrite (read_table_unshared self cat keyword a r W Ha0 Hr
               _ Gd ltac:(lia)).
    rewrite (read_table_untouched self cat keyword a
               (CategoryStore.custom_categories self) W Ha0 ltac:(lia)).
    reflexivity.
  - destruct (CategoryStore.table_get cat (CategoryStore.custom_categories self))
      as [r|] eqn:Gc; [|discriminate]. cbn [option_map] in *.
    inversion Ha as [Hr].
    pose proof (references_get a cat r _ Gc Hr) as Hge.
    rewrite (read_table_unshared self cat keyword a r W Ha0 Hr
               _ Gc ltac:(lia)).
    rewrite (read_table_untouched self cat keyword a
               (CategoryStore.default_categories self) W Ha0 ltac:(lia)).
    reflexivity.
Qed.

Lemma read_table_lists self self' tb :
  CategoryStore.lists self' = CategoryStore.lists self ->
  read_table self' tb = read_table self tb.
Proof.
  intros E. apply read_table_same. intros kv _.
  unfold CategoryStore.deref. rewrite E. split; reflexivity.
Qed.

(** X25: classification and listing depend on what the lists hold, not on
    where they are.  With every address replaced by the list that stands
    there, the configuration at start, the table the classifier iterates,
    the listing, the label of a receipt and the configuration after
    [add_custom_category] are those computed on the dictionaries of
    lists. *)
Theorem store_reads_as_config self :
  view CategoryStore.init = init
  /\ read_table self (CategoryStore.all_categories self)
     = all_categories (view self)
  /\ read_table self (CategoryStore.get_all_categories self)
     = get_all_categories (view self)
  /\ (forall r, CategoryStore.categorize_receipt U self r
                = categorize_receipt U (view self) r)
  /\ (forall name a b,
        view (CategoryStore.add_custom_category self name a b)
        = add_custom_category (view self) name (CategoryStore.deref self a)
                              (CategoryStore.deref self b)).
Proof.
  split; [reflexivity|].
  split; [apply read_table_merge|].
  split; [apply read_table_merge|].
  split; [apply store_categorize|].
  intros name a b. unfold view, add_custom_category.
  cbn [CategoryStore.add_custom_category CategoryStore.default_categories
       CategoryStore.custom_categories default_categories custom_categories].
  rewrite !(read_table_lists self (CategoryStore.add_custom_category self name a b))
    by reflexivity.
  rewrite read_table_set. reflexivity.
Qed.

(** A list of the caller: a new object changes nothing for the rules there
    are, holds what the caller put in, and is referred to by no rule. *)
Lemma new_list_fresh self l :
  store_wf self ->
  view (fst (CategoryStore.new_list self l)) = view self
  /\ CategoryStore.deref (fst (CategoryStore.new_list self l))
                         (snd (CategoryStore.new_list self l)) = l
  /\ store_wf (fst (CategoryStore.new_list self l))
  /\ references (snd (CategoryStore.new_list self l)) (entries self) = 0%nat.
Proof.
  intros (Wd & Wc & Wr).
  assert (Same : forall kv, In kv (entries self) ->
            CategoryStore.deref (fst (CategoryStore.new_list self l))
                                (CategoryStore.keywords (snd kv))
            = CategoryStore.deref self (CategoryStore.keywords (snd kv))
            /\ CategoryStore.deref (fst (CategoryStore.new_list self l))
                                   (CategoryStore.merchants (snd kv))
               = CategoryStore.deref self (CategoryStore.merchants (snd kv))).
  { intros kv Hin. unfold CategoryStore.deref. cbn.
    destruct (proj1 (Forall_forall _ _) Wr kv Hin) as [Lk Lm].
    split; apply app_nth1; assumption. }
  split.
  { unfold view. cbn [CategoryStore.new_list fst
                      CategoryStore.default_categories
                      CategoryStore.custom_categories].
    f_equal; apply read_table_same; intros kv Hin; apply Same;
      unfold entries; apply in_or_app; auto. }
  split.
  { unfold CategoryStore.deref. cbn. rewrite app_nth2 by lia.
    rewrite PeanoNat.Nat.sub_diag. reflexivity. }
  split.
  { unfold store_wf, entries. cbn. split; [exact Wd|]. split; [exact Wc|].
    eapply Forall_impl; [|exact Wr]. intros kv [Hk Hm]. cbn in Hk, Hm.
    rewrite length_app. cbn. lia. }
  cbn [CategoryStore.new_list snd]. revert Wr.
  generalize (List.length (CategoryStore.lists self)) (entries self).
  intros n tb. induction 1 as [|kv tb [Hk Hm] _ IH]; [reflexivity|].
  cbn [references fold_right]. fold (references n tb). rewrite IH.
  unfold references_of.
  replace (Nat.eqb (CategoryStore.keywords (snd kv)) n) with false
    by (symmetry; apply PeanoNat.Nat.eqb_neq; lia).
  replace (Nat.eqb (CategoryStore.merchants (snd kv)) n) with false
    by (symmetry; apply PeanoNat.Nat.eqb_neq; lia).
  reflexivity.
Qed.

End StoreFacts.

(** * Instances of the further properties *)

Ltac prove_config_wf :=
  split; unfold table_wf; vm_compute; repeat constructor;
  let H := fresh in
  intros H; repeat (destruct H as [H|H]; [discriminate H|]); exact H.

Lemma valid_image_examples U :
  FileHandler.is_valid_image U (Some (py "PHOTO.JPG")) = true
  /\ FileHandler.is_valid_image U (Some (py "a.b/c.d.png")) = true
  /\ FileHandler.is_valid_image U (Some (py "x.jpg.exe")) = false
  /\ FileHandler.is_valid_image U (Some (py ".jpg")) = false
  /\ FileHandler.is_valid_image U (Some (py "scans/.jpg")) = false
  /\ FileHandler.is_valid_image U (Some (py "receipt")) = false
  /\ FileHandler.is_valid_image U (Some []) = false
  /\ FileHandler.is_valid_image U None = false.
Proof. repeat split; vm_compute; reflexivity. Qed.

Lemma no_digit_no_date_no_amount_witness :
  _extract_date ascii_db (py "Total: NT$ -- no date here") = Return None
  /\ _extract_amount_and_currency ascii_db (py "Total: NT$ -- no date here")
     = Return [].
Proof.
  apply (no_digit_no_date_no_amount ascii_db). vm_compute; reflexivity.
Defined.

Lemma first_total_line_decides_witness :
  _extract_amount_and_currency ascii_db (py "Amount: $5.00\nTotal: NT$9\nSum: $7")
  = Return (amount_dict (dec 9 0) (py "NTD")).
Proof.
  apply (first_total_line_decides ascii_db
           (py "Amount: $5.00\nTotal: NT$9\nSum: $7")
           [py "Amount: $5.00"] (py "Total: NT$9") [py "Sum: $7"]).
  - vm_compute; reflexivity.
  - repeat constructor.
  - vm_compute; reflexivity.
  - vm_compute; reflexivity.
Defined.

Lemma first_keyword_line_decides_witness :
  _extract_amount_and_currency ascii_db (py "Coffee $3.00\nSum: $5.00")
  = Return (amount_dict (dec 500 (-2)) (py "USD")).
Proof.
  apply (first_keyword_line_decides ascii_db (py "Coffee $3.00\nSum: $5.00")
           [py "Coffee $3.00"] (py "Sum: $5.00") []).
  - vm_compute; reflexivity.
  - vm_compute. repeat constructor.
  - repeat constructor.
  - vm_compute; reflexivity.
  - vm_compute; reflexivity.
Defined.

Lemma merchant_is_among_items_witness :
  In (py "WALMART STORE")
     (_extract_items ascii_db (py "WALMART STORE\n2024-01-15\nTotal: $25.50")).
Proof.
  apply (merchant_is_among_items ascii_db
           (py "WALMART STORE\n2024-01-15\nTotal: $25.50") (py "WALMART STORE"));
    vm_compute; reflexivity.
Defined.

Lemma category_order_witness :
  table_keys (all_categories
                (add_custom_category init (py "Pet Supplies") [py "pet"] []))
    = py "Pet Supplies" :: table_keys (default_categories init)
  /\ table_keys (get_all_categories
                   (add_custom_category init (py "Pet Supplies") [py "pet"] []))
     = table_keys (default_categories init) ++ [py "Pet Supplies"].
Proof.
  destruct (category_order
              (add_custom_category init (py "Pet Supplies") [py "pet"] []))
    as (A & B & _); [prove_config_wf|].
  split; [rewrite A|rewrite B]; vm_compute; reflexivity.
Defined.

Lemma add_custom_category_lookup_witness :
  table_get (py "Shopping")
    (get_all_categories
       (add_custom_category init (py "Pet Supplies") [py "pet"] []))
  = table_get (py "Shopping") (get_all_categories init).
Proof.
  destruct (add_custom_category_lookup init (py "Pet Supplies") [py "pet"] []
              (py "Shopping")) as (A & _); [prove_config_wf|].
  rewrite A. vm_compute; reflexivity.
Defined.

Lemma category_is_other_or_known_witness :
  categorize_receipt ascii_db init
    (receipt_of (Some (py "Uber Technologies")) (Some (py "Ride to airport")))
  = py "Transportation".
Proof.
  destruct (category_is_other_or_known ascii_db init
              (receipt_of (Some (py "Uber Technologies"))
                          (Some (py "Ride to airport"))))
    as [H|H]; [prove_config_wf| |]; vm_compute; reflexivity.
Defined.

Lemma new_custom_category_precedes_defaults_witness :
  table_keys (custom_categories sample_customs)
  = [py "Food & Dining"; py "Gym"]
  /\ table_get (py "Food & Dining") (custom_categories sample_customs)
     = Some {| keywords := [py "vet"]; merchants := [] |}
  /\ table_get (py "Food & Dining") (all_categories sample_customs)
     = table_get (py "Food & Dining") (default_categories init)
  /\ categorize_receipt ascii_db
       (add_custom_category sample_customs (py "Pet Supplies")
                            [py "vet"; py "dog"] [py "petstore"])
       (receipt_of None (Some (py "Vet visit")))
     = py "Pet Supplies".
Proof.
  split; [reflexivity|]. split; [reflexivity|]. split; [reflexivity|].
  apply (new_custom_category_precedes_defaults ascii_db sample_customs).
  - prove_config_wf.
  - vm_compute; reflexivity.
  - vm_compute; reflexivity.
  - vm_compute; reflexivity.
  - vm_compute; reflexivity.
  - intros k rule Hin Hg. vm_compute in Hin.
    destruct Hin as [<-|[<-|[]]]; vm_compute in Hg;
      injection Hg as <-; vm_compute; reflexivity.
Defined.

Lemma blank_text_gives_empty_receipt_witness :
  _parse_receipt_text ascii_db (py " \n   \n") = Return empty_receipt.
Proof.
  apply (blank_text_gives_empty_receipt ascii_db). vm_compute; reflexivity.
Defined.

Lemma invalid_file_type_is_reported_witness :
  Main.result_for ascii_db plain_rendering (detect_always (py "TEST STORE")) init
    {| Main.uf_filename := Some (py "document.pdf"); Main.uf_read := Done [] |}
  = Done {| filename := py "document.pdf"; status := py "error"; data := None;
            error := Some (py "Invalid file type: document.pdf") |}.
Proof.
  apply (invalid_file_type_is_reported ascii_db plain_rendering
           (detect_always (py "TEST STORE")) init);
    vm_compute; reflexivity.
Defined.

Lemma upload_records_are_well_formed_witness :
  exists results,
    Main.upload_receipts ascii_db plain_rendering (detect_always sample_text)
                         init sample_upload = Done results
    /\ map status results = [py "success"; py "error"]
    /\ Forall (well_formed_result init) results.
Proof.
  eexists. split; [vm_compute; reflexivity|]. split; [reflexivity|].
  apply (upload_records_are_well_formed ascii_db plain_rendering
           (detect_always sample_text) init sample_upload).
  - prove_config_wf.
  - vm_compute; reflexivity.
Defined.

Lemma iso_date_is_recovered_witness :
  iso_text 47 2024 2 29 = py "2024/02/29"
  /\ _extract_date ascii_db (py "Date: " ++ iso_text 47 2024 2 29 ++ py " 14:05")
     = Return (Some (ymd 2024 2 29)).
Proof.
  split; [reflexivity|].
  apply (iso_date_is_recovered ascii_db 47 2024 2 29 (py "Date: ") (py " 14:05")).
  - right; reflexivity.
  - lia.
  - lia.
  - change (days_in_month 2024 2) with 29. lia.
  - reflexivity.
Defined.

Lemma hyphen_date_is_read_day_first_witness :
  dmy_text 45 5 12 2024 = py "05-12-2024"
  /\ _extract_date ascii_db (py "Date: " ++ dmy_text 45 5 12 2024 ++ py " 14:05")
     = Return (Some (ymd 2024 12 5)).
Proof.
  split; [reflexivity|].
  apply (hyphen_date_is_read_day_first ascii_db 5 12 2024 (py "Date: ")
           (py " 14:05")).
  - reflexivity.
  - vm_compute; reflexivity.
  - lia.
  - lia.
  - change (days_in_month 2024 12) with 31. lia.
Defined.

Lemma slash_date_is_read_month_first_witness :
  dmy_text 47 5 12 2024 = py "05/12/2024"
  /\ _extract_date ascii_db (py "Date: " ++ dmy_text 47 5 12 2024 ++ py " 14:05")
     = Return (Some (ymd 2024 5 12)).
Proof.
  split; [reflexivity|].
  apply (slash_date_is_read_month_first ascii_db 5 12 2024 (py "Date: ")
           (py " 14:05")).
  - reflexivity.
  - vm_compute; reflexivity.
  - lia.
  - lia.
  - change (days_in_month 2024 5) with 31. lia.
Defined.

Lemma slash_date_day_first_is_not_read_witness :
  dmy_text 47 25 12 2024 = py "25/12/2024"
  /\ _extract_date ascii_db (py "Date: " ++ dmy_text 47 25 12 2024 ++ py " 14:05")
     = Return None.
Proof.
  split; [reflexivity|].
  apply (slash_date_day_first_is_not_read ascii_db 25 12 2024 (py "Date: ")
           (py " 14:05")).
  - reflexivity.
  - vm_compute; reflexivity.
  - lia.
Defined.

Lemma dollar_total_is_read_witness :
  _extract_amount_and_currency ascii_db sample_totals
  = Return (amount_dict (dec 123450 (-2)) (py "USD")).
Proof.
  apply (dollar_total_is_read ascii_db sample_totals
           [py "Subtotal: $8.50"] [] (py "Total: ") [] (py "1,234")
           (py ".50") []).
  - reflexivity.
  - repeat constructor.
  - reflexivity.
  - repeat constructor.
  - reflexivity.
  - reflexivity.
  - split; reflexivity.
  - right. exists (py "50"). repeat split; reflexivity.
Defined.

Ltac prove_store_wf :=
  split; [|split];
  [ vm_compute; repeat constructor;
    let H := fresh in
    intros H; repeat (destruct H as [H|H]; [discriminate H|]); exact H
  | vm_compute; repeat constructor;
    let H := fresh in
    intros H; repeat (destruct H as [H|H]; [discriminate H|]); exact H
  | vm_compute; repeat constructor ].

Lemma add_keyword_reaches_every_holder_witness :
  CategoryStore.table_get (py "Sports")
    (CategoryStore.custom_categories sample_same_list)
  = Some {| CategoryStore.keywords := 16%nat; CategoryStore.merchants := 16%nat |}
  /\ read_rule sample_same_list
       {| CategoryStore.keywords := 16%nat; CategoryStore.merchants := 16%nat |}
     = {| keywords := [py "gym"]; merchants := [py "gym"] |}
  /\ read_rule
       (CategoryStore.add_keyword_to_category sample_same_list (py "Sports")
                                              (py "yoga"))
       {| CategoryStore.keywords := 16%nat; CategoryStore.merchants := 16%nat |}
     = {| keywords := [py "gym"; py "yoga"];
          merchants := [py "gym"; py "yoga"] |}.
Proof.
  split; [reflexivity|]. split; [reflexivity|].
  pose proof (add_keyword_reaches_every_holder sample_same_list (py "Sports")
                (py "yoga")) as H.
  change (keyword_list_of sample_same_list (py "Sports")) with (Some 16%nat) in H.
  cbv beta iota in H.
  destruct H as (_ & _ & _ & _ & R); [prove_store_wf|].
  destruct (R {| CategoryStore.keywords := 16%nat;
                 CategoryStore.merchants := 16%nat |}) as [K M].
  cbn [CategoryStore.keywords CategoryStore.merchants Nat.eqb] in K, M.
  transitivity
    {| keywords :=
         keywords (read_rule
                     (CategoryStore.add_keyword_to_category
                        sample_same_list (py "Sports") (py "yoga"))
                     {| CategoryStore.keywords := 16%nat;
                        CategoryStore.merchants := 16%nat |});
       merchants :=
         merchants (read_rule
                      (CategoryStore.add_keyword_to_category
                         sample_same_list (py "Sports") (py "yoga"))
                      {| CategoryStore.keywords := 16%nat;
                         CategoryStore.merchants := 16%nat |}) |};
    [reflexivity|].
  rewrite K, M. reflexivity.
Defined.

Lemma added_keyword_goes_to_first_holder_witness :
  CategoryStore.table_keys (CategoryStore.custom_categories sample_shared)
  = [py "Studio"; py "Fitness"]
  /\ CategoryStore.categorize_receipt ascii_db sample_shared
       (receipt_of (Some (py "Pilates")) None) = py "Other"
  /\ CategoryStore.categorize_receipt ascii_db
       (CategoryStore.add_keyword_to_category sample_shared (py "Fitness")
                                              (py "pilates"))
       (receipt_of (Some (py "Pilates")) None)
     = py "Studio".
Proof.
  split; [reflexivity|].
  destruct (added_keyword_goes_to_first_holder ascii_db sample_shared
              (py "Fitness") (py "pilates") 16%nat
              (receipt_of (Some (py "Pilates")) None))
    as (H1 & n & Hn & Hc & _).
  - prove_store_wf.
  - reflexivity.
  - reflexivity.
  - vm_compute; reflexivity.
  - right. exists [], []. repeat split; vm_compute; reflexivity.
  - split; [exact H1|].
    change (first_reached ascii_db 16%nat (py "pilates")
              (merchant_of ascii_db (receipt_of (Some (py "Pilates")) None))
              (CategoryStore.all_categories sample_shared))
      with (Some (py "Studio")) in Hn.
    injection Hn as <-. exact Hc.
Defined.

Lemma unshared_list_update_witness :
  view (CategoryStore.add_keyword_to_category CategoryStore.init
          (py "Food & Dining") (py "bakery"))
  = with_keyword (view CategoryStore.init) (py "Food & Dining") (py "bakery").
Proof.
  apply (unshared_list_update CategoryStore.init (py "Food & Dining")
           (py "bakery") 0%nat).
  - prove_store_wf.
  - reflexivity.
  - reflexivity.
Defined.
